(** * llvm/lib/System/Win32/Path.cpp: the Win32 [sys::Path] class

    A shallow embedding of the path-string algebra of [llvm::sys::Path]
    (validation, mode queries, the set/append/elide mutators, decomposition,
    the library search of [GetLibraryPath], the signature tests, the
    well-known locations and the actions on the file system), followed by
    the properties established about it.

    Conventions.
    - [std::string] is a [list ascii]; a [char] is an [ascii] (one byte).
    - A [size_t] position returned by [rfind]/[find_first_of] is an
      [option nat]: [None] stands for [std::string::npos], which is never a
      valid index.  The only subtraction the modelled code performs on a
      found position ([slashpos-1] in [elideDirectory]) is guarded by
      [slashpos != 0].
    - A mutating member function [bool Path::f(args)] is a computation in
      the state monad [M] over the object, returning its [bool].
    - [getLast] and [getBasename] do arithmetic on positions that can wrap,
      so there [size_t] is an [N] below [2^32] with the wrap-around written
      out.
    - The Win32 calls are parameters; the actions on the file system thread
      an abstract platform state through them and end in a [run]: a return
      value, a thrown message, or a write through a null pointer. *)

From Stdlib Require Import List Ascii String Bool Arith NArith Lia.
From Stdlib Require Import DecimalString.
Import ListNotations.

(* ================================================================= *)
(** ** std::string *)

Module Str.

Definition t := list ascii.

(** A string literal of the source. *)
Definition lit (s : string) : t := list_ascii_of_string s.

Definition size (s : t) : nat := List.length s.

Definition empty (s : t) : bool :=
  match s with [] => true | _ :: _ => false end.

(** [s[i]]; the terminating NUL is read at [i = size]. *)
Definition at_ (s : t) (i : nat) : ascii := nth i s zero.

(** Index of the last occurrence of [c] in [s]. *)
Fixpoint last_index (c : ascii) (s : t) : option nat :=
  match s with
  | [] => None
  | x :: r =>
      match last_index c r with
      | Some i => Some (S i)
      | None => if Ascii.eqb x c then Some 0 else None
      end
  end.

(** [s.rfind(c, pos)]: the last occurrence of [c] at an index [<= pos]. *)
Definition rfind (s : t) (c : ascii) (pos : nat) : option nat :=
  last_index c (firstn (S pos) s).

Definition mem (c : ascii) (set : t) : bool := existsb (Ascii.eqb c) set.

(** [s.find_first_of(set)]: the first index holding a character of [set]. *)
Fixpoint find_first_of (s set : t) : option nat :=
  match s with
  | [] => None
  | x :: r =>
      if mem x set then Some 0
      else match find_first_of r set with
           | Some i => Some (S i)
           | None => None
           end
  end.

(** [s.erase(pos)]: drop everything from [pos] on. *)
Definition erase (s : t) (pos : nat) : t := firstn pos s.

(** [s.erase(pos, n)]: drop [n] characters starting at [pos]. *)
Definition erase_n (s : t) (pos n : nat) : t := firstn pos s ++ skipn (pos + n) s.

Definition eqb (a b : t) : bool :=
  if list_eq_dec ascii_dec a b then true else false.

End Str.

Definition str : Type := Str.t.
Definition lit : string -> str := Str.lit.

Definition found (r : option nat) : bool :=
  match r with Some _ => true | None => false end.

(** The characters the source names. *)
Definition ch_slash : ascii := "/"%char.
Definition ch_backslash : ascii := "\"%char.
Definition ch_colon : ascii := ":"%char.
Definition ch_dot : ascii := "."%char.
Definition ch_space : ascii := " "%char.
Definition ch_dquote : ascii := ascii_of_nat 34.

(** [isalpha] in the C locale. *)
Definition isalpha (c : ascii) : bool :=
  let n := nat_of_ascii c in
  ((65 <=? n) && (n <=? 90)) || ((97 <=? n) && (n <=? 122)).

(** [FlipBackSlashes]: every backslash becomes a forward slash. *)
Definition FlipBackSlashes (s : str) : str :=
  map (fun c => if Ascii.eqb c ch_backslash then ch_slash else c) s.

(** The argument of [find_first_of] in [isValid]: backslash, [<], [>],
    double quote, [|] and the control characters \001 .. \037. *)
Definition illegal_chars : str :=
  [ch_backslash; "<"%char; ">"%char; ch_dquote; "|"%char]
    ++ map ascii_of_nat (seq 1 31).

(* ================================================================= *)
(** ** The Path object *)

Record Path : Type := mkPath { path : str }.

(** Modelled from the spec: the default constructor [Path()] of Path.h,
    which is not part of this translation unit; a Path created "empty". *)
Definition Path_default : Path := mkPath [].

Definition isValid (self : Path) : bool :=
  let path := path self in
  if Str.empty path then false else
  let len := Str.size path in
  let pos := Str.rfind path ch_colon len in
  if match pos with
     | Some pos => negb (pos =? 1) || negb (isalpha (Str.at_ path 0)) || (len <? 3)
     | None => false
     end
  then false else
  if found (Str.find_first_of path illegal_chars) then false else
  if Ascii.eqb (Str.at_ path (len - 1)) ch_dot then false else
  if (2 <=? len) && Ascii.eqb (Str.at_ path (len - 2)) ch_dot
       && Ascii.eqb (Str.at_ path (len - 1)) ch_slash then false else
  if Ascii.eqb (Str.at_ path (len - 1)) ch_space then false else
  if (2 <=? len) && Ascii.eqb (Str.at_ path (len - 2)) ch_space
       && Ascii.eqb (Str.at_ path (len - 1)) ch_slash then false else
  true.

Definition isFile (self : Path) : bool :=
  isValid self && negb (Ascii.eqb (Str.at_ (path self) (Str.size (path self) - 1)) ch_slash).

Definition isDirectory (self : Path) : bool :=
  isValid self && Ascii.eqb (Str.at_ (path self) (Str.size (path self) - 1)) ch_slash.

(* ================================================================= *)
(** ** Member functions as state computations *)

(** A member function that may modify [*this] and returns an [A]. *)
Definition M (A : Type) : Type := Path -> A * Path.

Definition ret {A} (a : A) : M A := fun self => (a, self).

Definition bind {A B} (m : M A) (k : A -> M B) : M B :=
  fun self => let (a, self') := m self in k a self'.

(** A [const] member function. *)
Definition query {A} (f : Path -> A) : M A := fun self => (f self, self).

(** Assignment to the member [path]. *)
Definition set_path (s : str) : M unit := fun _ => (tt, mkPath s).

(** In-place update of the member [path]. *)
Definition modify_path (f : str -> str) : M unit :=
  fun self => (tt, mkPath (f (path self))).

(** The short-circuit [a && b] of C++ on calls with side effects. *)
Definition andM (a b : M bool) : M bool :=
  bind a (fun r => if r then b else ret false).

(** [if (c) t else e] with an effectful condition. *)
Definition ifM {A} (c : M bool) (t e : M A) : M A :=
  bind c (fun r => if r then t else e).

(** [if (c) t;] with a pure condition and no [else]. *)
Definition when (c : bool) (t : M unit) : M unit :=
  if c then t else ret tt.

Declare Scope path_scope.
Delimit Scope path_scope with path.
Notation "x <- m ;; k" := (bind m (fun x => k))
  (at level 61, m at next level, right associativity) : path_scope.
Notation "m ;; k" := (bind m (fun _ => k))
  (at level 61, right associativity) : path_scope.
Notation "a &&& b" := (andM a b)
  (at level 40, left associativity) : path_scope.
Open Scope path_scope.

(** Modelled from the spec: [Path::clear()] of Path.h, which is not part of
    this translation unit; it leaves the Path empty ("an empty/invalid
    Path"). *)
Definition clear : M unit := set_path [].

(** [Path save( *this )]: the snapshot taken by the mutators. *)
Definition snapshot : M Path := query (fun self => self).

(* ----------------------------------------------------------------- *)
(** *** Setters *)

Definition setDirectory (a_path : str) : M bool :=
  if Str.size a_path =? 0 then ret false else
  save <- snapshot ;;
  set_path a_path ;;
  modify_path FlipBackSlashes ;;
  let last := Str.size a_path - 1 in
  when (negb (last =? 0) && negb (Ascii.eqb (Str.at_ a_path last) ch_slash))
       (modify_path (fun p => p ++ [ch_slash])) ;;
  valid <- query isValid ;;
  if negb valid then set_path (path save) ;; ret false
  else ret true.

(** The loop [while (last > 0 && a_path[last] == '/') last--;] of
    [setFile]; [last] itself bounds the number of iterations. *)
Fixpoint strip_slashes (a_path : str) (last : nat) : nat :=
  match last with
  | 0 => 0
  | S last' =>
      if Ascii.eqb (Str.at_ a_path last) ch_slash
      then strip_slashes a_path last' else last
  end.

Definition setFile (a_path : str) : M bool :=
  if Str.size a_path =? 0 then ret false else
  save <- snapshot ;;
  set_path a_path ;;
  modify_path FlipBackSlashes ;;
  let last := Str.size a_path - 1 in
  let last := strip_slashes a_path last in
  modify_path (fun p => Str.erase p (last + 1)) ;;
  valid <- query isValid ;;
  if negb valid then set_path (path save) ;; ret false
  else ret true.

(* ----------------------------------------------------------------- *)
(** *** Component algebra *)

Definition appendDirectory (dir : str) : M bool :=
  file <- query isFile ;;
  if file then ret false else
  save <- snapshot ;;
  modify_path (fun p => p ++ dir) ;;
  modify_path (fun p => p ++ lit "/") ;;
  valid <- query isValid ;;
  if negb valid then set_path (path save) ;; ret false
  else ret true.

Definition elideDirectory : M bool :=
  file <- query isFile ;;
  if file then ret false else
  slashpos <- query (fun self => Str.rfind (path self) ch_slash (Str.size (path self))) ;;
  match slashpos with
  | None => ret false
  | Some 0 => ret false
  | Some slashpos =>
      size <- query (fun self => Str.size (path self)) ;;
      slashpos <- (if slashpos =? size - 1
                   then query (fun self => Str.rfind (path self) ch_slash (slashpos - 1))
                   else ret (Some slashpos)) ;;
      match slashpos with
      | None => ret false
      | Some slashpos =>
          modify_path (fun p => Str.erase p slashpos) ;;
          ret true
      end
  end.

Definition appendFile (file : str) : M bool :=
  dir <- query isDirectory ;;
  if negb dir then ret false else
  save <- snapshot ;;
  modify_path (fun p => p ++ file) ;;
  valid <- query isValid ;;
  if negb valid then set_path (path save) ;; ret false
  else ret true.

Definition elideFile : M bool :=
  dir <- query isDirectory ;;
  if dir then ret false else
  slashpos <- query (fun self => Str.rfind (path self) ch_slash (Str.size (path self))) ;;
  match slashpos with
  | None => ret false
  | Some slashpos =>
      modify_path (fun p => Str.erase p (slashpos + 1)) ;;
      ret true
  end.

Definition appendSuffix (suffix : str) : M bool :=
  dir <- query isDirectory ;;
  if dir then ret false else
  save <- snapshot ;;
  modify_path (fun p => p ++ lit ".") ;;
  modify_path (fun p => p ++ suffix) ;;
  valid <- query isValid ;;
  if negb valid then set_path (path save) ;; ret false
  else ret true.

Definition elideSuffix : M bool :=
  dir <- query isDirectory ;;
  if dir then ret false else
  dotpos <- query (fun self => Str.rfind (path self) ch_dot (Str.size (path self))) ;;
  slashpos <- query (fun self => Str.rfind (path self) ch_slash (Str.size (path self))) ;;
  match slashpos, dotpos with
  | Some slashpos, Some dotpos =>
      if slashpos <? dotpos then
        modify_path (fun p => Str.erase_n p dotpos (Str.size p - dotpos)) ;;
        ret true
      else ret false
  | _, _ => ret false
  end.

(* ================================================================= *)
(** ** Construction from a caller-supplied string *)

(** How a constructor call ends: normally, or by [throw std::string(what)];
    [thrown_self] records the member [path] at the point of the throw. *)
Inductive ctor_result : Type :=
| Constructed (self : Path)
| Thrown (thrown_self : Path) (what : str).

(** [Path::Path(std::string unverified_path)]. *)
Definition Path_ctor (unverified_path : str) : ctor_result :=
  let self := mkPath unverified_path in
  let self := snd (modify_path FlipBackSlashes self) in
  if Str.empty unverified_path then Constructed self else
  if isValid self then Constructed self else
  let self := snd (clear self) in
  Thrown self (unverified_path ++ lit ": path is not valid").

(* ================================================================= *)
(** ** Library search *)

Definition GetDLLSuffix : str := lit "dll".

(** [s.c_str()] as a C function reads it: up to the first NUL. *)
Fixpoint c_str (s : str) : str :=
  match s with
  | [] => []
  | c :: r => if Ascii.eqb c zero then [] else c :: c_str r
  end.

Section Filesystem.

(** The platform call [GetFileAttributes]: [None] stands for
    [INVALID_FILE_ATTRIBUTES], [Some attr] for the attribute word. *)
Variable GetFileAttributes : str -> option nat.

Definition readable (self : Path) : bool :=
  let attr := GetFileAttributes (c_str (path self)) in
  found attr.

(** The chain [if (appendSuffix(dll) && readable()) return true; else if
    (elideSuffix() && appendSuffix("a") && readable()) return true; ...]
    that [IsLibrary] runs under each of its two outer branches; [false]
    means that control fell through the chain. *)
Definition try_suffixes : M bool :=
  ifM (appendSuffix GetDLLSuffix &&& query readable) (ret true)
  (ifM (elideSuffix &&& appendSuffix (lit "a") &&& query readable) (ret true)
  (ifM (elideSuffix &&& appendSuffix (lit "o") &&& query readable) (ret true)
  (ifM (elideSuffix &&& appendSuffix (lit "bc") &&& query readable) (ret true)
  (ret false)))).

Definition IsLibrary (basename : str) : M bool :=
  returned <-
    ifM (appendFile (lit "lib" ++ basename))
      try_suffixes
      (ifM (elideFile &&& appendFile basename)
         try_suffixes
         (ret false)) ;;
  if returned : bool then ret true
  else clear ;; ret false.

(** The loop over [LibPaths]; [true] means [return result] was reached. *)
Fixpoint try_LibPaths (basename : str) (LibPaths : list str) : M bool :=
  match LibPaths with
  | [] => ret false
  | I_ :: rest =>
      ifM (setDirectory I_ &&& IsLibrary basename) (ret true)
          (try_LibPaths basename rest)
  end.

Definition GetLibraryPath (basename : str) (LibPaths : list str) : Path :=
  let result := Path_default in
  snd ((ifM (try_LibPaths basename LibPaths) (ret tt)
       (ifM (setDirectory (lit "/usr/lib/") &&& IsLibrary basename) (ret tt)
       (ifM (setDirectory (lit "/lib/") &&& IsLibrary basename) (ret tt)
       clear))) result).

End Filesystem.

(* ================================================================= *)
(** ** Signature sniffing *)

(** A call that either returns or throws a message. *)
Inductive result (A : Type) : Type :=
| Returns (a : A)
| Throws (what : str).
Arguments Returns {A} a.
Arguments Throws {A} what.

(** What the platform gives when a file is opened for reading. *)
Inductive file_source : Type :=
| CannotOpen                 (* the open fails *)
| Contents (bytes : str)     (* the file opens and holds [bytes] *)
| DeviceError (bytes : str). (* the file opens; the device fails after [bytes] *)

(** The part of [std::ifstream] the code observes: the three state bits of
    [std::ios_base] and the bytes still to be read. *)
Record ifstream : Type := mkStream {
  badbit : bool;
  failbit : bool;
  eofbit : bool;
  pending : str;
  faulty : bool
}.

(** [std::ifstream f(name)]: a failed open sets [failbit]. *)
Definition ifstream_open (src : file_source) : ifstream :=
  match src with
  | CannotOpen => mkStream false true false [] false
  | Contents bytes => mkStream false false false bytes false
  | DeviceError bytes => mkStream false false false bytes true
  end.

(** [f.read(buf, n)]: on a stream that is not [good()] it only sets
    [failbit]; otherwise it stores the bytes it gets at the front of [buf],
    and when fewer than [n] arrive sets [badbit] on a device error and
    [eofbit | failbit] at end of file. *)
Definition ifstream_read (f : ifstream) (buf : str) (n : nat) : ifstream * str :=
  if badbit f || failbit f || eofbit f
  then (mkStream (badbit f) true (eofbit f) (pending f) (faulty f), buf)
  else
    let got := firstn n (pending f) in
    let buf' := got ++ skipn (Str.size got) buf in
    let rest := skipn n (pending f) in
    if Str.size got <? n
    then if faulty f
         then (mkStream true (failbit f) (eofbit f) rest (faulty f), buf')
         else (mkStream (badbit f) true true rest (faulty f), buf')
    else (mkStream (badbit f) (failbit f) (eofbit f) rest (faulty f), buf').

Definition bad (f : ifstream) : bool := badbit f.

(** [memcmp(a, b, n) == 0]. *)
Definition memcmp_eq (a b : str) (n : nat) : bool :=
  Str.eqb (firstn n a) (firstn n b).

(** Modelled from the spec: [ThrowErrno] of Win32.h, which is not part of
    this translation unit; it reports the I/O error to the caller. *)
Definition ThrowErrno {A} (what : str) : result A := Throws what.

(** [Path::isBytecodeFile]. [open] is the platform's answer for a file
    name; [u1 u2 u3] are the indeterminate initial values of [buffer[1..3]]
    (only [buffer[0]] is initialised). *)
Definition isBytecodeFile (open : str -> file_source) (u1 u2 u3 : ascii)
    (self : Path) : result bool :=
  let buffer := [zero; u1; u2; u3] in
  let f := ifstream_open (open (c_str (path self))) in
  let (f, buffer) := ifstream_read f buffer 4 in
  if bad f then ThrowErrno (lit "can't read file signature")
  else Returns (memcmp_eq buffer (lit "llvc") 4 || memcmp_eq buffer (lit "llvm") 4).

(* ================================================================= *)
(** ** Decomposition: getLast and getBasename *)

(** These two functions compute with positions ([pos-1], [pos-pos2-1]) and
    pass a position where a count is expected, so [size_t] is modelled as
    the machine word it is: an [N] below [2^32] (the Win32 [size_t]), with
    the wrap-around of subtraction and addition written out. *)
Definition size_t_mod : N := 2 ^ 32.

(** [std::string::npos], that is [(size_t)-1]. *)
Definition npos : N := size_t_mod - 1.

Definition size_t_sub (a b : N) : N :=
  if (b <=? a)%N then (a - b)%N else (size_t_mod - (b - a))%N.

Definition size_t_add (a b : N) : N :=
  if (a + b <? size_t_mod)%N then (a + b)%N else (a + b - size_t_mod)%N.

(** [s.length()] as a [size_t]. *)
Definition length_t (s : str) : N := N.of_nat (Str.size s).

(** [s.rfind(c, pos)] returning a [size_t]; the library first clamps [pos]
    to the length of [s]. *)
Definition rfind_t (s : str) (c : ascii) (pos : N) : N :=
  match Str.rfind s c (N.to_nat (N.min pos (length_t s))) with
  | Some i => N.of_nat i
  | None => npos
  end.

(** [s.substr(pos, n)]: throws [std::out_of_range] when [pos > size()],
    and otherwise returns at most [n] characters from [pos] on. *)
Definition substr_t (s : str) (pos n : N) : result str :=
  if (length_t s <? pos)%N then Throws (lit "basic_string::substr")
  else Returns (firstn (N.to_nat (N.min n (length_t s - pos)))
                       (skipn (N.to_nat pos) s)).

(** [Path::getBasename]. *)
Definition getBasename (self : Path) : result str :=
  let slash := rfind_t (path self) ch_slash npos in
  let slash := if (slash =? npos)%N then 0%N else size_t_add slash 1 in
  substr_t (path self) slash (rfind_t (path self) ch_dot npos).

(** [Path::getLast]. *)
Definition getLast (self : Path) : result str :=
  let pos := rfind_t (path self) ch_slash npos in
  if (pos =? npos)%N then Returns (path self) else
  if (pos =? size_t_sub (length_t (path self)) 1)%N then
    let pos2 := rfind_t (path self) ch_slash (size_t_sub pos 1) in
    if (pos2 =? npos)%N then substr_t (path self) 0 pos
    else substr_t (path self) (size_t_add pos2 1)
                  (size_t_sub (size_t_sub pos pos2) 1)
  else substr_t (path self) (size_t_add pos 1) npos.

(* ================================================================= *)
(** ** Well-known locations *)

(** [Path::GetRootDirectory]. *)
Definition GetRootDirectory : Path :=
  snd (setDirectory (lit "/") Path_default).

(** [Path::GetUserHomeDirectory]; [home] is what [getenv("HOME")] gives,
    [None] for a null pointer. *)
Definition GetUserHomeDirectory (home : option str) : Path :=
  match home with
  | Some home =>
      let result := Path_default in
      let (ok, result) := setDirectory home result in
      if ok then result else GetRootDirectory
  | None => GetRootDirectory
  end.

(* ================================================================= *)
(** ** Attribute probes and the archive signature *)

(** The Win32 constant [FILE_ATTRIBUTE_READONLY] of the platform headers. *)
Definition FILE_ATTRIBUTE_READONLY : nat := 1.

Section Probes.

Variable GetFileAttributes : str -> option nat.

(** [Path::exists]. *)
Definition exists_ (self : Path) : bool :=
  let attr := GetFileAttributes (c_str (path self)) in
  found attr.

(** [Path::writable]. *)
Definition writable (self : Path) : bool :=
  let attr := GetFileAttributes (c_str (path self)) in
  match attr with
  | Some attr => negb (negb (Nat.land attr FILE_ATTRIBUTE_READONLY =? 0))
  | None => false
  end.

(** [Path::executable]. *)
Definition executable (self : Path) : bool :=
  let attr := GetFileAttributes (c_str (path self)) in
  found attr.

(** What opening a file name gives, and the indeterminate bytes found in
    freshly allocated stack memory, by offset. *)
Variable open : str -> file_source.
Variable junk : nat -> ascii.

(** [_alloca(n)]: [n] bytes of indeterminate content. *)
Definition alloca (n : nat) : str := map junk (seq 0 n).

(** [Path::hasMagicNumber]; [Magic == buf] compares [Magic] with the C
    string in [buf], which ends at its first NUL. *)
Definition hasMagicNumber (Magic : str) (self : Path) : bool :=
  let len := Str.size Magic in
  let buf := alloca (len + 1) in
  let f := ifstream_open (open (c_str (path self))) in
  let (f, buf) := ifstream_read f buf len in
  let buf := firstn len buf ++ zero :: skipn (len + 1) buf in
  Str.eqb Magic (c_str buf).

(** [Path::isArchive]; the signature ends in a line feed (octal 012). *)
Definition isArchive (self : Path) : bool :=
  if readable GetFileAttributes self
  then hasMagicNumber (lit "!<arch>" ++ [ascii_of_nat 10]) self
  else false.

End Probes.

(* ================================================================= *)
(** ** Actions on the file system *)

(** How a call that works on raw buffers ends: it returns, it throws a
    message, it writes through the null pointer that [strchr] returned, or
    (in the model only) its loop is cut short for lack of fuel. *)
Inductive run (A : Type) : Type :=
| Finished (a : A)
| Threw (what : str)
| NullWrite
| OutOfFuel.
Arguments Finished {A} a.
Arguments Threw {A} what.
Arguments NullWrite {A}.
Arguments OutOfFuel {A}.

(** [strchr(s, c)] on the characters from the pointer on: the offset of
    the first [c] before the terminating NUL, [None] for a null result. *)
Fixpoint strchr (s : str) (c : ascii) : option nat :=
  match s with
  | [] => None
  | x :: r =>
      if Ascii.eqb x c then Some 0
      else if Ascii.eqb x zero then None
      else match strchr r c with
           | Some k => Some (S k)
           | None => None
           end
  end.

(** [strchr(buf + from, c)] as an index into [buf]. *)
Definition strchr_at (buf : str) (from : nat) (c : ascii) : option nat :=
  match strchr (skipn from buf) c with
  | Some k => Some (from + k)
  | None => None
  end.

(** [buf[i] = v]. *)
Definition poke (buf : str) (i : nat) (v : ascii) : str :=
  firstn i buf ++ v :: skipn (S i) buf.

(** Modelled from the spec: [ThrowError] of Win32.h, which is not part of
    this translation unit; it signals the error with the message it is
    given (the platform's own error text, which it appends, is left out). *)
Definition ThrowError {A} (what : str) : run A := Threw what.

(** The start of the component walk in [createDirectory]: the index after
    the host and share names of a remote path, or after the drive letter
    and the root separator. *)
Definition skip_root (pathname : str) : run nat :=
  let next := 0 in
  if Ascii.eqb (Str.at_ pathname 0) ch_slash && Ascii.eqb (Str.at_ pathname 1) ch_slash
  then
    match strchr_at pathname 2 ch_slash with
    | None => Threw (c_str pathname ++ lit ": badly formed remote directory")
    | Some next =>
        match strchr_at pathname (next + 1) ch_slash with
        | None => Threw (c_str pathname ++ lit ": badly formed remote directory")
        | Some next =>
            let next := next + 1 in
            if Ascii.eqb (Str.at_ pathname next) zero
            then Threw (c_str pathname ++ lit ": badly formed remote directory")
            else Finished next
        end
    end
  else
    let next := if Ascii.eqb (Str.at_ pathname 1) ch_colon then next + 2 else next in
    let next := if Ascii.eqb (Str.at_ pathname next) ch_slash then next + 1 else next in
    Finished next.

Section Platform.

(** The state of the platform and the Win32 calls the actions make.  A
    [bool] is the call's success; [GetFileAttributes] gives [None] for
    [INVALID_FILE_ATTRIBUTES]; [CreateFile] stands for the call with
    [CREATE_NEW] followed by [CloseHandle]. *)
Variable World : Type.
Variable GetFileAttributes : World -> str -> option nat.
Variable SetFileAttributes : str -> nat -> World -> bool * World.
Variable CreateDirectory : str -> World -> bool * World.
Variable RemoveDirectory : str -> World -> bool * World.
Variable CreateFile : str -> World -> bool * World.
Variable DeleteFile : str -> World -> bool * World.
Variable system : str -> World -> World.

(** The loop [while ( *next ) { ... }] of [createDirectory]; every turn
    moves [next] forward, so the length of the buffer is fuel enough. *)
Fixpoint create_parents_loop (fuel : nat) (pathname : str) (next : nat) (w : World)
  : run bool * World :=
  match fuel with
  | 0 => (OutOfFuel, w)
  | S fuel =>
      if Ascii.eqb (Str.at_ pathname next) zero then (Finished true, w) else
      match strchr_at pathname next ch_slash with
      | None => (NullWrite, w)
      | Some next =>
          let pathname := poke pathname next zero in
          let (ok, w) := CreateDirectory (c_str pathname) w in
          if negb ok
          then (ThrowError (c_str pathname ++ lit ": Can't create directory: "), w)
          else
            let pathname := poke pathname next ch_slash in
            create_parents_loop fuel pathname (next + 1) w
      end
  end.

(** [Path::createDirectory]. *)
Definition createDirectory (create_parents : bool) (self : Path) (w : World)
  : run bool * World :=
  if negb (isDirectory self) then (Finished false, w) else
  let pathname := path self ++ [zero] in
  match skip_root pathname with
  | Threw what => (Threw what, w)
  | NullWrite => (NullWrite, w)
  | OutOfFuel => (OutOfFuel, w)
  | Finished next =>
      if create_parents
      then create_parents_loop (Str.size pathname) pathname next w
      else
        let pathname := poke pathname (Str.size (path self) - 1) zero in
        let (ok, w) := CreateDirectory (c_str pathname) w in
        if negb ok
        then (ThrowError (c_str pathname ++ lit ": Can't create directory: "), w)
        else (Finished true, w)
  end.

(** [Path::createFile]. *)
Definition createFile (self : Path) (w : World) : run bool * World :=
  if negb (isFile self) then (Finished false, w) else
  let (h, w) := CreateFile (c_str (path self)) w in
  if negb h
  then (ThrowError (c_str (path self) ++ lit ": Can't create file: "), w)
  else (Finished true, w).

(** [Path::destroyDirectory]; [junk] gives the indeterminate bytes of the
    buffer, of which [path.copy] fills all but the last. *)
Definition destroyDirectory (junk : nat -> ascii) (remove_contents : bool)
    (self : Path) (w : World) : run bool * World :=
  if negb (isDirectory self) then (Finished false, w) else
  if negb (exists_ (GetFileAttributes w) self) then (Finished true, w) else
  let pathname := alloca junk (Str.size (path self) + 1) in
  let pathname := path self ++ skipn (Str.size (path self)) pathname in
  let lastchar := Str.size (path self) - 1 in
  let pathname :=
    if Ascii.eqb (Str.at_ pathname lastchar) ch_slash
    then poke pathname lastchar zero else pathname in
  if remove_contents then
    let cmd := lit "rm -rf " in
    let cmd := cmd ++ path self in
    let w := system (c_str cmd) w in
    (Finished true, w)
  else
    let (ok, w) := RemoveDirectory (c_str pathname) w in
    if negb ok
    then (ThrowError (c_str pathname ++ lit ": Can't destroy directory: "), w)
    else (Finished true, w).

(** [Path::destroyFile]; [attr & ~FILE_ATTRIBUTE_READONLY] clears the
    read-only bit. *)
Definition destroyFile (self : Path) (w : World) : run bool * World :=
  if negb (isFile self) then (Finished false, w) else
  let attr := GetFileAttributes w (c_str (path self)) in
  match attr with
  | None => (Finished true, w)
  | Some attr =>
      let delete (w : World) : run bool * World :=
        let (ok, w) := DeleteFile (c_str (path self)) w in
        if negb ok
        then (ThrowError (c_str (path self) ++ lit ": Can't destroy file: "), w)
        else (Finished true, w) in
      if negb (Nat.land attr FILE_ATTRIBUTE_READONLY =? 0) then
        let (ok, w) := SetFileAttributes (c_str (path self))
                         (Nat.ldiff attr FILE_ATTRIBUTE_READONLY) w in
        if negb ok
        then (ThrowError (c_str (path self) ++ lit ": Can't destroy file: "), w)
        else delete w
      else delete w
  end.

End Platform.

Arguments create_parents_loop {World} CreateDirectory fuel pathname next w.
Arguments createDirectory {World} CreateDirectory create_parents self w.
Arguments createFile {World} CreateFile self w.
Arguments destroyDirectory {World} GetFileAttributes RemoveDirectory system
  junk remove_contents self w.
Arguments destroyFile {World} GetFileAttributes SetFileAttributes DeleteFile self w.

(* ================================================================= *)
(** ** The temporary directory *)

(** [sprintf(buf, "%u", n)]: the decimal digits of [n]. *)
Definition decimal (n : nat) : str :=
  list_ascii_of_string (NilEmpty.string_of_uint (Nat.to_uint n)).

Section TemporaryDirectory.

Variable World : Type.
Variable GetFileAttributes : World -> str -> option nat.
Variable CreateDirectory : str -> World -> bool * World.
Variable RemoveDirectory : str -> World -> bool * World.
Variable system : str -> World -> World.
(** [GetTempPath(MAX_PATH, pathname)]: [None] when it returns 0, and
    otherwise the C string it leaves in [pathname]. *)
Variable GetTempPath : World -> option str.
Variable GetCurrentProcessId : World -> nat.
Variable junk : nat -> ascii.

(** [Path::GetTemporaryDirectory]; the second component of the state is the
    static [TempDirectory], [None] for the null pointer. *)
Definition GetTemporaryDirectory (st : World * option Path)
  : run Path * (World * option Path) :=
  let (w, TempDirectory) := st in
  match TempDirectory with
  | Some cached => (Finished cached, st)
  | None =>
      match GetTempPath w with
      | None => (Threw (lit "Can't determine temporary directory"), st)
      | Some pathname =>
          let result := Path_default in
          let result := snd (setDirectory pathname result) in
          let pathname := lit "LLVM_" ++ decimal (GetCurrentProcessId w) in
          let result := snd (appendDirectory pathname result) in
          match destroyDirectory GetFileAttributes RemoveDirectory system
                  junk true result w with
          | (Finished _, w) =>
              match createDirectory CreateDirectory false result w with
              | (Finished _, w) => (Finished result, (w, Some result))
              | (Threw what, w) => (Threw what, (w, None))
              | (NullWrite, w) => (NullWrite, (w, None))
              | (OutOfFuel, w) => (OutOfFuel, (w, None))
              end
          | (Threw what, w) => (Threw what, (w, None))
          | (NullWrite, w) => (NullWrite, (w, None))
          | (OutOfFuel, w) => (OutOfFuel, (w, None))
          end
      end
  end.

End TemporaryDirectory.

Arguments GetTemporaryDirectory {World} GetFileAttributes CreateDirectory
  RemoveDirectory system GetTempPath GetCurrentProcessId junk st.

(* ================================================================= *)
(** ** Strings named by the specification *)

(** The string the specification's words give for [setDirectory(s)]:
    separators normalised and a trailing separator appended unless [s] is
    exactly the root. *)
Definition setDirectory_described (s : str) : str :=
  FlipBackSlashes s ++ (if Str.eqb s (lit "/") then [] else [ch_slash]).

(** The string [setDirectory(s)] offers to [isValid]: separators
    normalised, and a separator appended exactly when [s] has more than one
    character and its last character, as supplied, is not the separator. *)
Definition setDirectory_candidate (s : str) : str :=
  FlipBackSlashes s ++
  (if (1 <? Str.size s) && negb (Ascii.eqb (last s zero) ch_slash)
   then [ch_slash] else []).

(** A file system in which exactly one name exists. *)
Definition only_file (name : str) : str -> option nat :=
  fun f => if Str.eqb f name then Some 0 else None.

(* ================================================================= *)
(** ** Notions used to state the properties *)

(** [s] reads [pre / mid . suf] where the shown [/] is its last separator
    and the shown [.] is its last dot, lying after that separator. *)
Definition suffix_split (s pre mid suf : str) : Prop :=
  s = pre ++ ch_slash :: mid ++ ch_dot :: suf /\
  ~ In ch_slash mid /\ ~ In ch_slash suf /\ ~ In ch_dot suf.

(** What a caller may observe between calls: an empty Path or a valid one. *)
Definition observable_ok (p : Path) : Prop :=
  path p = [] \/ isValid p = true.

(** The outcome [r] of a mutator started on [before] is a commit of a valid
    string (reported as success) or a roll-back (reported as failure). *)
Definition commits_or_rolls_back (before : Path) (r : bool * Path) : Prop :=
  (fst r = true /\ isValid (snd r) = true) \/ (fst r = false /\ snd r = before).

(** The outcome [r] of an elide started on [before] keeps a prefix of the
    string, and keeps all of it when it reports failure. *)
Definition truncates_or_keeps (before : Path) (r : bool * Path) : Prop :=
  (fst r = false -> snd r = before) /\
  exists k, path (snd r) = firstn k (path before).

(** The mutators that snapshot, change, re-validate and roll back. *)
Inductive validating_mutator : M bool -> Prop :=
| vm_setDirectory (s : str) : validating_mutator (setDirectory s)
| vm_setFile (s : str) : validating_mutator (setFile s)
| vm_appendDirectory (s : str) : validating_mutator (appendDirectory s)
| vm_appendFile (s : str) : validating_mutator (appendFile s)
| vm_appendSuffix (s : str) : validating_mutator (appendSuffix s).

(** The mutators that only erase. *)
Inductive eliding_mutator : M bool -> Prop :=
| em_elideDirectory : eliding_mutator elideDirectory
| em_elideFile : eliding_mutator elideFile
| em_elideSuffix : eliding_mutator elideSuffix.

(** [r] lies directly under the directory [q/]: its string is the
    directory's followed by text that holds no separator. *)
Definition under (q : str) (r : Path) : Prop :=
  exists t, path r = q ++ ch_slash :: t /\ ~ In ch_slash t.

(** A character that [isValid] rejects wherever it stands. *)
Definition illegal (c : ascii) : bool :=
  let n := nat_of_ascii c in
  Ascii.eqb c ch_backslash || Ascii.eqb c "<"%char || Ascii.eqb c ">"%char
  || Ascii.eqb c ch_dquote || Ascii.eqb c "|"%char
  || ((1 <=? n) && (n <=? 31)).

(** The validity rules, stated on the string: it is not empty; a colon
    stands only at index 1, after a letter, in a string of at least three
    characters; no character is illegal; the string does not end in a dot
    or a space, nor in a dot or a space followed by one separator. *)
Definition valid_string (s : str) : Prop :=
  s <> [] /\
  (forall i, nth_error s i = Some ch_colon ->
     i = 1 /\ isalpha (Str.at_ s 0) = true /\ 3 <= Str.size s) /\
  (forall c, In c s -> illegal c = false) /\
  (forall q, s <> q ++ [ch_dot]) /\
  (forall q, s <> q ++ [ch_dot; ch_slash]) /\
  (forall q, s <> q ++ [ch_space]) /\
  (forall q, s <> q ++ [ch_space; ch_slash]).

(** [text] is the text after the last separator of [s], or all of [s] when
    [s] holds no separator. *)
Definition last_component_of (s text : str) : Prop :=
  (~ In ch_slash s /\ text = s) \/
  (exists pre, s = pre ++ ch_slash :: text /\ ~ In ch_slash text).

(** The search of [GetLibraryPath] in the one directory [dir]: the Path
    found there, if any.  The attempt starts from a Path of its own. *)
Definition probe_directory (fs : str -> option nat) (basename dir : str)
  : option Path :=
  let (ok, result) := (setDirectory dir &&& IsLibrary fs basename) Path_default in
  if ok then Some result else None.

(** The first answer in a list of attempts. *)
Fixpoint first_found (attempts : list (option Path)) : option Path :=
  match attempts with
  | [] => None
  | Some r :: _ => Some r
  | None :: rest => first_found rest
  end.

(** The four names [IsLibrary] probes for [basename] under the directory
    string [dir], in the order it probes them. *)
Definition library_candidates (dir basename : str) : list Path :=
  map (fun suffix => mkPath (dir ++ lit "lib" ++ basename ++ ch_dot :: suffix))
      [GetDLLSuffix; lit "a"; lit "o"; lit "bc"].

(** What holds of a Path that passed a probe of the search: it is valid,
    in file mode and readable. *)
Definition library_found (fs : str -> option nat) (r : Path) : Prop :=
  isValid r = true /\ isFile r = true /\ readable fs r = true.

(** A directory string that [setDirectory] takes as it is and that gives a
    directory-mode path. *)
Definition plain_directory (dir : str) : Prop :=
  setDirectory dir Path_default = (true, mkPath dir) /\
  isDirectory (mkPath dir) = true.

(** The positions of the separators of [s], counted from [i]. *)
Fixpoint slash_positions (s : str) (i : nat) : list nat :=
  match s with
  | [] => []
  | x :: r =>
      if Ascii.eqb x ch_slash then i :: slash_positions r (S i)
      else slash_positions r (S i)
  end.

(** The directory names on the way down to [s]: for each separator at or
    after [start], the text before it, the shortest first. *)
Definition ancestors (s : str) (start : nat) : list str :=
  map (fun j => firstn j s) (slash_positions (skipn start s) start).

(** Creating the directories [names] one after the other, stopping with an
    error at the first one the platform refuses. *)
Fixpoint create_each {World : Type} (CreateDirectory : str -> World -> bool * World)
    (names : list str) (w : World) : run bool * World :=
  match names with
  | [] => (Finished true, w)
  | name :: rest =>
      let (ok, w) := CreateDirectory name w in
      if ok then create_each CreateDirectory rest w
      else (Threw (name ++ lit ": Can't create directory: "), w)
  end.

(** A platform that accepts every call and keeps the list of the names it
    was asked to create. *)
Definition logging_CreateDirectory (name : str) (log : list str)
  : bool * list str := (true, log ++ [name]).

(** Where the walk of [createDirectory] starts in the path [s]: the number
    of leading characters that name no directory to create.  A relative
    path has none; a rooted path has its separator; a path with a drive has
    the drive and the colon, and the separator after them if there is one;
    a remote path [//host/share/rest], with something after the share, has
    everything up to the separator that ends the share. *)
Inductive walk_start : str -> nat -> Prop :=
| walk_relative (c : ascii) (rest : str) :
    c <> ch_slash -> Str.at_ rest 0 <> ch_colon ->
    walk_start (c :: rest) 0
| walk_rooted (rest : str) :
    Str.at_ rest 0 <> ch_slash -> Str.at_ rest 0 <> ch_colon ->
    walk_start (ch_slash :: rest) 1
| walk_drive (c : ascii) (rest : str) :
    Str.at_ rest 0 <> ch_slash ->
    walk_start (c :: ch_colon :: rest) 2
| walk_drive_rooted (c : ascii) (rest : str) :
    walk_start (c :: ch_colon :: ch_slash :: rest) 3
| walk_remote (host share rest : str) :
    ~ In ch_slash host -> ~ In ch_slash share -> rest <> [] ->
    walk_start (ch_slash :: ch_slash :: host ++ ch_slash :: share ++ ch_slash :: rest)
               (Str.size host + Str.size share + 4).

(** The remote directory paths with nothing to create under a share:
    [//], [//host/] and [//host/share/]. *)
Definition badly_formed_remote (s : str) : Prop :=
  s = [ch_slash; ch_slash] \/
  (exists host, ~ In ch_slash host /\
     s = ch_slash :: ch_slash :: host ++ [ch_slash]) \/
  (exists host share, ~ In ch_slash host /\ ~ In ch_slash share /\
     s = ch_slash :: ch_slash :: host ++ ch_slash :: share ++ [ch_slash]).

(* ================================================================= *)
(** * Properties *)

(** ** Facts about the string primitives *)

Section StrFacts.

Variable c : ascii.

Lemma last_index_lt (s : str) (i : nat) :
  Str.last_index c s = Some i -> i < Str.size s.
Proof.
  unfold Str.size.
  revert i; induction s as [|x r IH]; simpl; intros i H; [discriminate|].
  destruct (Str.last_index c r) as [j|].
  - injection H as <-. specialize (IH j eq_refl). lia.
  - destruct (Ascii.eqb x c); [injection H as <-; lia | discriminate].
Qed.

Lemma last_index_None (s : str) :
  Str.last_index c s = None <-> ~ In c s.
Proof.
  induction s as [|x r IH]; simpl.
  - tauto.
  - destruct (Str.last_index c r) as [j|].
    + split; [discriminate|]. intros H. exfalso. apply H. right.
      destruct (in_dec ascii_dec c r) as [Hin|Hn]; [exact Hin|].
      apply IH in Hn. discriminate.
    + destruct (Ascii.eqb_spec x c) as [->|Hne].
      * split; [discriminate|]. intros H; exfalso; apply H; now left.
      * split; [|reflexivity]. intros _ [E|Hin]; [congruence|].
        now apply (proj1 IH).
Qed.

Lemma last_index_app (a t : str) :
  ~ In c t -> Str.last_index c (a ++ c :: t) = Some (Str.size a).
Proof.
  intros Hn. induction a as [|x r IH]; simpl.
  - apply last_index_None in Hn. rewrite Hn. now rewrite Ascii.eqb_refl.
  - now rewrite IH.
Qed.

Lemma last_index_split (s : str) (i : nat) :
  Str.last_index c s = Some i ->
  s = firstn i s ++ c :: skipn (S i) s /\ ~ In c (skipn (S i) s).
Proof.
  revert i; induction s as [|x r IH]; intros i H; [discriminate|].
  cbn [Str.last_index] in H.
  destruct (Str.last_index c r) as [j|] eqn:E.
  - injection H as <-. destruct (IH j eq_refl) as [Hs Hn].
    change (skipn (S (S j)) (x :: r)) with (skipn (S j) r).
    change (firstn (S j) (x :: r)) with (x :: firstn j r).
    split; [|exact Hn]. rewrite <- app_comm_cons. now rewrite <- Hs.
  - destruct (Ascii.eqb_spec x c) as [->|Hne]; [|discriminate].
    injection H as <-. change (skipn 1 (c :: r)) with r.
    split; [reflexivity|]. now apply last_index_None.
Qed.

Lemma rfind_size (s : str) : Str.rfind s c (Str.size s) = Str.last_index c s.
Proof.
  unfold Str.rfind, Str.size. rewrite firstn_all2; [reflexivity | lia].
Qed.

Lemma rfind_lt (s : str) (pos i : nat) :
  Str.rfind s c pos = Some i -> i < Str.size s /\ i <= pos.
Proof.
  unfold Str.rfind. intros H. apply last_index_lt in H.
  unfold Str.size in *. rewrite length_firstn in H.
  split; [apply Nat.lt_le_trans with (1 := H), Nat.le_min_r|].
  pose proof (Nat.le_min_l (S pos) (List.length s)). lia.
Qed.

End StrFacts.

Lemma at_last (q : str) (x : ascii) :
  Str.at_ (q ++ [x]) (Str.size (q ++ [x]) - 1) = x.
Proof.
  unfold Str.at_, Str.size. rewrite length_app. simpl.
  replace (List.length q + 1 - 1) with (List.length q) by lia.
  rewrite app_nth2 by lia. now rewrite Nat.sub_diag.
Qed.

Lemma at_last_inv (s : str) (x : ascii) :
  s <> [] -> Str.at_ s (Str.size s - 1) = x -> exists q, s = q ++ [x].
Proof.
  intros Hne H. destruct (exists_last Hne) as [q [y ->]].
  rewrite at_last in H. subst y. now exists q.
Qed.

Lemma erase_n_to_end (s : str) (pos : nat) :
  Str.erase_n s pos (Str.size s - pos) = firstn pos s.
Proof.
  unfold Str.erase_n, Str.size.
  rewrite skipn_all2 by lia. apply app_nil_r.
Qed.

Lemma FlipBackSlashes_clean (s : str) : ~ In ch_backslash (FlipBackSlashes s).
Proof.
  unfold FlipBackSlashes. rewrite in_map_iff. intros [x [Hx _]].
  destruct (Ascii.eqb_spec x ch_backslash) as [E|Hne]; [discriminate | congruence].
Qed.

(* ================================================================= *)
(** ** Mode queries *)

Lemma isValid_nonempty (p : Path) : isValid p = true -> path p <> [].
Proof.
  unfold isValid. destruct (path p); [discriminate | discriminate].
Qed.

Lemma isDirectory_inv (p : Path) :
  isDirectory p = true ->
  isValid p = true /\ exists q, path p = q ++ [ch_slash].
Proof.
  unfold isDirectory. intros H. apply andb_true_iff in H as [Hv Hl].
  split; [exact Hv|]. apply Ascii.eqb_eq in Hl.
  exact (at_last_inv _ _ (isValid_nonempty p Hv) Hl).
Qed.

Lemma isDirectory_intro (p : Path) (q : str) :
  isValid p = true -> path p = q ++ [ch_slash] -> isDirectory p = true.
Proof.
  intros Hv Hq. unfold isDirectory. rewrite Hv, Hq, at_last. reflexivity.
Qed.

Lemma not_isDirectory_no_trailing_slash (p : Path) (q : str) (x : ascii) :
  path p = q ++ [x] -> x <> ch_slash -> isDirectory p = false.
Proof.
  intros Hq Hx. unfold isDirectory. rewrite Hq, at_last.
  apply Ascii.eqb_neq in Hx. rewrite Hx. apply andb_false_r.
Qed.

(** C6. For a valid (hence non-empty) path exactly one of [isDirectory] and
    [isFile] holds, and [isDirectory] holds exactly when the last character
    is the separator; for an invalid path, in particular the empty one,
    both are false. *)
Theorem mode_exclusive (p : Path) :
  (isValid p = true ->
     xorb (isDirectory p) (isFile p) = true /\
     (isDirectory p = true <-> exists q, path p = q ++ [ch_slash])) /\
  (isValid p = false -> isDirectory p = false /\ isFile p = false) /\
  (path p = [] -> isValid p = false).
Proof.
  split; [|split].
  - intros Hv. split.
    + unfold isDirectory, isFile. rewrite Hv. simpl.
      now destruct (Ascii.eqb _ ch_slash).
    + split.
      * intros H. now apply isDirectory_inv in H.
      * intros [q Hq]. now apply isDirectory_intro with q.
  - intros Hv. unfold isDirectory, isFile. now rewrite Hv.
  - intros He. unfold isValid. now rewrite He.
Qed.

Lemma mode_exclusive_witness :
  (xorb (isDirectory (mkPath (lit "/a/"))) (isFile (mkPath (lit "/a/"))) = true /\
   (isDirectory (mkPath (lit "/a/")) = true <->
    exists q, path (mkPath (lit "/a/")) = q ++ [ch_slash])) /\
  (isDirectory (mkPath (lit "a.")) = false /\ isFile (mkPath (lit "a.")) = false) /\
  isValid (mkPath []) = false.
Proof.
  split; [|split].
  - apply (proj1 (mode_exclusive (mkPath (lit "/a/")))). reflexivity.
  - apply (proj1 (proj2 (mode_exclusive (mkPath (lit "a."))))). reflexivity.
  - apply (proj2 (proj2 (mode_exclusive (mkPath [])))). reflexivity.
Defined.

(* ================================================================= *)
(** ** The elide operations, unfolded *)

Lemma elideSuffix_eq (self : Path) :
  elideSuffix self =
  if isDirectory self then (false, self) else
  match Str.last_index ch_slash (path self), Str.last_index ch_dot (path self) with
  | Some slashpos, Some dotpos =>
      if slashpos <? dotpos then (true, mkPath (firstn dotpos (path self)))
      else (false, self)
  | _, _ => (false, self)
  end.
Proof.
  unfold elideSuffix, bind, query, ret, modify_path.
  destruct (isDirectory self); [reflexivity|].
  rewrite !rfind_size.
  destruct (Str.last_index ch_slash (path self)) as [s|];
    destruct (Str.last_index ch_dot (path self)) as [d|]; try reflexivity.
  destruct (s <? d); [|reflexivity].
  now rewrite erase_n_to_end.
Qed.

Lemma elideFile_eq (self : Path) :
  elideFile self =
  if isDirectory self then (false, self) else
  match Str.last_index ch_slash (path self) with
  | Some slashpos => (true, mkPath (firstn (slashpos + 1) (path self)))
  | None => (false, self)
  end.
Proof.
  unfold elideFile, bind, query, ret, modify_path, Str.erase.
  destruct (isDirectory self); [reflexivity|].
  rewrite rfind_size.
  now destruct (Str.last_index ch_slash (path self)).
Qed.

Lemma elideDirectory_eq (self : Path) :
  elideDirectory self =
  if isFile self then (false, self) else
  match Str.last_index ch_slash (path self) with
  | None => (false, self)
  | Some 0 => (false, self)
  | Some (S n) =>
      if S n =? Str.size (path self) - 1 then
        match Str.rfind (path self) ch_slash n with
        | None => (false, self)
        | Some slashpos => (true, mkPath (firstn slashpos (path self)))
        end
      else (true, mkPath (firstn (S n) (path self)))
  end.
Proof.
  unfold elideDirectory, bind, query, ret, modify_path, Str.erase.
  destruct (isFile self); [reflexivity|].
  rewrite rfind_size.
  destruct (Str.last_index ch_slash (path self)) as [[|n]|]; try reflexivity.
  destruct (S n =? Str.size (path self) - 1); [|reflexivity].
  replace (S n - 1) with n by lia.
  now destruct (Str.rfind (path self) ch_slash n).
Qed.

Lemma last_index_app_r (c : ascii) (a b : str) :
  Str.last_index c (a ++ b) =
  match Str.last_index c b with
  | Some j => Some (Str.size a + j)
  | None => Str.last_index c a
  end.
Proof.
  induction a as [|x r IH]; simpl.
  - now destruct (Str.last_index c b).
  - rewrite IH. now destruct (Str.last_index c b).
Qed.

Lemma firstn_size_app (a b : str) : firstn (Str.size a) (a ++ b) = a.
Proof.
  unfold Str.size. rewrite firstn_app, Nat.sub_diag, firstn_all. simpl.
  apply app_nil_r.
Qed.

Lemma isFile_not_isDirectory (p : Path) :
  isFile p = true -> isDirectory p = false.
Proof.
  unfold isFile, isDirectory. destruct (isValid p); [simpl|discriminate].
  now destruct (Ascii.eqb _ ch_slash).
Qed.

(* ================================================================= *)
(** ** elideSuffix *)


Lemma suffix_split_positions (s pre mid suf : str) :
  suffix_split s pre mid suf ->
  Str.last_index ch_slash s = Some (Str.size pre) /\
  Str.last_index ch_dot s = Some (Str.size (pre ++ ch_slash :: mid)).
Proof.
  intros (-> & Hm & Hs & Hd). split.
  - apply last_index_app. rewrite in_app_iff. simpl.
    intros [H|[H|H]]; [tauto | discriminate | tauto].
  - replace (pre ++ ch_slash :: mid ++ ch_dot :: suf)
      with ((pre ++ ch_slash :: mid) ++ ch_dot :: suf)
      by (now rewrite <- app_assoc).
    now apply last_index_app.
Qed.

Lemma positions_suffix_split (s : str) (slashpos dotpos : nat) :
  Str.last_index ch_slash s = Some slashpos ->
  Str.last_index ch_dot s = Some dotpos ->
  slashpos < dotpos ->
  exists pre mid suf, suffix_split s pre mid suf.
Proof.
  intros Hs Hd Hlt.
  destruct (last_index_split _ _ _ Hs) as [Es Ns].
  set (pre := firstn slashpos s) in *. set (tail := skipn (S slashpos) s) in *.
  assert (Hpre : Str.size pre = slashpos).
  { apply last_index_lt in Hs. unfold pre, Str.size in *.
    rewrite length_firstn. apply Nat.min_l. lia. }
  rewrite Es in Hd.
  change (pre ++ ch_slash :: tail) with (pre ++ [ch_slash] ++ tail) in Hd.
  rewrite app_assoc, last_index_app_r in Hd.
  destruct (Str.last_index ch_dot tail) as [j|] eqn:Ej.
  - destruct (last_index_split _ _ _ Ej) as [Et Nt].
    exists pre, (firstn j tail), (skipn (S j) tail). repeat split.
    + now rewrite <- Et.
    + intros H. apply Ns. rewrite Et. apply in_or_app. now left.
    + intros H. apply Ns. rewrite Et. apply in_or_app. right. now right.
    + exact Nt.
  - rewrite last_index_app_r in Hd. simpl in Hd.
    apply last_index_lt in Hd. lia.
Qed.

Lemma elideSuffix_on_split (p : Path) (pre mid suf : str) :
  isDirectory p = false ->
  suffix_split (path p) pre mid suf ->
  elideSuffix p = (true, mkPath (pre ++ ch_slash :: mid)).
Proof.
  intros Hd H. rewrite elideSuffix_eq, Hd.
  destruct (suffix_split_positions _ _ _ _ H) as [-> ->].
  destruct H as (E & _). rewrite E.
  replace (pre ++ ch_slash :: mid ++ ch_dot :: suf)
    with ((pre ++ ch_slash :: mid) ++ ch_dot :: suf)
    by (now rewrite <- app_assoc).
  rewrite firstn_size_app.
  unfold Str.size. rewrite length_app. simpl.
  destruct (Nat.ltb_spec (List.length pre) (List.length pre + S (List.length mid)));
    [reflexivity | lia].
Qed.

Lemma elideSuffix_without_split (p : Path) :
  (~ exists pre mid suf, suffix_split (path p) pre mid suf) ->
  elideSuffix p = (false, p).
Proof.
  intros Hno. rewrite elideSuffix_eq.
  destruct (isDirectory p); [reflexivity|].
  destruct (Str.last_index ch_slash (path p)) as [s|] eqn:Es; [|reflexivity].
  destruct (Str.last_index ch_dot (path p)) as [d|] eqn:Ed; [|reflexivity].
  destruct (Nat.ltb_spec s d); [|reflexivity].
  exfalso. apply Hno. eauto using positions_suffix_split.
Qed.

Lemma not_In_lit (c : ascii) (s : str) :
  existsb (Ascii.eqb c) s = false -> ~ In c s.
Proof.
  intros H Hin. assert (E : existsb (Ascii.eqb c) s = true).
  { apply existsb_exists. exists c. split; [exact Hin | apply Ascii.eqb_refl]. }
  congruence.
Qed.

(** C8. On a file-mode path [elideSuffix] removes exactly the text from the
    last dot lying after the last separator up to the end, returning true;
    when the path has no such dot it returns false and changes nothing.
    In particular it turns /a/b.c.txt into /a/b.c. *)
Theorem elideSuffix_removes_last_suffix (p : Path) :
  isFile p = true ->
  (forall pre mid suf, suffix_split (path p) pre mid suf ->
     elideSuffix p = (true, mkPath (pre ++ ch_slash :: mid))) /\
  ((~ exists pre mid suf, suffix_split (path p) pre mid suf) ->
     elideSuffix p = (false, p)) /\
  elideSuffix (mkPath (lit "/a/b.c.txt")) = (true, mkPath (lit "/a/b.c")).
Proof.
  intros Hf. apply isFile_not_isDirectory in Hf. split; [|split].
  - intros pre mid suf H. now apply elideSuffix_on_split with suf.
  - apply elideSuffix_without_split.
  - reflexivity.
Qed.

Lemma elideSuffix_removes_last_suffix_witness :
  isFile (mkPath (lit "/x.y/lib.foo.dll")) = true /\
  suffix_split (lit "/x.y/lib.foo.dll") (lit "/x.y") (lit "lib.foo") (lit "dll") /\
  elideSuffix (mkPath (lit "/x.y/lib.foo.dll")) = (true, mkPath (lit "/x.y/lib.foo")).
Proof.
  assert (Hs : suffix_split (lit "/x.y/lib.foo.dll") (lit "/x.y") (lit "lib.foo") (lit "dll")).
  { unfold suffix_split. repeat split; now apply not_In_lit. }
  split; [reflexivity|]. split; [exact Hs|].
  exact (proj1 (elideSuffix_removes_last_suffix (mkPath (lit "/x.y/lib.foo.dll")) eq_refl)
           (lit "/x.y") (lit "lib.foo") (lit "dll") Hs).
Defined.

(** C10. On a file-mode path that holds no separator at all, [elideSuffix]
    returns false and leaves the path as it was, whether or not the path
    holds a dot. *)
Theorem elideSuffix_without_separator (p : Path) :
  isFile p = true ->
  ~ In ch_slash (path p) ->
  elideSuffix p = (false, p).
Proof.
  intros Hf Hn. rewrite elideSuffix_eq, (isFile_not_isDirectory _ Hf).
  apply last_index_None in Hn. now rewrite Hn.
Qed.

Lemma elideSuffix_without_separator_witness :
  isFile (mkPath (lit "b.txt")) = true /\
  In ch_dot (lit "b.txt") /\
  elideSuffix (mkPath (lit "b.txt")) = (false, mkPath (lit "b.txt")).
Proof.
  split; [reflexivity|]. split; [right; now left|].
  apply elideSuffix_without_separator.
  - reflexivity.
  - now apply not_In_lit.
Defined.

(* ================================================================= *)
(** ** Validity across mutations *)


Ltac run_mutator :=
  cbv beta delta [setDirectory setFile appendDirectory appendFile appendSuffix
                  bind query ret set_path modify_path snapshot when] iota.

Lemma validating_mutator_outcome (op : M bool) (p : Path) :
  validating_mutator op -> commits_or_rolls_back p (op p).
Proof.
  unfold commits_or_rolls_back.
  destruct p as [s0]. intros [s|s|s|s|s]; run_mutator; cbn [path].
  - destruct (Str.size s =? 0); [now right|].
    destruct (_ && _); cbn iota;
      match goal with |- context [isValid ?c] => destruct (isValid c) eqn:E end;
      cbn; auto.
  - destruct (Str.size s =? 0); [now right|].
    match goal with |- context [isValid ?c] => destruct (isValid c) eqn:E end;
      cbn; auto.
  - destruct (isFile _); [now right|].
    match goal with |- context [isValid ?c] => destruct (isValid c) eqn:E end;
      cbn; auto.
  - destruct (isDirectory _); cbn; [|now right].
    match goal with |- context [isValid ?c] => destruct (isValid c) eqn:E end;
      cbn; auto.
  - destruct (isDirectory _); [now right|].
    match goal with |- context [isValid ?c] => destruct (isValid c) eqn:E end;
      cbn; auto.
Qed.

Lemma firstn_self (s : str) : s = firstn (Str.size s) s.
Proof. unfold Str.size. now rewrite firstn_all. Qed.

Ltac elide_outcome :=
  cbn [fst snd path];
  split;
  [ intros H; first [discriminate H | reflexivity]
  | eexists; first [reflexivity | apply firstn_self] ].

Lemma eliding_mutator_outcome (op : M bool) (p : Path) :
  eliding_mutator op -> truncates_or_keeps p (op p).
Proof.
  unfold truncates_or_keeps. intros [| |].
  - rewrite elideDirectory_eq.
    destruct (isFile p); [elide_outcome|].
    destruct (Str.last_index ch_slash (path p)) as [[|n]|]; try elide_outcome.
    destruct (_ =? _); [|elide_outcome].
    destruct (Str.rfind _ _ _); elide_outcome.
  - rewrite elideFile_eq.
    destruct (isDirectory p); [elide_outcome|].
    destruct (Str.last_index ch_slash (path p)); elide_outcome.
  - rewrite elideSuffix_eq.
    destruct (isDirectory p); [elide_outcome|].
    destruct (Str.last_index ch_slash (path p));
      destruct (Str.last_index ch_dot (path p)); try elide_outcome.
    destruct (_ <? _); elide_outcome.
Qed.

(** C1 (as amended). The set and append mutators either commit a string
    that satisfies [isValid], or restore the previous string and report
    failure; so they keep every observable Path empty or valid.  The elide
    mutators do not re-validate: they keep a prefix of the string, and the
    whole string when they report failure. *)
Theorem mutators_commit_or_roll_back (op : M bool) (p : Path) :
  (validating_mutator op ->
     commits_or_rolls_back p (op p) /\
     (observable_ok p -> observable_ok (snd (op p)))) /\
  (eliding_mutator op -> truncates_or_keeps p (op p)).
Proof.
  split.
  - intros Hop. pose proof (validating_mutator_outcome op p Hop) as H.
    split; [exact H|]. intros Hok.
    destruct H as [[_ Hv]|[_ ->]]; [now right | exact Hok].
  - apply eliding_mutator_outcome.
Qed.

Lemma mutators_commit_or_roll_back_witness :
  (commits_or_rolls_back (mkPath (lit "/a/"))
     (appendDirectory (lit "b.") (mkPath (lit "/a/"))) /\
   observable_ok (snd (appendDirectory (lit "b.") (mkPath (lit "/a/"))))) /\
  truncates_or_keeps (mkPath (lit "/a/b.c")) (elideSuffix (mkPath (lit "/a/b.c"))).
Proof.
  split.
  - destruct (proj1 (mutators_commit_or_roll_back (appendDirectory (lit "b."))
                       (mkPath (lit "/a/")))
                (vm_appendDirectory (lit "b."))) as [H1 H2].
    split; [exact H1|]. apply H2. right. reflexivity.
  - exact (proj2 (mutators_commit_or_roll_back elideSuffix (mkPath (lit "/a/b.c")))
             em_elideSuffix).
Defined.

(** C1 fails as stated for the elide mutators: each of them turns a valid
    path into a string that is neither valid nor the previous one, and
    reports success. *)
Lemma elide_commits_invalid_string :
  (isValid (mkPath (lit "/a/b .txt")) = true /\
   elideSuffix (mkPath (lit "/a/b .txt")) = (true, mkPath (lit "/a/b ")) /\
   isValid (mkPath (lit "/a/b ")) = false) /\
  (isValid (mkPath (lit "/a /b")) = true /\
   elideFile (mkPath (lit "/a /b")) = (true, mkPath (lit "/a /")) /\
   isValid (mkPath (lit "/a /")) = false) /\
  (isValid (mkPath (lit "/a /b/")) = true /\
   elideDirectory (mkPath (lit "/a /b/")) = (true, mkPath (lit "/a ")) /\
   isValid (mkPath (lit "/a ")) = false).
Proof. repeat split. Qed.

(* ================================================================= *)
(** ** setDirectory *)

Lemma at_size_pred_last (s : str) : Str.at_ s (Str.size s - 1) = last s zero.
Proof.
  destruct s as [|x r]; [reflexivity|].
  assert (Hne : x :: r <> []) by discriminate.
  destruct (exists_last Hne) as [q [y ->]].
  now rewrite at_last, last_last.
Qed.

Lemma Path_eta (p : Path) : mkPath (path p) = p.
Proof. now destruct p. Qed.

Lemma path_inj (a b : Path) : path a = path b -> a = b.
Proof. destruct a, b. cbn [path]. now intros ->. Qed.

Lemma setDirectory_eq (s : str) (p : Path) :
  setDirectory s p =
  if Str.empty s then (false, p)
  else if isValid (mkPath (setDirectory_candidate s))
       then (true, mkPath (setDirectory_candidate s))
       else (false, p).
Proof.
  unfold setDirectory, setDirectory_candidate.
  destruct s as [|x r]; [reflexivity|].
  set (s := x :: r). cbn [Str.empty].
  replace (Str.size s =? 0) with false by reflexivity.
  run_mutator. cbn [path].
  rewrite at_size_pred_last.
  replace (negb (Str.size s - 1 =? 0)) with (1 <? Str.size s).
  2:{ unfold s, Str.size. simpl. now destruct r. }
  change (Str.empty s) with false. cbv iota.
  destruct (_ && _); run_mutator; cbn [path]; rewrite ?app_nil_r;
    destruct (isValid _); cbn [negb]; cbv beta iota;
    now rewrite ?Path_eta.
Qed.

(** C3 (as amended). [setDirectory(s)] rejects the empty string.  Otherwise
    it offers to [isValid] the string [s] with backslashes turned into
    separators, with one separator appended exactly when [s] has more than
    one character and does not, as supplied, end in the separator; if that
    string is valid it is committed and success reported, if not the
    previous value is kept and failure reported. *)
Theorem setDirectory_behaviour (s : str) (p : Path) :
  (s = [] -> setDirectory s p = (false, p)) /\
  (s <> [] -> isValid (mkPath (setDirectory_candidate s)) = true ->
     setDirectory s p = (true, mkPath (setDirectory_candidate s))) /\
  (s <> [] -> isValid (mkPath (setDirectory_candidate s)) = false ->
     setDirectory s p = (false, p)) /\
  ~ In ch_backslash (setDirectory_candidate s) /\
  (forall q x, s = q ++ [x] -> q <> [] -> x <> ch_slash ->
     setDirectory_candidate s = FlipBackSlashes s ++ [ch_slash]) /\
  (forall q, s = q ++ [ch_slash] ->
     setDirectory_candidate s = FlipBackSlashes s) /\
  (forall x, s = [x] -> setDirectory_candidate s = FlipBackSlashes s).
Proof.
  rewrite setDirectory_eq. repeat split.
  - now intros ->.
  - intros Hne Hv. rewrite Hv. now destruct s.
  - intros Hne Hv. rewrite Hv. now destruct s.
  - unfold setDirectory_candidate. rewrite in_app_iff.
    intros [H|H]; [now apply FlipBackSlashes_clean in H|].
    destruct (_ && _); simpl in H; [|tauto].
    destruct H as [H|[]]. discriminate H.
  - intros q x -> Hq Hx. unfold setDirectory_candidate.
    rewrite last_last. apply Ascii.eqb_neq in Hx. rewrite Hx.
    unfold Str.size. rewrite length_app. simpl.
    destruct q; [congruence|]. simpl.
    now replace (List.length q + 1) with (S (List.length q)) by lia.
  - intros q ->. unfold setDirectory_candidate.
    rewrite last_last, Ascii.eqb_refl, andb_false_r. apply app_nil_r.
  - intros x ->. unfold setDirectory_candidate.
    change (1 <? Str.size [x]) with false. apply app_nil_r.
Qed.

Lemma setDirectory_behaviour_witness :
  setDirectory [] (mkPath (lit "/a/")) = (false, mkPath (lit "/a/")) /\
  setDirectory (lit "C:\foo") (mkPath (lit "/a/")) = (true, mkPath (lit "C:/foo/")) /\
  setDirectory (lit "foo.") (mkPath (lit "/a/")) = (false, mkPath (lit "/a/")) /\
  setDirectory_candidate (lit "/usr/lib/") = lit "/usr/lib/".
Proof.
  split; [|split; [|split]].
  - now apply (proj1 (setDirectory_behaviour [] (mkPath (lit "/a/")))).
  - apply (proj1 (proj2 (setDirectory_behaviour (lit "C:\foo") (mkPath (lit "/a/")))));
      [discriminate | reflexivity].
  - apply (proj1 (proj2 (proj2 (setDirectory_behaviour (lit "foo.") (mkPath (lit "/a/"))))));
      [discriminate | reflexivity].
  - exact (proj1 (proj2 (proj2 (proj2 (proj2 (proj2
             (setDirectory_behaviour (lit "/usr/lib/") Path_default))))))
             (lit "/usr/lib") eq_refl).
Defined.

(** C3 fails as stated: for the one-character name [a] the described
    string [a/] is valid, yet [setDirectory] commits [a] with no separator
    appended; and for [/a/], which is not the root, no separator is
    appended either. *)
Lemma setDirectory_not_as_described :
  (isValid (mkPath (setDirectory_described (lit "a"))) = true /\
   setDirectory (lit "a") Path_default = (true, mkPath (lit "a")) /\
   mkPath (lit "a") <> mkPath (setDirectory_described (lit "a"))) /\
  (isValid (mkPath (setDirectory_described (lit "/a/"))) = true /\
   setDirectory (lit "/a/") Path_default = (true, mkPath (lit "/a/")) /\
   mkPath (lit "/a/") <> mkPath (setDirectory_described (lit "/a/"))).
Proof. repeat split; discriminate. Qed.

(* ================================================================= *)
(** ** Construction *)

(** C5 (as amended). Constructing a Path from a non-empty string validates
    the string immediately, after normalising its separators: if the
    normalised string is valid it is stored, and otherwise the stored
    string is cleared and an error naming the supplied string is thrown.
    An empty string is not validated: it gives an empty Path and no
    error. *)
Theorem Path_ctor_behaviour (s : str) :
  (s = [] -> Path_ctor s = Constructed (mkPath [])) /\
  (s <> [] -> isValid (mkPath (FlipBackSlashes s)) = true ->
     Path_ctor s = Constructed (mkPath (FlipBackSlashes s))) /\
  (s <> [] -> isValid (mkPath (FlipBackSlashes s)) = false ->
     Path_ctor s = Thrown (mkPath []) (s ++ lit ": path is not valid")).
Proof.
  unfold Path_ctor, modify_path, clear, set_path. cbn [snd path].
  repeat split.
  - now intros ->.
  - intros Hne Hv. rewrite Hv. now destruct s.
  - intros Hne Hv. rewrite Hv. now destruct s.
Qed.

Lemma Path_ctor_behaviour_witness :
  Path_ctor [] = Constructed (mkPath []) /\
  Path_ctor (lit "C:\dir\f.txt") = Constructed (mkPath (lit "C:/dir/f.txt")) /\
  Path_ctor (lit "a<b") = Thrown (mkPath []) (lit "a<b: path is not valid").
Proof.
  split; [|split].
  - now apply (proj1 (Path_ctor_behaviour [])).
  - apply (proj1 (proj2 (Path_ctor_behaviour (lit "C:\dir\f.txt"))));
      [discriminate | reflexivity].
  - apply (proj2 (proj2 (Path_ctor_behaviour (lit "a<b"))));
      [discriminate | reflexivity].
Defined.

(** C5 fails as stated on the empty string: it does not satisfy [isValid],
    yet the constructor returns normally, throwing nothing. *)
Lemma Path_ctor_empty_not_validated :
  isValid (mkPath []) = false /\
  Path_ctor [] = Constructed (mkPath []).
Proof. split; reflexivity. Qed.

(* ================================================================= *)
(** ** The append operations, unfolded *)

Lemma bind_run {A B} (m : M A) (k : A -> M B) (p : Path) :
  bind m k p = k (fst (m p)) (snd (m p)).
Proof. unfold bind. now destruct (m p). Qed.

Lemma appendFile_eq (file : str) (self : Path) :
  appendFile file self =
  if isDirectory self
  then if isValid (mkPath (path self ++ file))
       then (true, mkPath (path self ++ file))
       else (false, self)
  else (false, self).
Proof.
  run_mutator. destruct (isDirectory self); [|reflexivity].
  cbn [negb path]. cbv iota.
  destruct (isValid _); cbn [negb]; cbv beta iota; now rewrite ?Path_eta.
Qed.

Lemma appendSuffix_eq (suffix : str) (self : Path) :
  appendSuffix suffix self =
  if isDirectory self then (false, self)
  else if isValid (mkPath (path self ++ ch_dot :: suffix))
       then (true, mkPath (path self ++ ch_dot :: suffix))
       else (false, self).
Proof.
  run_mutator. destruct (isDirectory self); [reflexivity|].
  cbn [path]. rewrite <- app_assoc. change (lit "." ++ suffix) with (ch_dot :: suffix).
  destruct (isValid _); cbn [negb]; cbv beta iota; now rewrite ?Path_eta.
Qed.

Lemma appendDirectory_eq (dir : str) (self : Path) :
  appendDirectory dir self =
  if isFile self then (false, self)
  else if isValid (mkPath (path self ++ dir ++ [ch_slash]))
       then (true, mkPath (path self ++ dir ++ [ch_slash]))
       else (false, self).
Proof.
  run_mutator. destruct (isFile self); [reflexivity|].
  cbn [path]. rewrite <- app_assoc. change (lit "/") with [ch_slash].
  destruct (isValid _); cbn [negb]; cbv beta iota; now rewrite ?Path_eta.
Qed.

(* ================================================================= *)
(** ** Building a file name under a directory and taking it apart *)

Section UnderDirectory.

(** The directory string is [q] followed by its trailing separator. *)
Variable q : str.

Lemma under_slashpos (r : Path) :
  under q r -> Str.last_index ch_slash (path r) = Some (Str.size q).
Proof.
  intros (t & -> & Ht). now apply last_index_app.
Qed.

Lemma under_extend (r : Path) (t' : str) :
  under q r -> ~ In ch_slash t' -> under q (mkPath (path r ++ t')).
Proof.
  intros (t & E & Ht) Ht'. exists (t ++ t'). cbn [path]. split.
  - rewrite E, <- app_assoc. reflexivity.
  - rewrite in_app_iff. tauto.
Qed.

Lemma under_appendFile (n : str) (r : Path) :
  under q r -> ~ In ch_slash n -> under q (snd (appendFile n r)).
Proof.
  intros Hr Hn. rewrite appendFile_eq.
  destruct (isDirectory r); [|exact Hr].
  destruct (isValid _); [|exact Hr].
  now apply under_extend.
Qed.

Lemma under_appendSuffix (x : str) (r : Path) :
  under q r -> ~ In ch_slash x -> under q (snd (appendSuffix x r)).
Proof.
  intros Hr Hx. rewrite appendSuffix_eq.
  destruct (isDirectory r); [exact Hr|].
  destruct (isValid _); [|exact Hr].
  apply under_extend; [exact Hr|].
  intros [H|H]; [discriminate H | tauto].
Qed.

Lemma under_firstn (r : Path) (d : nat) :
  under q r -> Str.size q < d -> under q (mkPath (firstn d (path r))).
Proof.
  intros (t & E & Ht) Hd. exists (firstn (d - S (Str.size q)) t).
  cbn [path]. split.
  - rewrite E.
    change (q ++ ch_slash :: t) with (q ++ [ch_slash] ++ t).
    rewrite app_assoc, firstn_app, firstn_all2, <- app_assoc.
    + unfold Str.size. rewrite length_app. simpl.
      now replace (d - (List.length q + 1)) with (d - S (List.length q)) by lia.
    + unfold Str.size in Hd. rewrite length_app. simpl. lia.
  - intros H. apply Ht. rewrite <- (firstn_skipn (d - S (Str.size q)) t).
    apply in_or_app. now left.
Qed.

Lemma under_elideSuffix (r : Path) :
  under q r -> under q (snd (elideSuffix r)).
Proof.
  intros Hr. rewrite elideSuffix_eq.
  destruct (isDirectory r); [exact Hr|].
  rewrite (under_slashpos r Hr).
  destruct (Str.last_index ch_dot (path r)) as [d|]; [|exact Hr].
  destruct (Nat.ltb_spec (Str.size q) d); [|exact Hr].
  now apply under_firstn.
Qed.

Lemma under_isDirectory (r : Path) :
  under q r -> isDirectory r = true -> path r = q ++ [ch_slash].
Proof.
  intros (t & E & Ht) Hd. apply isDirectory_inv in Hd as [_ [q' Hq']].
  destruct t as [|y t'] using rev_ind; [exact E|].
  exfalso. apply Ht. rewrite E in Hq'.
  change (q ++ ch_slash :: t' ++ [y]) with (q ++ (ch_slash :: t') ++ [y]) in Hq'.
  rewrite app_assoc in Hq'. apply app_inj_tail in Hq' as [_ ->].
  apply in_or_app. right. now left.
Qed.

Lemma under_elideFile (r : Path) :
  under q r -> path (snd (elideFile r)) = q ++ [ch_slash].
Proof.
  intros Hr. rewrite elideFile_eq.
  destruct (isDirectory r) eqn:Hd; [now apply under_isDirectory|].
  rewrite (under_slashpos r Hr). cbn [snd path].
  destruct Hr as (t & -> & _).
  change (q ++ ch_slash :: t) with (q ++ [ch_slash] ++ t).
  rewrite app_assoc.
  replace (Str.size q + 1) with (Str.size (q ++ [ch_slash])).
  - apply firstn_size_app.
  - unfold Str.size. now rewrite length_app.
Qed.

End UnderDirectory.

Lemma appendFile_success (n : str) (p f : Path) :
  appendFile n p = (true, f) ->
  isDirectory p = true /\ f = mkPath (path p ++ n) /\ isValid f = true.
Proof.
  rewrite appendFile_eq. destruct (isDirectory p); [|discriminate].
  destruct (isValid _) eqn:Hv; [|discriminate].
  intros E. injection E as <-. auto.
Qed.

Lemma appendSuffix_success (x : str) (f g : Path) :
  appendSuffix x f = (true, g) ->
  isDirectory f = false /\ g = mkPath (path f ++ ch_dot :: x) /\ isValid g = true.
Proof.
  rewrite appendSuffix_eq. destruct (isDirectory f); [discriminate|].
  destruct (isValid _) eqn:Hv; [|discriminate].
  intros E. injection E as <-. auto.
Qed.

Lemma not_isDirectory_tail (g : Path) (a t : str) :
  path g = a ++ t -> t <> [] -> ~ In ch_slash t -> isDirectory g = false.
Proof.
  intros E Hne Ht. destruct (exists_last Hne) as [t' [y ->]].
  apply not_isDirectory_no_trailing_slash with (q := a ++ t') (x := y).
  - now rewrite E, app_assoc.
  - intros ->. apply Ht. apply in_or_app. right. now left.
Qed.

(** C7 (as amended). Starting from a directory-mode path [p], appending a
    file name [n] and then a suffix [x], neither of which holds a separator,
    and then eliding the suffix and the file, gives back a path equal to
    [p]; this needs no assumption on dots in [n], so it covers every file
    path that has no suffix of its own.  Step by step: [elideFile] undoes a
    successful [appendFile], and [elideSuffix] undoes a successful
    [appendSuffix] of a suffix that holds no dot. *)
Theorem append_elide_file_suffix_round_trip (p : Path) (n x : str) :
  isDirectory p = true ->
  ~ In ch_slash n ->
  ~ In ch_slash x ->
  snd ((appendFile n ;; appendSuffix x ;; elideSuffix ;; elideFile) p) = p /\
  (forall f, appendFile n p = (true, f) -> snd (elideFile f) = p) /\
  (forall f g, appendFile n p = (true, f) -> appendSuffix x f = (true, g) ->
     ~ In ch_dot x -> elideSuffix g = (true, f)).
Proof.
  intros Hd Hn Hx.
  destruct (isDirectory_inv p Hd) as [_ [q Hq]].
  assert (H0 : under q p) by (exists []; now rewrite Hq).
  pose proof (under_appendFile q n p H0 Hn) as H1.
  split; [|split].
  - rewrite !bind_run.
    pose proof (under_appendSuffix q x _ H1 Hx) as H2.
    pose proof (under_elideSuffix q _ H2) as H3.
    pose proof (under_elideFile q _ H3) as H4.
    rewrite <- Hq in H4. now apply path_inj.
  - intros f Hf. rewrite Hf in H1. cbn [snd] in H1.
    apply path_inj. rewrite Hq. now apply under_elideFile.
  - intros f g Hf Hg Hdot.
    apply appendFile_success in Hf as (_ & -> & _).
    apply appendSuffix_success in Hg as (_ & -> & _).
    cbn [path]. rewrite Hq.
    assert (E : (q ++ [ch_slash]) ++ n = q ++ ch_slash :: n)
      by (now rewrite <- app_assoc).
    rewrite E. apply elideSuffix_on_split with (suf := x).
    + apply not_isDirectory_tail with (a := q ++ ch_slash :: n) (t := ch_dot :: x);
        [reflexivity | discriminate |].
      intros [H|H]; [discriminate H | tauto].
    + unfold suffix_split. cbn [path]. rewrite <- app_assoc. tauto.
Qed.

Lemma append_elide_file_suffix_round_trip_witness :
  isDirectory (mkPath (lit "/usr/lib/")) = true /\
  snd ((appendFile (lit "libfoo") ;; appendSuffix (lit "dll") ;;
        elideSuffix ;; elideFile) (mkPath (lit "/usr/lib/")))
  = mkPath (lit "/usr/lib/") /\
  snd (elideFile (mkPath (lit "/usr/lib/libfoo"))) = mkPath (lit "/usr/lib/") /\
  elideSuffix (mkPath (lit "/usr/lib/libfoo.dll")) = (true, mkPath (lit "/usr/lib/libfoo")).
Proof.
  split; [reflexivity|].
  destruct (append_elide_file_suffix_round_trip
              (mkPath (lit "/usr/lib/")) (lit "libfoo") (lit "dll"))
    as (H1 & H2 & H3).
  - reflexivity.
  - now apply not_In_lit.
  - now apply not_In_lit.
  - split; [exact H1|]. split.
    + now apply H2.
    + apply H3; [reflexivity | reflexivity | now apply not_In_lit].
Defined.

(** C7 fails as stated: nothing keeps a separator out of the names.  On
    [/a/] the name [b/c], which has no suffix, is accepted by [appendFile];
    after [appendSuffix] and [elideSuffix] the path is [/a/b/c] again, and
    [elideFile] cuts it after its last separator, leaving [/a/b/] and not
    [/a/].  A suffix can hold a separator or a dot as well: after
    [appendSuffix] of [tar.gz], [elideSuffix] removes [.gz] only. *)
Lemma append_elide_round_trip_fails_with_separator :
  isDirectory (mkPath (lit "/a/")) = true /\
  ~ In ch_dot (lit "b/c") /\
  appendFile (lit "b/c") (mkPath (lit "/a/")) = (true, mkPath (lit "/a/b/c")) /\
  appendSuffix (lit "x") (mkPath (lit "/a/b/c")) = (true, mkPath (lit "/a/b/c.x")) /\
  elideSuffix (mkPath (lit "/a/b/c.x")) = (true, mkPath (lit "/a/b/c")) /\
  elideFile (mkPath (lit "/a/b/c")) = (true, mkPath (lit "/a/b/")) /\
  snd ((appendFile (lit "b/c") ;; appendSuffix (lit "x") ;;
        elideSuffix ;; elideFile) (mkPath (lit "/a/")))
  = mkPath (lit "/a/b/") /\
  mkPath (lit "/a/b/") <> mkPath (lit "/a/") /\
  appendSuffix (lit "tar.gz") (mkPath (lit "/a/f")) = (true, mkPath (lit "/a/f.tar.gz")) /\
  elideSuffix (mkPath (lit "/a/f.tar.gz")) = (true, mkPath (lit "/a/f.tar")) /\
  mkPath (lit "/a/f.tar") <> mkPath (lit "/a/f").
Proof.
  repeat split; try reflexivity; try discriminate.
  now apply not_In_lit.
Qed.

(* ================================================================= *)
(** ** appendDirectory followed by elideDirectory *)

Lemma isDirectory_not_isFile (p : Path) :
  isDirectory p = true -> isFile p = false.
Proof.
  unfold isFile, isDirectory. destruct (isValid p); [simpl|discriminate].
  now intros ->.
Qed.

(** What the code does on every directory-mode path: the elide that follows
    a successful append stops at the path's own trailing separator and
    erases it as well. *)
Lemma appendDirectory_elideDirectory_general (p : Path) (q n : str) :
  isValid p = true ->
  path p = q ++ [ch_slash] ->
  ~ In ch_slash n ->
  fst (appendDirectory n p) = true ->
  (appendDirectory n ;; elideDirectory) p = (true, mkPath q).
Proof.
  intros Hv Hq Hn Hok. rewrite bind_run. revert Hok.
  rewrite appendDirectory_eq.
  rewrite (isDirectory_not_isFile p (isDirectory_intro p q Hv Hq)).
  destruct (isValid (mkPath (path p ++ n ++ [ch_slash]))) eqn:Hv1;
    [intros _ | discriminate].
  cbn [fst snd]. rewrite Hq in *.
  set (p1 := mkPath ((q ++ [ch_slash]) ++ n ++ [ch_slash])) in *.
  assert (E1 : path p1 = (q ++ ch_slash :: n) ++ [ch_slash]).
  { unfold p1. cbn [path]. rewrite <- !app_assoc. reflexivity. }
  rewrite elideDirectory_eq.
  rewrite (isDirectory_not_isFile p1 (isDirectory_intro p1 _ Hv1 E1)).
  assert (Epos : Str.last_index ch_slash (path p1) = Some (Str.size (q ++ ch_slash :: n))).
  { rewrite E1. apply last_index_app. tauto. }
  rewrite Epos.
  assert (Esz : Str.size (q ++ ch_slash :: n) = S (Str.size q + Str.size n)).
  { unfold Str.size. rewrite length_app. simpl. lia. }
  rewrite Esz.
  assert (Elen : Str.size (path p1) - 1 = S (Str.size q + Str.size n)).
  { rewrite E1. unfold Str.size in *. rewrite length_app, Esz. simpl. lia. }
  rewrite Elen, Nat.eqb_refl.
  unfold Str.rfind. rewrite <- Esz, E1, firstn_size_app.
  rewrite (last_index_app ch_slash q n Hn).
  rewrite <- app_assoc. change ((ch_slash :: n) ++ [ch_slash]) with (ch_slash :: n ++ [ch_slash]).
  now rewrite firstn_size_app.
Qed.

(** C2, evaluated. On the directory [/a/], appending [b] and eliding gives
    [/a], a file-mode path that differs from [/a/]; on the root it gives
    the empty string. *)
Theorem appendDirectory_elideDirectory_loses_separator :
  isDirectory (mkPath (lit "/a/")) = true /\
  (appendDirectory (lit "b") ;; elideDirectory) (mkPath (lit "/a/"))
    = (true, mkPath (lit "/a")) /\
  mkPath (lit "/a") <> mkPath (lit "/a/") /\
  isFile (mkPath (lit "/a")) = true /\
  (appendDirectory (lit "b") ;; elideDirectory) (mkPath (lit "/"))
    = (true, mkPath []).
Proof. repeat split. discriminate. Qed.

(* ================================================================= *)
(** ** Library search *)

Lemma setDirectory_candidate_tail (s : str) :
  s <> [] ->
  (exists q, setDirectory_candidate s = q ++ [ch_slash]) \/
  (exists x, setDirectory_candidate s = [x] /\ x <> ch_slash).
Proof.
  intros Hne. unfold setDirectory_candidate.
  destruct (exists_last Hne) as [q [y ->]]. rewrite last_last.
  unfold Str.size. rewrite length_app. cbn [List.length].
  destruct (Ascii.eqb_spec y ch_slash) as [->|Hy].
  - left. rewrite andb_false_r, app_nil_r. unfold FlipBackSlashes.
    rewrite map_app. cbn. now eexists.
  - destruct q as [|z q'].
    + cbn. destruct (Ascii.eqb_spec y ch_backslash) as [->|Hb].
      * left. now exists [].
      * right. now eexists.
    + left. cbn [List.length]. replace (1 <? S (List.length q') + 1) with true.
      * cbn [andb negb]. now eexists.
      * symmetry. apply Nat.ltb_lt. lia.
Qed.

(** After a successful [setDirectory], [elideFile] has nothing to do. *)
Lemma elideFile_after_setDirectory (s : str) (p0 : Path) :
  fst (setDirectory s p0) = true ->
  elideFile (snd (setDirectory s p0)) = (false, snd (setDirectory s p0)).
Proof.
  rewrite setDirectory_eq. destruct s as [|c r]; [discriminate|].
  cbn [Str.empty].
  destruct (isValid (mkPath (setDirectory_candidate (c :: r)))) eqn:Hv;
    [intros _ | discriminate].
  cbn [snd]. rewrite elideFile_eq.
  destruct (setDirectory_candidate_tail (c :: r)) as [[q Hq]|[x [Hx Hne]]];
    [discriminate | |].
  - now rewrite (isDirectory_intro (mkPath _) q Hv Hq).
  - destruct (isDirectory _); [reflexivity|]. cbn [path]. rewrite Hx. cbn.
    apply Ascii.eqb_neq in Hne. now rewrite Hne.
Qed.

(** In [GetLibraryPath] the branch of [IsLibrary] that probes the bare
    name is never reached: when the name with the [lib] prefix cannot be
    appended, [elideFile] fails on the directory just set, and the search in
    this directory is over. *)
Lemma IsLibrary_bare_name_unreached
    (fs : str -> option nat) (basename s : str) (p0 : Path) :
  fst (setDirectory s p0) = true ->
  fst (appendFile (lit "lib" ++ basename) (snd (setDirectory s p0))) = false ->
  IsLibrary fs basename (snd (setDirectory s p0)) = (false, mkPath []).
Proof.
  intros Hset Happ. pose proof (elideFile_after_setDirectory s p0 Hset) as He.
  set (self := snd (setDirectory s p0)) in *.
  assert (Ha : appendFile (lit "lib" ++ basename) self = (false, self)).
  { revert Happ. rewrite appendFile_eq.
    destruct (isDirectory self); [|reflexivity].
    destruct (isValid _); [discriminate | reflexivity]. }
  unfold IsLibrary, ifM, andM. rewrite !bind_run, Ha. cbn [fst snd].
  rewrite !bind_run, He. reflexivity.
Qed.

(** C4, evaluated. With [/x/foo.dll] the only file present, the search for
    [foo] in [/x/] returns the empty Path although the bare candidate
    exists and is readable; the candidates with the [lib] prefix are found
    as described ([/x/libfoo.a], after [/x/libfoo.dll] is rejected), and a
    later directory is reached when an earlier one has no match. *)
Theorem GetLibraryPath_never_finds_bare_name :
  readable (only_file (lit "/x/foo.dll")) (mkPath (lit "/x/foo.dll")) = true /\
  GetLibraryPath (only_file (lit "/x/foo.dll")) (lit "foo") [lit "/x/"]
    = mkPath [] /\
  readable (only_file (lit "/x/libfoo.a")) (mkPath (lit "/x/libfoo.dll")) = false /\
  GetLibraryPath (only_file (lit "/x/libfoo.a")) (lit "foo") [lit "/x/"]
    = mkPath (lit "/x/libfoo.a") /\
  GetLibraryPath (only_file (lit "/lib/libfoo.bc")) (lit "foo") [lit "/x/"]
    = mkPath (lit "/lib/libfoo.bc").
Proof. repeat split. Qed.

(* ================================================================= *)
(** ** isBytecodeFile *)

(** C9 (as amended). When four bytes are read, [isBytecodeFile] returns
    true exactly when they are [llvc] or [llvm], from a plain file and from
    a device that fails later alike.  It reports an I/O error exactly when
    the stream is [bad()] after the read, that is when the device fails
    before four bytes have arrived, and in no other case: when the file
    cannot be opened, is empty, or ends before four bytes, the read fails
    with [failbit] alone and nothing is reported; the answer is false for a
    file that cannot be opened or is empty, and for a file of one to three
    bytes it is the comparison of those bytes followed by what [buffer]
    held before. *)
Theorem isBytecodeFile_behaviour
    (open : str -> file_source) (u1 u2 u3 : ascii) (self : Path) :
  (forall bytes,
     open (c_str (path self)) = Contents bytes -> 4 <= Str.size bytes ->
     isBytecodeFile open u1 u2 u3 self =
     Returns (Str.eqb (firstn 4 bytes) (lit "llvc")
              || Str.eqb (firstn 4 bytes) (lit "llvm"))) /\
  (forall bytes,
     open (c_str (path self)) = DeviceError bytes -> Str.size bytes < 4 ->
     isBytecodeFile open u1 u2 u3 self = Throws (lit "can't read file signature")) /\
  (open (c_str (path self)) = CannotOpen ->
     failbit (fst (ifstream_read (ifstream_open CannotOpen) [zero; u1; u2; u3] 4)) = true /\
     isBytecodeFile open u1 u2 u3 self = Returns false) /\
  (open (c_str (path self)) = Contents [] ->
     failbit (fst (ifstream_read (ifstream_open (Contents [])) [zero; u1; u2; u3] 4)) = true /\
     isBytecodeFile open u1 u2 u3 self = Returns false) /\
  (forall bytes,
     open (c_str (path self)) = Contents bytes -> Str.size bytes < 4 ->
     failbit (fst (ifstream_read (ifstream_open (Contents bytes)) [zero; u1; u2; u3] 4)) = true /\
     bad (fst (ifstream_read (ifstream_open (Contents bytes)) [zero; u1; u2; u3] 4)) = false /\
     isBytecodeFile open u1 u2 u3 self =
     Returns (Str.eqb (bytes ++ skipn (Str.size bytes) [zero; u1; u2; u3]) (lit "llvc")
              || Str.eqb (bytes ++ skipn (Str.size bytes) [zero; u1; u2; u3]) (lit "llvm"))) /\
  (forall bytes,
     open (c_str (path self)) = DeviceError bytes -> 4 <= Str.size bytes ->
     isBytecodeFile open u1 u2 u3 self =
     Returns (Str.eqb (firstn 4 bytes) (lit "llvc")
              || Str.eqb (firstn 4 bytes) (lit "llvm"))) /\
  (forall what,
     isBytecodeFile open u1 u2 u3 self = Throws what <->
     what = lit "can't read file signature" /\
     bad (fst (ifstream_read (ifstream_open (open (c_str (path self))))
                 [zero; u1; u2; u3] 4)) = true) /\
  (bad (fst (ifstream_read (ifstream_open (open (c_str (path self))))
               [zero; u1; u2; u3] 4)) = true <->
   exists bytes, open (c_str (path self)) = DeviceError bytes /\ Str.size bytes < 4).
Proof.
  unfold isBytecodeFile.
  split; [|split; [|split; [|split; [|split; [|split; [|split]]]]]].
  - intros bytes -> Hlen.
    destruct bytes as [|a [|b [|c [|d r]]]]; cbn in Hlen; try lia.
    reflexivity.
  - intros bytes -> Hlen.
    destruct bytes as [|a [|b [|c [|d r]]]]; cbn in Hlen; try lia; reflexivity.
  - intros H. rewrite H. split; reflexivity.
  - intros H. rewrite H. split; reflexivity.
  - intros bytes -> Hlen.
    destruct bytes as [|a [|b [|c [|d r]]]]; cbn in Hlen; try lia;
      repeat split.
  - intros bytes -> Hlen.
    destruct bytes as [|a [|b [|c [|d r]]]]; cbn in Hlen; try lia.
    reflexivity.
  - intros what.
    destruct (ifstream_read (ifstream_open (open (c_str (path self))))
                [zero; u1; u2; u3] 4) as [f buffer].
    cbn [fst]. unfold ThrowErrno. destruct (bad f).
    + split.
      * intros E. injection E as <-. now split.
      * intros [-> _]. reflexivity.
    + split; [discriminate | intros [_ E]; discriminate E].
  - destruct (open (c_str (path self))) as [|bytes|bytes].
    + split; [discriminate | intros (b & E & _); discriminate E].
    + split; [|intros (b & E & _); discriminate E].
      destruct bytes as [|a [|b [|c [|d r]]]]; discriminate.
    + split.
      * intros H. exists bytes. split; [reflexivity|].
        destruct bytes as [|a [|b [|c [|d r]]]]; cbn; try lia.
        discriminate H.
      * intros (b & E & Hlen). injection E as <-.
        destruct bytes as [|a [|b [|c [|d r]]]]; cbn in Hlen; try lia; reflexivity.
Qed.

Lemma isBytecodeFile_behaviour_witness :
  isBytecodeFile (fun _ => Contents (lit "llvm....")) zero zero zero (mkPath (lit "/a/f.bc"))
    = Returns true /\
  isBytecodeFile (fun _ => Contents (lit "!<arch>")) zero zero zero (mkPath (lit "/a/f.a"))
    = Returns false /\
  isBytecodeFile (fun _ => DeviceError (lit "ll")) zero zero zero (mkPath (lit "/a/f.bc"))
    = Throws (lit "can't read file signature") /\
  isBytecodeFile (fun _ => CannotOpen) zero zero zero (mkPath (lit "/a/none"))
    = Returns false /\
  isBytecodeFile (fun _ => Contents (lit "ll")) zero zero zero (mkPath (lit "/a/f.bc"))
    = Returns false /\
  isBytecodeFile (fun _ => DeviceError (lit "llvc..")) zero zero zero (mkPath (lit "/a/f.bc"))
    = Returns true.
Proof.
  split; [|split; [|split; [|split; [|split]]]].
  - apply (proj1 (isBytecodeFile_behaviour
                    (fun _ => Contents (lit "llvm....")) zero zero zero
                    (mkPath (lit "/a/f.bc"))) (lit "llvm....") eq_refl).
    cbv. lia.
  - apply (proj1 (isBytecodeFile_behaviour
                    (fun _ => Contents (lit "!<arch>")) zero zero zero
                    (mkPath (lit "/a/f.a"))) (lit "!<arch>") eq_refl).
    cbv. lia.
  - apply (proj1 (proj2 (isBytecodeFile_behaviour
                    (fun _ => DeviceError (lit "ll")) zero zero zero
                    (mkPath (lit "/a/f.bc")))) (lit "ll") eq_refl).
    cbv. lia.
  - apply (proj1 (proj2 (proj2 (isBytecodeFile_behaviour
                    (fun _ => CannotOpen) zero zero zero
                    (mkPath (lit "/a/none"))))) eq_refl).
  - apply (proj1 (proj2 (proj2 (proj2 (proj2 (isBytecodeFile_behaviour
                    (fun _ => Contents (lit "ll")) zero zero zero
                    (mkPath (lit "/a/f.bc"))))))) (lit "ll") eq_refl).
    cbv. lia.
  - apply (proj1 (proj2 (proj2 (proj2 (proj2 (proj2 (isBytecodeFile_behaviour
                    (fun _ => DeviceError (lit "llvc..")) zero zero zero
                    (mkPath (lit "/a/f.bc")))))))) (lit "llvc..") eq_refl).
    cbv. lia.
Defined.

(** C9 fails as stated: for a file that cannot be opened the read fails
    ([failbit] is set, nothing is stored), and the function returns false
    without reporting an error. *)
Lemma isBytecodeFile_silent_on_failed_read :
  failbit (fst (ifstream_read (ifstream_open CannotOpen) [zero; zero; zero; zero] 4)) = true /\
  isBytecodeFile (fun _ => CannotOpen) zero zero zero (mkPath (lit "/a/none"))
    = Returns false.
Proof. split; reflexivity. Qed.

(** On a file shorter than four bytes the comparison reads the part of
    [buffer] that was never written. *)
Remark isBytecodeFile_short_file_reads_stale_buffer :
  isBytecodeFile (fun _ => Contents (lit "llv")) zero zero "m"%char (mkPath (lit "/a/f"))
    = Returns true.
Proof. reflexivity. Qed.

(* ================================================================= *)
(** ** The validity rules *)

Lemma mem_illegal_chars (c : ascii) : Str.mem c illegal_chars = illegal c.
Proof.
  destruct c as [[] [] [] [] [] [] [] []]; reflexivity.
Qed.

Lemma find_first_of_None (s set : str) :
  Str.find_first_of s set = None <-> forall c, In c s -> Str.mem c set = false.
Proof.
  induction s as [|x r IH]; simpl.
  - split; [intros _ c [] | reflexivity].
  - destruct (Str.mem x set) eqn:Ex.
    + split; [discriminate|]. intros H. specialize (H x (or_introl eq_refl)).
      congruence.
    + destruct (Str.find_first_of r set) as [i|].
      * split; [discriminate|]. intros H.
        assert (Hr : forall c, In c r -> Str.mem c set = false) by auto.
        apply IH in Hr. discriminate.
      * split; [|reflexivity]. intros _ c [<-|Hc]; [exact Ex|].
        now apply (proj1 IH).
Qed.

Lemma last_index_nth_error (c : ascii) (s : str) (i : nat) :
  Str.last_index c s = Some i -> nth_error s i = Some c.
Proof.
  intros H. destruct (last_index_split c s i H) as [E _].
  rewrite E at 1. rewrite nth_error_app2; rewrite length_firstn.
  - apply last_index_lt in H. unfold Str.size in H.
    rewrite Nat.min_l by lia. now rewrite Nat.sub_diag.
  - apply Nat.le_min_l.
Qed.

Lemma last_index_max (c : ascii) (s : str) (i j : nat) :
  Str.last_index c s = Some i -> nth_error s j = Some c -> j <= i.
Proof.
  intros H Hj. destruct (last_index_split c s i H) as [E Hn].
  destruct (Nat.le_gt_cases j i) as [|Hlt]; [assumption|].
  exfalso. apply Hn. rewrite E in Hj.
  assert (Hlen : List.length (firstn i s) = i).
  { apply last_index_lt in H. unfold Str.size in H.
    rewrite length_firstn. lia. }
  rewrite nth_error_app2 in Hj by lia. rewrite Hlen in Hj.
  destruct (j - i) as [|k] eqn:Ek; [lia|].
  cbn in Hj. now apply nth_error_In in Hj.
Qed.

Lemma ends_with_1 (s : str) (x : ascii) :
  s <> [] ->
  Ascii.eqb (Str.at_ s (Str.size s - 1)) x = false <-> (forall q, s <> q ++ [x]).
Proof.
  intros Hne. destruct (exists_last Hne) as [q0 [y ->]]. rewrite at_last.
  split.
  - intros Hy q E. apply app_inj_tail in E as [_ ->].
    now rewrite Ascii.eqb_refl in Hy.
  - intros H. apply Ascii.eqb_neq. intros ->. now apply (H q0).
Qed.

Lemma ends_with_2 (s : str) (x y : ascii) :
  (2 <=? Str.size s) && Ascii.eqb (Str.at_ s (Str.size s - 2)) x
    && Ascii.eqb (Str.at_ s (Str.size s - 1)) y = false
  <-> (forall q, s <> q ++ [x; y]).
Proof.
  destruct s as [|a s'] using rev_ind; [|clear IHs'].
  - split; [|reflexivity]. intros _ q E. now destruct q.
  - destruct s' as [|b s''] using rev_ind; [|clear IHs''].
    + split; [|reflexivity]. intros _ q E. destruct q as [|? [|? ?]]; discriminate.
    + rewrite at_last.
      assert (E2 : Str.at_ ((s'' ++ [b]) ++ [a]) (Str.size ((s'' ++ [b]) ++ [a]) - 2) = b).
      { unfold Str.at_, Str.size. rewrite !length_app. simpl.
        replace (List.length s'' + 1 + 1 - 2) with (List.length s'') by lia.
        rewrite <- app_assoc. rewrite app_nth2 by lia. now rewrite Nat.sub_diag. }
      rewrite E2.
      assert (E3 : (2 <=? Str.size ((s'' ++ [b]) ++ [a])) = true).
      { apply Nat.leb_le. unfold Str.size. rewrite !length_app. simpl. lia. }
      rewrite E3. cbn [andb]. split.
      * intros H q E. rewrite <- app_assoc in E. cbn in E.
        change (q ++ [x; y]) with (q ++ [x] ++ [y]) in E.
        change (s'' ++ [b; a]) with (s'' ++ [b] ++ [a]) in E.
        rewrite !app_assoc in E.
        apply app_inj_tail in E as [E ->]. apply app_inj_tail in E as [_ ->].
        now rewrite !Ascii.eqb_refl in H.
      * intros H. destruct (Ascii.eqb_spec b x) as [->|]; [|reflexivity].
        destruct (Ascii.eqb_spec a y) as [->|]; [|reflexivity].
        exfalso. apply (H s''). now rewrite <- app_assoc.
Qed.

Lemma colon_rule (s : str) :
  match Str.last_index ch_colon s with
  | Some pos => negb (pos =? 1) || negb (isalpha (Str.at_ s 0)) || (Str.size s <? 3)
  | None => false
  end = false
  <-> (forall i, nth_error s i = Some ch_colon ->
         i = 1 /\ isalpha (Str.at_ s 0) = true /\ 3 <= Str.size s).
Proof.
  destruct (Str.last_index ch_colon s) as [pos|] eqn:E.
  - rewrite !orb_false_iff, !negb_false_iff, Nat.eqb_eq, Nat.ltb_ge. split.
    + intros [[-> Ha] Hl] i Hi. repeat split; try assumption.
      pose proof (last_index_max _ _ _ _ E Hi) as Hle.
      destruct i as [|[|i]]; [|reflexivity|lia].
      exfalso. unfold Str.at_ in Ha.
      rewrite (nth_error_nth _ _ zero Hi) in Ha. discriminate Ha.
    + intros H. destruct (H pos (last_index_nth_error _ _ _ E)) as (-> & Ha & Hl).
      auto.
  - split; [|reflexivity]. intros _ i Hi. exfalso.
    apply last_index_None in E. apply E. now apply nth_error_In in Hi.
Qed.

Lemma isValid_valid_string (p : Path) :
  isValid p = true <-> valid_string (path p).
Proof.
  unfold isValid, valid_string. destruct (path p) as [|a r] eqn:Ep.
  - split; [discriminate | now intros [H _]].
  - set (s := a :: r). change (Str.empty s) with false. cbv iota.
    assert (Hne : s <> []) by discriminate.
    rewrite rfind_size.
    pose proof (colon_rule s) as Hcolon.
    pose proof (find_first_of_None s illegal_chars) as Hill.
    pose proof (ends_with_1 s ch_dot Hne) as Hd1.
    pose proof (ends_with_2 s ch_dot ch_slash) as Hd2.
    pose proof (ends_with_1 s ch_space Hne) as Hs1.
    pose proof (ends_with_2 s ch_space ch_slash) as Hs2.
    destruct (match Str.last_index ch_colon s with
              | Some pos => _ | None => false end) eqn:E1.
    { split; [discriminate|]. intros (_ & H & _). apply Hcolon in H. discriminate. }
    destruct (Str.find_first_of s illegal_chars) as [k|] eqn:E2; cbn [found].
    { split; [discriminate|]. intros (_ & _ & H & _).
      assert (H' : forall c, In c s -> Str.mem c illegal_chars = false).
      { intros c Hc. rewrite mem_illegal_chars. auto. }
      apply Hill in H'. discriminate. }
    destruct (Ascii.eqb (Str.at_ s (Str.size s - 1)) ch_dot) eqn:E3.
    { split; [discriminate|]. intros (_ & _ & _ & H & _).
      apply Hd1 in H. discriminate. }
    destruct ((2 <=? Str.size s) && Ascii.eqb (Str.at_ s (Str.size s - 2)) ch_dot
              && Ascii.eqb (Str.at_ s (Str.size s - 1)) ch_slash) eqn:E4.
    { split; [discriminate|]. intros (_ & _ & _ & _ & H & _).
      apply Hd2 in H. discriminate. }
    destruct (Ascii.eqb (Str.at_ s (Str.size s - 1)) ch_space) eqn:E5.
    { split; [discriminate|]. intros (_ & _ & _ & _ & _ & H & _).
      apply Hs1 in H. discriminate. }
    destruct ((2 <=? Str.size s) && Ascii.eqb (Str.at_ s (Str.size s - 2)) ch_space
              && Ascii.eqb (Str.at_ s (Str.size s - 1)) ch_slash) eqn:E6.
    { split; [discriminate|]. intros (_ & _ & _ & _ & _ & _ & H).
      apply Hs2 in H. discriminate. }
    split; [intros _|reflexivity].
    split; [exact Hne|]. split; [now apply Hcolon|].
    split.
    { intros c Hc. rewrite <- mem_illegal_chars. now apply (proj1 Hill eq_refl). }
    split; [now apply Hd1|]. split; [now apply Hd2|].
    split; [now apply Hs1 | now apply Hs2].
Qed.

(** [isValid] accepts exactly the strings that obey the validity rules. *)
Theorem isValid_iff_valid_string (p : Path) :
  isValid p = true <-> valid_string (path p).
Proof. apply isValid_valid_string. Qed.

Lemma isValid_iff_valid_string_witness :
  valid_string (lit "C:/dir/file.txt") /\ isValid (mkPath (lit "C:/dir/file.txt")) = true.
Proof.
  assert (H : valid_string (lit "C:/dir/file.txt")).
  { exact (proj1 (isValid_iff_valid_string (mkPath (lit "C:/dir/file.txt"))) eq_refl). }
  split; [exact H|].
  exact (proj2 (isValid_iff_valid_string (mkPath (lit "C:/dir/file.txt"))) H).
Defined.

(* ================================================================= *)
(** ** Separator normalisation *)

Lemma FlipBackSlashes_app (a b : str) :
  FlipBackSlashes (a ++ b) = FlipBackSlashes a ++ FlipBackSlashes b.
Proof. apply map_app. Qed.

Lemma FlipBackSlashes_fixed (s : str) :
  ~ In ch_backslash s -> FlipBackSlashes s = s.
Proof.
  induction s as [|x r IH]; [reflexivity|]. intros H. cbn.
  destruct (Ascii.eqb_spec x ch_backslash) as [->|_].
  - exfalso. apply H. now left.
  - f_equal. apply IH. intros Hr. apply H. now right.
Qed.

(** [FlipBackSlashes] keeps the length, leaves no backslash, changes only
    backslashes (each into a separator), and is idempotent; a string
    without backslashes is left as it is. *)
Theorem FlipBackSlashes_normalises (s : str) :
  Str.size (FlipBackSlashes s) = Str.size s /\
  ~ In ch_backslash (FlipBackSlashes s) /\
  (forall i c, nth_error s i = Some c ->
     nth_error (FlipBackSlashes s) i
     = Some (if Ascii.eqb c ch_backslash then ch_slash else c)) /\
  FlipBackSlashes (FlipBackSlashes s) = FlipBackSlashes s /\
  (~ In ch_backslash s -> FlipBackSlashes s = s).
Proof.
  split; [apply length_map|]. split; [apply FlipBackSlashes_clean|].
  split.
  { intros i c H. unfold FlipBackSlashes. rewrite nth_error_map, H. reflexivity. }
  split; [|apply FlipBackSlashes_fixed].
  apply FlipBackSlashes_fixed, FlipBackSlashes_clean.
Qed.

Lemma FlipBackSlashes_normalises_witness :
  ~ In ch_backslash (lit "C:/a/b") /\ FlipBackSlashes (lit "C:/a/b") = lit "C:/a/b".
Proof.
  assert (H : ~ In ch_backslash (lit "C:/a/b")) by now apply not_In_lit.
  split; [exact H|].
  exact (proj2 (proj2 (proj2 (proj2 (FlipBackSlashes_normalises (lit "C:/a/b"))))) H).
Defined.

(* ================================================================= *)
(** ** Constructed paths *)

Lemma Path_ctor_eq (s : str) :
  Path_ctor s =
  if Str.empty s then Constructed (mkPath [])
  else if isValid (mkPath (FlipBackSlashes s))
       then Constructed (mkPath (FlipBackSlashes s))
       else Thrown (mkPath []) (s ++ lit ": path is not valid").
Proof.
  unfold Path_ctor, modify_path, clear, set_path. cbn [snd path].
  now destruct s.
Qed.

(** A Path that the constructor returns is empty or valid, holds the
    normalised argument and so no backslash, and constructing a Path from
    its string again gives the same Path. *)
Theorem Path_ctor_constructed (s : str) (p : Path) :
  Path_ctor s = Constructed p ->
  observable_ok p /\
  path p = FlipBackSlashes s /\
  ~ In ch_backslash (path p) /\
  Path_ctor (path p) = Constructed p.
Proof.
  rewrite !Path_ctor_eq. destruct s as [|a r].
  - intros E. injection E as <-. repeat split; auto. now left.
  - set (s := a :: r). change (Str.empty s) with false. cbv iota.
    destruct (isValid (mkPath (FlipBackSlashes s))) eqn:Hv; [|discriminate].
    intros E.
    assert (Ep : p = mkPath (FlipBackSlashes s)) by (injection E; congruence).
    subst p. clear E.
    change (path (mkPath (FlipBackSlashes s))) with (FlipBackSlashes s).
    split; [now right|]. split; [reflexivity|].
    split; [exact (FlipBackSlashes_clean s)|].
    rewrite (FlipBackSlashes_fixed _ (FlipBackSlashes_clean s)), Hv.
    reflexivity.
Qed.

Lemma Path_ctor_constructed_witness :
  Path_ctor (lit "C:\dir\f.txt") = Constructed (mkPath (lit "C:/dir/f.txt")) /\
  Path_ctor (lit "C:/dir/f.txt") = Constructed (mkPath (lit "C:/dir/f.txt")).
Proof.
  split; [reflexivity|].
  exact (proj2 (proj2 (proj2 (Path_ctor_constructed (lit "C:\dir\f.txt")
           (mkPath (lit "C:/dir/f.txt")) eq_refl)))).
Defined.

(* ================================================================= *)
(** ** setFile *)

Lemma setFile_eq (s : str) (p : Path) :
  setFile s p =
  if Str.empty s then (false, p)
  else
    let c := firstn (strip_slashes s (Str.size s - 1) + 1) (FlipBackSlashes s) in
    if isValid (mkPath c) then (true, mkPath c) else (false, p).
Proof.
  unfold setFile. destruct s as [|x r]; [reflexivity|].
  set (s := x :: r). change (Str.size s =? 0) with false.
  change (Str.empty s) with false. run_mutator. cbn [path]. unfold Str.erase.
  destruct (isValid _); cbn [negb]; cbv beta iota; now rewrite ?Path_eta.
Qed.

Lemma at_app_l (a b : str) (i : nat) :
  i < Str.size a -> Str.at_ (a ++ b) i = Str.at_ a i.
Proof. intros H. unfold Str.at_. now apply app_nth1. Qed.

Lemma at_app_r (a b : str) (i : nat) :
  Str.at_ (a ++ b) (Str.size a + i) = Str.at_ b i.
Proof.
  unfold Str.at_, Str.size. rewrite app_nth2 by lia. f_equal. lia.
Qed.

Lemma at_repeat (x : ascii) (k i : nat) :
  i < k -> Str.at_ (repeat x k) i = x.
Proof.
  unfold Str.at_. revert i. induction k as [|k IH]; intros i H; [lia|].
  destruct i as [|i]; [reflexivity|]. cbn. apply IH. lia.
Qed.

(** The loop of [setFile] stops on the last character that is not a
    separator. *)
Lemma strip_slashes_stops (body : str) (x : ascii) (k j : nat) :
  x <> ch_slash -> j <= k ->
  strip_slashes (body ++ x :: repeat ch_slash k) (Str.size body + j) = Str.size body.
Proof.
  intros Hx. induction j as [|j IH]; intros Hj.
  - rewrite Nat.add_0_r. destruct (Str.size body) as [|n] eqn:En; [reflexivity|].
    cbn [strip_slashes]. rewrite <- En.
    replace (Str.size body) with (Str.size body + 0) at 1 by lia.
    rewrite at_app_r. cbn. apply Ascii.eqb_neq in Hx. now rewrite Hx.
  - replace (Str.size body + S j) with (S (Str.size body + j)) by lia.
    cbn [strip_slashes].
    replace (S (Str.size body + j)) with (Str.size body + S j) by lia.
    rewrite at_app_r. change (Str.at_ (x :: repeat ch_slash k) (S j))
      with (Str.at_ (repeat ch_slash k) j).
    rewrite at_repeat by lia. rewrite Ascii.eqb_refl. apply IH. lia.
Qed.

(** On a string of separators only, the loop runs down to index 0. *)
Lemma strip_slashes_all (k j : nat) :
  j <= k -> strip_slashes (repeat ch_slash (S k)) j = 0.
Proof.
  induction j as [|j IH]; intros Hj; [reflexivity|].
  cbn [strip_slashes]. rewrite at_repeat by lia.
  rewrite Ascii.eqb_refl. apply IH. lia.
Qed.

(** [setFile(s)] rejects the empty string.  It removes the separators that
    end [s], as supplied, but never the first character, normalises the
    rest and validates it, committing or rolling back.  The committed path
    is in file mode unless the last character kept is a backslash; a string
    of separators only leaves the root, which is in directory mode. *)
Theorem setFile_behaviour (s : str) (p : Path) :
  (s = [] -> setFile s p = (false, p)) /\
  (forall body x k,
     s = body ++ x :: repeat ch_slash k -> x <> ch_slash ->
     (isValid (mkPath (FlipBackSlashes (body ++ [x]))) = true ->
        setFile s p = (true, mkPath (FlipBackSlashes (body ++ [x]))) /\
        (x <> ch_backslash ->
         isFile (mkPath (FlipBackSlashes (body ++ [x]))) = true)) /\
     (isValid (mkPath (FlipBackSlashes (body ++ [x]))) = false ->
        setFile s p = (false, p))) /\
  (forall k, s = repeat ch_slash (S k) ->
     setFile s p = (true, mkPath [ch_slash]) /\
     isDirectory (mkPath [ch_slash]) = true).
Proof.
  rewrite setFile_eq. split; [now intros ->|]. split.
  - intros body x k -> Hx.
    assert (Hc : firstn (strip_slashes (body ++ x :: repeat ch_slash k)
                           (Str.size (body ++ x :: repeat ch_slash k) - 1) + 1)
                   (FlipBackSlashes (body ++ x :: repeat ch_slash k))
                 = FlipBackSlashes (body ++ [x])).
    { replace (Str.size (body ++ x :: repeat ch_slash k) - 1)
        with (Str.size body + k).
      2:{ unfold Str.size. rewrite length_app. cbn. rewrite repeat_length. lia. }
      rewrite strip_slashes_stops by (auto; lia).
      change (body ++ x :: repeat ch_slash k)
        with (body ++ [x] ++ repeat ch_slash k).
      rewrite app_assoc, FlipBackSlashes_app.
      replace (Str.size body + 1) with (Str.size (FlipBackSlashes (body ++ [x]))).
      - apply firstn_size_app.
      - unfold Str.size, FlipBackSlashes. rewrite length_map, length_app. reflexivity. }
    assert (He : Str.empty (body ++ x :: repeat ch_slash k) = false)
      by (now destruct body).
    rewrite He. cbv zeta. rewrite Hc. split.
    + intros Hv. rewrite Hv. split; [reflexivity|]. intros Hb.
      unfold isFile. rewrite Hv. cbn [andb path].
      rewrite FlipBackSlashes_app. cbn [FlipBackSlashes map].
      apply Ascii.eqb_neq in Hb. rewrite Hb. rewrite at_last.
      apply Ascii.eqb_neq in Hx. now rewrite Hx.
    + intros Hv. now rewrite Hv.
  - intros k ->.
    replace (Str.size (repeat ch_slash (S k)) - 1) with k
      by (unfold Str.size; rewrite repeat_length; lia).
    rewrite strip_slashes_all by lia. split; reflexivity.
Qed.

Lemma setFile_behaviour_witness :
  setFile (lit "C:\dir\f.txt//") Path_default = (true, mkPath (lit "C:/dir/f.txt")) /\
  isFile (mkPath (lit "C:/dir/f.txt")) = true /\
  setFile (lit "///") Path_default = (true, mkPath (lit "/")).
Proof.
  destruct (setFile_behaviour (lit "C:\dir\f.txt//") Path_default) as (_ & H & _).
  destruct (H (lit "C:\dir\f.tx") "t"%char 2 eq_refl) as [H1 _]; [discriminate|].
  destruct (H1 eq_refl) as [H2 H3].
  split; [exact H2|]. split; [apply H3; discriminate|].
  destruct (setFile_behaviour (lit "///") Path_default) as (_ & _ & H4).
  exact (proj1 (H4 2 eq_refl)).
Defined.

(* ================================================================= *)
(** ** The mode a mutator leaves *)

Lemma isFile_intro (p : Path) (q : str) (x : ascii) :
  isValid p = true -> path p = q ++ [x] -> x <> ch_slash -> isFile p = true.
Proof.
  intros Hv Hq Hx. unfold isFile. rewrite Hv, Hq, at_last.
  apply Ascii.eqb_neq in Hx. now rewrite Hx.
Qed.

Lemma appendSuffix_leaves_file (s : str) (p r : Path) :
  appendSuffix s p = (true, r) -> ~ In ch_slash s -> isFile r = true.
Proof.
  intros H Hs. apply appendSuffix_success in H as (_ & -> & Hv).
  assert (Hne : ch_dot :: s <> []) by discriminate.
  destruct (exists_last Hne) as [t [y Ey]].
  apply isFile_intro with (q := path p ++ t) (x := y); auto.
  - cbn [path]. now rewrite Ey, app_assoc.
  - intros ->. assert (Hin : In ch_slash (ch_dot :: s)).
    { rewrite Ey. apply in_or_app. right. now left. }
    destruct Hin as [Hd|Hin]; [discriminate Hd | tauto].
Qed.

(** The mode a successful mutator leaves.  [setDirectory] of a
    one-character name other than [/] and [\] stores that character alone
    and leaves the path in file mode, not in directory mode; of every other
    name (two characters or more, or a lone separator) it leaves the path in
    directory mode.  [appendDirectory] leaves directory mode; [appendFile]
    of a name not ending in [/] and [appendSuffix] of a suffix without [/]
    leave file mode. *)
Theorem mode_after_success (p r : Path) (s : str) :
  (forall x, setDirectory s p = (true, r) -> s = [x] ->
     x <> ch_slash -> x <> ch_backslash ->
     r = mkPath [x] /\ isFile r = true /\ isDirectory r = false) /\
  (setDirectory s p = (true, r) ->
     (forall x, s = [x] -> x = ch_slash \/ x = ch_backslash) ->
     isDirectory r = true) /\
  (appendDirectory s p = (true, r) -> isDirectory r = true) /\
  (forall q x, appendFile s p = (true, r) -> s = q ++ [x] -> x <> ch_slash ->
     isFile r = true) /\
  (appendSuffix s p = (true, r) -> ~ In ch_slash s -> isFile r = true).
Proof.
  split; [|split; [|split; [|split]]].
  - intros x E -> Hs Hb. revert E. rewrite setDirectory_eq. cbn [Str.empty].
    assert (Ec : setDirectory_candidate [x] = [x]).
    { unfold setDirectory_candidate. cbn.
      apply Ascii.eqb_neq in Hb. now rewrite Hb. }
    rewrite Ec.
    destruct (isValid (mkPath [x])) eqn:Hv; [|discriminate].
    intros E. assert (Er : r = mkPath [x]) by (injection E; congruence).
    subst r. split; [reflexivity|].
    assert (Hf : isFile (mkPath [x]) = true)
      by (apply isFile_intro with (q := []) (x := x); auto).
    split; [exact Hf|].
    destruct (isDirectory (mkPath [x])) eqn:Hd; [|reflexivity].
    apply isDirectory_not_isFile in Hd. congruence.
  - rewrite setDirectory_eq. destruct s as [|a t]; [discriminate|].
    cbn [Str.empty].
    destruct (isValid (mkPath (setDirectory_candidate (a :: t)))) eqn:Hv;
      [|discriminate].
    intros E Hone. assert (Er : r = mkPath (setDirectory_candidate (a :: t)))
      by (injection E; congruence). subst r. clear E.
    assert (Hne : a :: t <> []) by discriminate.
    destruct (setDirectory_candidate_tail (a :: t) Hne) as [[q Hq]|[x [Hx Hxs]]].
    + now apply isDirectory_intro with q.
    + exfalso. unfold setDirectory_candidate in Hx.
      destruct t as [|b t'].
      * cbn in Hx. destruct (Hone a eq_refl) as [->| ->].
        { cbn in Hx. injection Hx as <-. congruence. }
        cbn in Hx. injection Hx as <-. congruence.
      * apply (f_equal (@List.length ascii)) in Hx.
        rewrite length_app in Hx. unfold FlipBackSlashes in Hx.
        rewrite length_map in Hx. cbn in Hx. lia.
  - rewrite appendDirectory_eq. destruct (isFile p); [discriminate|].
    destruct (isValid _) eqn:Hv; [|discriminate].
    intros E. assert (Er : r = mkPath (path p ++ s ++ [ch_slash]))
      by (injection E; congruence). subst r.
    apply isDirectory_intro with (q := path p ++ s); [exact Hv|].
    cbn [path]. now rewrite app_assoc.
  - intros q x H -> Hx. apply appendFile_success in H as (_ & -> & Hv).
    apply isFile_intro with (q := path p ++ q) (x := x); auto.
    cbn [path]. now rewrite app_assoc.
  - apply appendSuffix_leaves_file.
Qed.

Lemma mode_after_success_witness :
  (isFile (mkPath (lit "a")) = true /\ isDirectory (mkPath (lit "a")) = false) /\
  isDirectory (mkPath (lit "C:/foo/")) = true /\
  isDirectory (mkPath (lit "/")) = true /\
  isDirectory (mkPath (lit "/usr/lib/")) = true /\
  isFile (mkPath (lit "/usr/lib/libfoo")) = true /\
  isFile (mkPath (lit "/usr/lib/libfoo.dll")) = true.
Proof.
  split; [|split; [|split; [|split; [|split]]]].
  - refine (proj2 (proj1 (mode_after_success (mkPath (lit "/usr/"))
             (mkPath (lit "a")) (lit "a")) "a"%char eq_refl eq_refl _ _));
      discriminate.
  - refine (proj1 (proj2 (mode_after_success (mkPath (lit "/usr/"))
             (mkPath (lit "C:/foo/")) (lit "C:\foo"))) eq_refl _).
    intros x E. discriminate E.
  - refine (proj1 (proj2 (mode_after_success (mkPath (lit "/usr/"))
             (mkPath (lit "/")) (lit "\"))) eq_refl _).
    intros x E. right. now injection E as <-.
  - exact (proj1 (proj2 (proj2 (mode_after_success (mkPath (lit "/usr/"))
             (mkPath (lit "/usr/lib/")) (lit "lib")))) eq_refl).
  - refine (proj1 (proj2 (proj2 (proj2 (mode_after_success (mkPath (lit "/usr/lib/"))
             (mkPath (lit "/usr/lib/libfoo")) (lit "libfoo")))))
             (lit "libfo") "o"%char eq_refl eq_refl _). discriminate.
  - refine (proj2 (proj2 (proj2 (proj2 (mode_after_success (mkPath (lit "/usr/lib/libfoo"))
             (mkPath (lit "/usr/lib/libfoo.dll")) (lit "dll"))))) eq_refl _).
    now apply not_In_lit.
Defined.

(** Every component operation is gated by the mode: on a path of the wrong
    mode it reports failure and leaves the path as it is.  In particular
    [appendDirectory] on a file-mode path always fails. *)
Theorem wrong_mode_is_refused (p : Path) (s : str) :
  (isFile p = true ->
     appendDirectory s p = (false, p) /\ elideDirectory p = (false, p) /\
     appendFile s p = (false, p)) /\
  (isDirectory p = true ->
     appendSuffix s p = (false, p) /\ elideSuffix p = (false, p) /\
     elideFile p = (false, p)) /\
  (isValid p = false -> appendFile s p = (false, p)).
Proof.
  split; [|split].
  - intros Hf. rewrite appendDirectory_eq, elideDirectory_eq, appendFile_eq, Hf.
    now rewrite (isFile_not_isDirectory p Hf).
  - intros Hd. now rewrite appendSuffix_eq, elideSuffix_eq, elideFile_eq, Hd.
  - intros Hv. rewrite appendFile_eq. unfold isDirectory. now rewrite Hv.
Qed.

Lemma wrong_mode_is_refused_witness :
  appendDirectory (lit "d") (mkPath (lit "/a/b")) = (false, mkPath (lit "/a/b")) /\
  appendSuffix (lit "x") (mkPath (lit "/a/")) = (false, mkPath (lit "/a/")) /\
  appendFile (lit "f") Path_default = (false, Path_default).
Proof.
  split; [|split].
  - exact (proj1 (proj1 (wrong_mode_is_refused (mkPath (lit "/a/b")) (lit "d")) eq_refl)).
  - exact (proj1 (proj1 (proj2 (wrong_mode_is_refused (mkPath (lit "/a/")) (lit "x"))) eq_refl)).
  - exact (proj2 (proj2 (wrong_mode_is_refused Path_default (lit "f"))) eq_refl).
Defined.

(* ================================================================= *)
(** ** What the elide operations remove *)

(** On a directory-mode path [pre/name/], where [name] holds no separator,
    [elideDirectory] removes the last component together with the separator
    before it and leaves [pre], without a trailing separator; on a
    directory-mode path [name/], which has no earlier separator, and so on
    the root, it reports failure and changes nothing; on the empty Path it
    reports failure. *)
Theorem elideDirectory_behaviour (p : Path) (name : str) :
  ~ In ch_slash name ->
  (forall pre, isDirectory p = true -> path p = pre ++ ch_slash :: name ++ [ch_slash] ->
     elideDirectory p = (true, mkPath pre)) /\
  (isDirectory p = true -> path p = name ++ [ch_slash] ->
     elideDirectory p = (false, p)) /\
  elideDirectory Path_default = (false, Path_default).
Proof.
  intros Hn. split; [|split]; [| |reflexivity].
  - intros pre Hd Hp. rewrite elideDirectory_eq, (isDirectory_not_isFile p Hd).
    assert (E1 : path p = (pre ++ ch_slash :: name) ++ [ch_slash]).
    { rewrite Hp, <- app_assoc. reflexivity. }
    assert (Esz : Str.size (pre ++ ch_slash :: name) = S (Str.size pre + Str.size name)).
    { unfold Str.size. rewrite length_app. simpl. lia. }
    rewrite E1 at 1. rewrite last_index_app by tauto. rewrite Esz.
    assert (Elen : Str.size (path p) - 1 = S (Str.size pre + Str.size name)).
    { rewrite E1. unfold Str.size in *. rewrite length_app, Esz. simpl. lia. }
    rewrite Elen, Nat.eqb_refl.
    unfold Str.rfind. rewrite <- Esz, E1, firstn_size_app.
    rewrite (last_index_app ch_slash pre name Hn).
    rewrite <- app_assoc. now rewrite firstn_size_app.
  - intros Hd Hp. rewrite elideDirectory_eq, (isDirectory_not_isFile p Hd).
    rewrite Hp at 1. rewrite last_index_app by tauto.
    destruct name as [|a t]; [reflexivity|].
    set (nm := a :: t) in *. change (Str.size nm) with (S (Str.size t)).
    assert (Elen : Str.size (path p) - 1 = S (Str.size t)).
    { rewrite Hp. unfold Str.size, nm. rewrite length_app. simpl. lia. }
    rewrite Elen, Nat.eqb_refl. unfold Str.rfind.
    replace (S (Str.size t)) with (Str.size nm) by reflexivity.
    rewrite Hp, firstn_size_app.
    apply last_index_None in Hn. now rewrite Hn.
Qed.

Lemma elideDirectory_behaviour_witness :
  elideDirectory (mkPath (lit "/usr/lib/")) = (true, mkPath (lit "/usr")) /\
  elideDirectory (mkPath (lit "/")) = (false, mkPath (lit "/")) /\
  elideDirectory (mkPath (lit "/lib/")) = (true, mkPath []).
Proof.
  assert (Hl : ~ In ch_slash (lit "lib")) by now apply not_In_lit.
  assert (He : ~ In ch_slash []) by (intros []).
  split; [|split].
  - exact (proj1 (elideDirectory_behaviour (mkPath (lit "/usr/lib/")) (lit "lib") Hl)
             (lit "/usr") eq_refl eq_refl).
  - exact (proj1 (proj2 (elideDirectory_behaviour (mkPath (lit "/")) [] He))
             eq_refl eq_refl).
  - exact (proj1 (elideDirectory_behaviour (mkPath (lit "/lib/")) (lit "lib") Hl)
             [] eq_refl eq_refl).
Defined.

(** On a file-mode path [pre/name], where [name] holds no separator,
    [elideFile] leaves the directory part [pre/]; if that directory part is
    valid, [appendFile(name)] then restores the path.  On a file-mode path
    without a separator [elideFile] reports failure and changes nothing. *)
Theorem elideFile_behaviour (p : Path) :
  isFile p = true ->
  (forall pre name, path p = pre ++ ch_slash :: name -> ~ In ch_slash name ->
     elideFile p = (true, mkPath (pre ++ [ch_slash])) /\
     (isValid (mkPath (pre ++ [ch_slash])) = true ->
      appendFile name (mkPath (pre ++ [ch_slash])) = (true, p))) /\
  (~ In ch_slash (path p) -> elideFile p = (false, p)).
Proof.
  intros Hf. pose proof (isFile_not_isDirectory p Hf) as Hd.
  rewrite !elideFile_eq, Hd. split.
  - intros pre name Hp Hn. rewrite Hp.
    rewrite last_index_app by assumption. split.
    + change (pre ++ ch_slash :: name) with (pre ++ [ch_slash] ++ name).
      rewrite app_assoc.
      replace (Str.size pre + 1) with (Str.size (pre ++ [ch_slash])).
      * now rewrite firstn_size_app.
      * unfold Str.size. now rewrite length_app.
    + intros Hv. rewrite appendFile_eq.
      rewrite (isDirectory_intro (mkPath (pre ++ [ch_slash])) pre Hv eq_refl).
      cbn [path]. rewrite <- app_assoc. cbn [app]. rewrite <- Hp, Path_eta.
      unfold isFile in Hf. apply andb_true_iff in Hf as [Hvp _]. now rewrite Hvp.
  - intros Hn. apply last_index_None in Hn. now rewrite Hn.
Qed.

Lemma elideFile_behaviour_witness :
  isFile (mkPath (lit "/usr/lib/libfoo.a")) = true /\
  elideFile (mkPath (lit "/usr/lib/libfoo.a")) = (true, mkPath (lit "/usr/lib/")) /\
  appendFile (lit "libfoo.a") (mkPath (lit "/usr/lib/"))
    = (true, mkPath (lit "/usr/lib/libfoo.a")).
Proof.
  split; [reflexivity|].
  destruct (proj1 (elideFile_behaviour (mkPath (lit "/usr/lib/libfoo.a")) eq_refl)
              (lit "/usr/lib") (lit "libfoo.a") eq_refl) as [H1 H2].
  - now apply not_In_lit.
  - split; [exact H1 | exact (H2 eq_refl)].
Defined.

(** When [elideSuffix] removes the suffix [suf] of a file-mode path and
    what remains is still a file-mode path, [appendSuffix(suf)] restores
    the path. *)
Theorem elideSuffix_then_appendSuffix (p : Path) (pre mid suf : str) :
  isFile p = true ->
  suffix_split (path p) pre mid suf ->
  isFile (mkPath (pre ++ ch_slash :: mid)) = true ->
  (elideSuffix ;; appendSuffix suf) p = (true, p).
Proof.
  intros Hf Hs Hf'. rewrite bind_run.
  rewrite (elideSuffix_on_split p pre mid suf (isFile_not_isDirectory p Hf) Hs).
  cbn [fst snd]. rewrite appendSuffix_eq, (isFile_not_isDirectory _ Hf').
  cbn [path]. destruct Hs as (Hp & _).
  replace ((pre ++ ch_slash :: mid) ++ ch_dot :: suf) with (path p)
    by (rewrite Hp, <- app_assoc; reflexivity).
  rewrite Path_eta. unfold isFile in Hf. apply andb_true_iff in Hf as [Hv _].
  now rewrite Hv.
Qed.

Lemma elideSuffix_then_appendSuffix_witness :
  isFile (mkPath (lit "/a/b.c.txt")) = true /\
  (elideSuffix ;; appendSuffix (lit "txt")) (mkPath (lit "/a/b.c.txt"))
    = (true, mkPath (lit "/a/b.c.txt")).
Proof.
  split; [reflexivity|].
  apply elideSuffix_then_appendSuffix with (pre := lit "/a") (mid := lit "b.c").
  - reflexivity.
  - unfold suffix_split. repeat split; now apply not_In_lit.
  - reflexivity.
Defined.

(* ================================================================= *)
(** ** getLast and getBasename *)

Lemma npos_value : npos = 4294967295%N.
Proof. reflexivity. Qed.

Lemma rfind_t_whole (s : str) (c : ascii) :
  (length_t s < npos)%N ->
  rfind_t s c npos =
  match Str.last_index c s with Some i => N.of_nat i | None => npos end.
Proof.
  intros Hb. unfold rfind_t. rewrite N.min_r by lia.
  unfold length_t. now rewrite Nat2N.id, rfind_size.
Qed.

Lemma rfind_t_at (s : str) (c : ascii) (k : nat) :
  k <= Str.size s ->
  rfind_t s c (N.of_nat k) =
  match Str.rfind s c k with Some i => N.of_nat i | None => npos end.
Proof.
  intros Hk. unfold rfind_t, length_t. rewrite N.min_l by lia.
  now rewrite Nat2N.id.
Qed.

Lemma found_is_not_npos (s : str) (c : ascii) (i : nat) :
  (length_t s < npos)%N -> Str.last_index c s = Some i ->
  (N.of_nat i =? npos)%N = false.
Proof.
  intros Hb Hi. apply last_index_lt in Hi. apply N.eqb_neq.
  unfold length_t in Hb. lia.
Qed.

Lemma firstn_min_length (k : nat) (l : str) :
  firstn (Nat.min k (List.length l)) l = firstn k l.
Proof.
  destruct (Nat.le_gt_cases k (List.length l)) as [H|H].
  - now rewrite Nat.min_l.
  - rewrite Nat.min_r by lia. rewrite firstn_all. symmetry.
    apply firstn_all2. lia.
Qed.

Lemma substr_t_count (s : str) (pos k : nat) :
  pos <= Str.size s ->
  substr_t s (N.of_nat pos) (N.of_nat k) = Returns (firstn k (skipn pos s)).
Proof.
  intros Hp. unfold substr_t, length_t.
  destruct (N.ltb_spec (N.of_nat (Str.size s)) (N.of_nat pos)); [lia|].
  f_equal. rewrite Nat2N.id.
  replace (N.to_nat (N.min (N.of_nat k) (N.of_nat (Str.size s) - N.of_nat pos)))
    with (Nat.min k (List.length (skipn pos s))).
  - apply firstn_min_length.
  - rewrite length_skipn. unfold Str.size. lia.
Qed.

Lemma substr_t_to_end (s : str) (pos : nat) :
  (length_t s < npos)%N -> pos <= Str.size s ->
  substr_t s (N.of_nat pos) npos = Returns (skipn pos s).
Proof.
  intros Hb Hp. unfold substr_t, length_t in *.
  destruct (N.ltb_spec (N.of_nat (Str.size s)) (N.of_nat pos)); [lia|].
  f_equal. rewrite Nat2N.id. apply firstn_all2.
  rewrite length_skipn. unfold Str.size in *. lia.
Qed.

Lemma size_t_add_small (a b : nat) :
  (N.of_nat (a + b) < size_t_mod)%N ->
  size_t_add (N.of_nat a) (N.of_nat b) = N.of_nat (a + b).
Proof.
  intros H. unfold size_t_add.
  destruct (N.ltb_spec (N.of_nat a + N.of_nat b) size_t_mod); lia.
Qed.

Lemma size_t_sub_small (a b : nat) :
  b <= a -> size_t_sub (N.of_nat a) (N.of_nat b) = N.of_nat (a - b).
Proof.
  intros H. unfold size_t_sub.
  destruct (N.leb_spec (N.of_nat b) (N.of_nat a)); lia.
Qed.

Lemma skipn_size_app (a b : str) : skipn (Str.size a) (a ++ b) = b.
Proof.
  unfold Str.size. rewrite skipn_app, skipn_all, Nat.sub_diag. reflexivity.
Qed.

Lemma size_bound_succ (s : str) (k : nat) :
  (length_t s < npos)%N -> k <= Str.size s ->
  (N.of_nat (k + 1) < size_t_mod)%N.
Proof.
  intros Hb Hk. unfold length_t in Hb. rewrite npos_value in Hb.
  change size_t_mod with 4294967296%N. lia.
Qed.

(** [getLast] returns the last named component and never throws: the whole
    string when it holds no separator, the text after the last separator
    when the string does not end in one, and otherwise the text between the
    last two separators (from the start when there is only one). *)
Theorem getLast_behaviour (p : Path) :
  (length_t (path p) < npos)%N ->
  (~ In ch_slash (path p) -> getLast p = Returns (path p)) /\
  (forall pre name, path p = pre ++ ch_slash :: name -> name <> [] ->
     ~ In ch_slash name -> getLast p = Returns name) /\
  (forall pre name, path p = pre ++ ch_slash :: name ++ [ch_slash] ->
     ~ In ch_slash name -> getLast p = Returns name) /\
  (forall name, path p = name ++ [ch_slash] ->
     ~ In ch_slash name -> getLast p = Returns name) /\
  (exists r, getLast p = Returns r).
Proof.
  intros Hb.
  assert (C1 : ~ In ch_slash (path p) -> getLast p = Returns (path p)).
  { intros Hn. unfold getLast. rewrite rfind_t_whole by assumption.
    apply last_index_None in Hn. now rewrite Hn. }
  assert (C2 : forall pre name, path p = pre ++ ch_slash :: name -> name <> [] ->
     ~ In ch_slash name -> getLast p = Returns name).
  { intros pre name Hp Hne Hn. unfold getLast.
    rewrite rfind_t_whole by assumption.
    pose proof (last_index_app ch_slash pre name Hn) as Hi. rewrite <- Hp in Hi.
    rewrite Hi, (found_is_not_npos _ _ _ Hb Hi).
    assert (Hsz : Str.size (path p) = Str.size pre + S (Str.size name)).
    { rewrite Hp. unfold Str.size. rewrite length_app. reflexivity. }
    assert (Hnm : 0 < Str.size name) by (destruct name; [congruence|cbn; lia]).
    unfold length_t. change 1%N with (N.of_nat 1).
    rewrite size_t_sub_small by lia.
    destruct (N.eqb_spec (N.of_nat (Str.size pre)) (N.of_nat (Str.size (path p) - 1)));
      [lia|].
    rewrite size_t_add_small by (apply size_bound_succ with (path p); [assumption|lia]).
    rewrite substr_t_to_end by (assumption || lia).
    f_equal. rewrite Hp.
    change (pre ++ ch_slash :: name) with (pre ++ [ch_slash] ++ name).
    rewrite app_assoc.
    replace (Str.size pre + 1) with (Str.size (pre ++ [ch_slash]))
      by (unfold Str.size; now rewrite length_app).
    apply skipn_size_app. }
  assert (C3 : forall pre name, path p = pre ++ ch_slash :: name ++ [ch_slash] ->
     ~ In ch_slash name -> getLast p = Returns name).
  { intros pre name Hp Hn. unfold getLast.
    rewrite rfind_t_whole by assumption.
    assert (E1 : path p = (pre ++ ch_slash :: name) ++ [ch_slash])
      by (rewrite Hp, <- app_assoc; reflexivity).
    assert (Hi : Str.last_index ch_slash (path p) = Some (Str.size (pre ++ ch_slash :: name))).
    { rewrite E1. apply last_index_app. tauto. }
    assert (Esz : Str.size (pre ++ ch_slash :: name) = S (Str.size pre + Str.size name)).
    { unfold Str.size. rewrite length_app. simpl. lia. }
    assert (Hsz : Str.size (path p) = S (S (Str.size pre + Str.size name))).
    { rewrite E1. unfold Str.size in *. rewrite length_app, Esz. simpl. lia. }
    rewrite Hi, (found_is_not_npos _ _ _ Hb Hi), Esz.
    unfold length_t. change 1%N with (N.of_nat 1).
    rewrite !size_t_sub_small by lia.
    rewrite Hsz. replace (S (S (Str.size pre + Str.size name)) - 1)
      with (S (Str.size pre + Str.size name)) by lia.
    rewrite N.eqb_refl.
    rewrite rfind_t_at by lia.
    replace (S (Str.size pre + Str.size name) - 1) with (Str.size pre + Str.size name) by lia.
    unfold Str.rfind.
    assert (Hi2 : Str.last_index ch_slash
                    (firstn (S (Str.size pre + Str.size name)) (path p))
                  = Some (Str.size pre)).
    { rewrite <- Esz, E1, firstn_size_app. now apply last_index_app. }
    rewrite Hi2.
    assert (Hi2' : (N.of_nat (Str.size pre) =? npos)%N = false).
    { apply N.eqb_neq. unfold length_t in Hb. lia. }
    rewrite Hi2'.
    rewrite size_t_sub_small by lia.
    change 1%N with (N.of_nat 1). rewrite size_t_sub_small by lia.
    rewrite size_t_add_small by (apply size_bound_succ with (path p); [assumption|lia]).
    rewrite substr_t_count by lia.
    f_equal.
    replace (S (Str.size pre + Str.size name) - Str.size pre - 1) with (Str.size name) by lia.
    rewrite Hp. change (pre ++ ch_slash :: name ++ [ch_slash])
      with (pre ++ [ch_slash] ++ name ++ [ch_slash]).
    rewrite app_assoc.
    replace (Str.size pre + 1) with (Str.size (pre ++ [ch_slash]))
      by (unfold Str.size; now rewrite length_app).
    rewrite skipn_size_app. apply firstn_size_app. }
  assert (C4 : forall name, path p = name ++ [ch_slash] ->
     ~ In ch_slash name -> getLast p = Returns name).
  { intros name Hp Hn. unfold getLast.
    rewrite rfind_t_whole by assumption.
    assert (Hi : Str.last_index ch_slash (path p) = Some (Str.size name)).
    { rewrite Hp. apply last_index_app. tauto. }
    assert (Hsz : Str.size (path p) = S (Str.size name)).
    { rewrite Hp. unfold Str.size. rewrite length_app. simpl. lia. }
    rewrite Hi, (found_is_not_npos _ _ _ Hb Hi).
    unfold length_t. change 1%N with (N.of_nat 1).
    rewrite size_t_sub_small by lia. rewrite Hsz.
    replace (S (Str.size name) - 1) with (Str.size name) by lia.
    rewrite N.eqb_refl.
    destruct name as [|a t].
    - rewrite Hp. reflexivity.
    - set (nm := a :: t) in *.
      assert (Hnm : Str.size nm = S (Str.size t)) by reflexivity.
      rewrite size_t_sub_small by lia.
      rewrite rfind_t_at by lia.
      unfold Str.rfind. replace (S (Str.size nm - 1)) with (Str.size nm) by lia.
      rewrite Hp at 1. rewrite firstn_size_app.
      apply last_index_None in Hn. rewrite Hn. cbn [N.eqb]. rewrite N.eqb_refl.
      change 0%N with (N.of_nat 0). rewrite substr_t_count by lia.
      f_equal. cbn [skipn]. rewrite Hp. apply firstn_size_app. }
  split; [exact C1|]. split; [exact C2|]. split; [exact C3|]. split; [exact C4|].
  destruct (Str.last_index ch_slash (path p)) as [i|] eqn:Ei.
  - destruct (last_index_split _ _ _ Ei) as [Es Hn].
    destruct (skipn (S i) (path p)) as [|a t] eqn:Et.
    + set (pre := firstn i (path p)) in *.
      destruct (Str.last_index ch_slash pre) as [j|] eqn:Ej.
      * destruct (last_index_split _ _ _ Ej) as [Es2 Hn2].
        exists (skipn (S j) pre). apply C3 with (firstn j pre); [|exact Hn2].
        rewrite Es at 1. rewrite Es2 at 1. rewrite <- app_assoc. reflexivity.
      * exists pre. apply C4; [exact Es|]. now apply last_index_None.
    + exists (a :: t). apply C2 with (firstn i (path p)); [exact Es|discriminate|exact Hn].
  - exists (path p). apply C1. now apply last_index_None.
Qed.

Lemma getLast_behaviour_witness :
  (length_t (lit "/a/b/") < npos)%N /\
  getLast (mkPath (lit "/a/b/")) = Returns (lit "b") /\
  getLast (mkPath (lit "/a/b")) = Returns (lit "b") /\
  getLast (mkPath (lit "/")) = Returns [].
Proof.
  assert (Hb : ~ In ch_slash (lit "b")) by now apply not_In_lit.
  split; [reflexivity|]. split; [|split].
  - exact (proj1 (proj2 (proj2 (getLast_behaviour (mkPath (lit "/a/b/")) eq_refl)))
             (lit "/a") (lit "b") eq_refl Hb).
  - refine (proj1 (proj2 (getLast_behaviour (mkPath (lit "/a/b")) eq_refl))
             (lit "/a") (lit "b") eq_refl _ Hb). discriminate.
  - refine (proj1 (proj2 (proj2 (proj2 (getLast_behaviour (mkPath (lit "/")) eq_refl))))
             [] eq_refl _). intros [].
Defined.

(** [getBasename] never throws.  It passes the position of the last dot
    of the whole string as the count of [substr]: the result is the text
    after the last separator, cut to as many characters as that position
    says, and not cut when the string holds no dot.  So the extension is
    removed when the path has no directory part; behind a directory part
    [pre/] the stem comes back with the dot and the first [|pre|]
    characters of the extension. *)
Theorem getBasename_behaviour (p : Path) :
  (length_t (path p) < npos)%N ->
  (forall text, last_component_of (path p) text ->
     getBasename p =
     Returns (match Str.last_index ch_dot (path p) with
              | Some d => firstn d text
              | None => text
              end)) /\
  (forall stem ext, path p = stem ++ ch_dot :: ext ->
     ~ In ch_slash (path p) -> ~ In ch_dot ext ->
     getBasename p = Returns stem) /\
  (forall pre stem ext, suffix_split (path p) pre stem ext ->
     getBasename p = Returns (stem ++ ch_dot :: firstn (Str.size pre) ext)).
Proof.
  intros Hb.
  assert (G : forall text, last_component_of (path p) text ->
     getBasename p =
     Returns (match Str.last_index ch_dot (path p) with
              | Some d => firstn d text
              | None => text
              end)).
  { intros text Ht. unfold getBasename. rewrite !rfind_t_whole by assumption.
    assert (Hstart : exists k, k <= Str.size (path p) /\ skipn k (path p) = text /\
              (if (match Str.last_index ch_slash (path p) with
                   | Some i => N.of_nat i | None => npos end =? npos)%N
               then 0%N
               else size_t_add (match Str.last_index ch_slash (path p) with
                                | Some i => N.of_nat i | None => npos end) 1)
              = N.of_nat k).
    { destruct Ht as [[Hn ->]|[pre [Hp Hn]]].
      - exists 0. apply last_index_None in Hn. rewrite Hn.
        split; [lia|]. split; reflexivity.
      - exists (Str.size pre + 1).
        pose proof (last_index_app ch_slash pre text Hn) as Hi. rewrite <- Hp in Hi.
        rewrite Hi, (found_is_not_npos _ _ _ Hb Hi).
        assert (Hsz : Str.size (path p) = Str.size pre + S (Str.size text)).
        { rewrite Hp. unfold Str.size. rewrite length_app. reflexivity. }
        split; [lia|]. split.
        + rewrite Hp. change (pre ++ ch_slash :: text) with (pre ++ [ch_slash] ++ text).
          rewrite app_assoc.
          replace (Str.size pre + 1) with (Str.size (pre ++ [ch_slash]))
            by (unfold Str.size; now rewrite length_app).
          apply skipn_size_app.
        + change 1%N with (N.of_nat 1). apply size_t_add_small.
          apply size_bound_succ with (path p); [assumption|lia]. }
    destruct Hstart as (k & Hk & Hskip & ->).
    destruct (Str.last_index ch_dot (path p)) as [d|].
    - rewrite substr_t_count by assumption. now rewrite Hskip.
    - rewrite substr_t_to_end by assumption. now rewrite Hskip. }
  split; [exact G|]. split.
  - intros stem ext Hp Hn Hd.
    rewrite (G (path p)) by (left; auto).
    pose proof (last_index_app ch_dot stem ext Hd) as Hi. rewrite <- Hp in Hi.
    rewrite Hi, Hp. now rewrite firstn_size_app.
  - intros pre stem ext Hs.
    destruct (suffix_split_positions _ _ _ _ Hs) as [_ Hdot].
    destruct Hs as (Hp & Hn1 & Hn2 & Hn3).
    rewrite (G (stem ++ ch_dot :: ext)).
    + rewrite Hdot. f_equal.
      replace (Str.size (pre ++ ch_slash :: stem)) with (Str.size stem + S (Str.size pre))
        by (unfold Str.size; rewrite length_app; simpl; lia).
      rewrite firstn_app.
      replace (Str.size stem + S (Str.size pre) - List.length stem) with (S (Str.size pre))
        by (unfold Str.size; lia).
      rewrite firstn_all2 by (unfold Str.size; lia). reflexivity.
    + right. exists pre. split; [exact Hp|].
      rewrite in_app_iff. intros [H|[H|H]]; [tauto | discriminate H | tauto].
Qed.

Lemma getBasename_behaviour_witness :
  (length_t (lit "/dir/stem.extension") < npos)%N /\
  getBasename (mkPath (lit "stem.ext")) = Returns (lit "stem") /\
  getBasename (mkPath (lit "/dir/stem.extension")) = Returns (lit "stem.exte").
Proof.
  split; [reflexivity|]. split.
  - apply (proj1 (proj2 (getBasename_behaviour (mkPath (lit "stem.ext")) eq_refl))
             (lit "stem") (lit "ext") eq_refl); now apply not_In_lit.
  - apply (proj2 (proj2 (getBasename_behaviour (mkPath (lit "/dir/stem.extension")) eq_refl))
             (lit "/dir") (lit "stem") (lit "extension")).
    unfold suffix_split. repeat split; now apply not_In_lit.
Defined.

(* ================================================================= *)
(** ** Signatures and attribute probes *)

Lemma Str_eqb_eq (a b : str) : Str.eqb a b = true <-> a = b.
Proof.
  unfold Str.eqb. destruct (list_eq_dec ascii_dec a b); split; congruence.
Qed.

Lemma Str_eqb_sym (a b : str) : Str.eqb a b = Str.eqb b a.
Proof.
  destruct (Str.eqb a b) eqn:E1, (Str.eqb b a) eqn:E2; try reflexivity.
  - apply Str_eqb_eq in E1. subst. unfold Str.eqb in E2.
    destruct (list_eq_dec ascii_dec b b); congruence.
  - apply Str_eqb_eq in E2. subst. unfold Str.eqb in E1.
    destruct (list_eq_dec ascii_dec a a); congruence.
Qed.

(** Comparing a NUL-free string with the C string in a buffer that holds
    as many bytes followed by a NUL compares it with those bytes. *)
Lemma c_str_buffer_eq (got Magic rest : str) :
  Str.size got = Str.size Magic -> ~ In zero Magic ->
  (c_str (got ++ zero :: rest) = Magic <-> got = Magic).
Proof.
  revert Magic. induction got as [|a g IH]; intros [|m M'] Hsz Hz;
    try discriminate Hsz.
  - cbn. tauto.
  - cbn [app c_str]. destruct (Ascii.eqb_spec a zero) as [->|Ha].
    + split; [discriminate|]. intros E. injection E as <- _.
      exfalso. apply Hz. now left.
    + assert (Hsz' : Str.size g = Str.size M') by (unfold Str.size in *; cbn in Hsz; lia).
      assert (Hz' : ~ In zero M') by (intros H; apply Hz; now right).
      specialize (IH M' Hsz' Hz'). split.
      * intros E. injection E as <- E. f_equal. now apply IH.
      * intros E. injection E as <- E. f_equal. now apply IH.
Qed.

Lemma mod2_even (a : nat) : (a mod 2 =? 0) = Nat.even a.
Proof.
  destruct (Nat.even a) eqn:E.
  - apply Nat.even_spec in E as [k ->]. rewrite Nat.mul_comm.
    now rewrite Nat.Div0.mod_mul.
  - assert (Ho : Nat.odd a = true) by (rewrite <- Nat.negb_even; now rewrite E).
    apply Nat.odd_spec in Ho as [k ->].
    rewrite Nat.add_comm, (Nat.mul_comm 2 k), Nat.Div0.mod_add. reflexivity.
Qed.

Section ProbeFacts.

Variable fs : str -> option nat.
Variable open : str -> file_source.
Variable junk : nat -> ascii.

Lemma hasMagicNumber_long_file (Magic bytes : str) (self : Path) :
  open (c_str (path self)) = Contents bytes ->
  Str.size Magic <= Str.size bytes ->
  ~ In zero Magic ->
  hasMagicNumber open junk Magic self = Str.eqb (firstn (Str.size Magic) bytes) Magic.
Proof.
  intros Ho Hlen Hz. unfold hasMagicNumber. rewrite Ho.
  unfold ifstream_open, ifstream_read. cbn [badbit failbit eofbit pending faulty orb].
  set (len := Str.size Magic) in *. set (got := firstn len bytes).
  assert (Hgot : Str.size got = len).
  { unfold got, Str.size in *. rewrite length_firstn. lia. }
  rewrite Hgot, Nat.ltb_irrefl.
  assert (Hbuf : firstn len (got ++ skipn len (alloca junk (len + 1))) = got).
  { rewrite <- Hgot at 1. apply firstn_size_app. }
  rewrite Hbuf.
  destruct (Str.eqb got Magic) eqn:E.
  - apply Str_eqb_eq. apply Str_eqb_eq in E. symmetry.
    now apply c_str_buffer_eq.
  - destruct (Str.eqb Magic _) eqn:E'; [|reflexivity].
    apply Str_eqb_eq in E'. symmetry in E'.
    apply c_str_buffer_eq in E'; auto.
    subst got. rewrite E' in E. unfold Str.eqb in E.
    destruct (list_eq_dec ascii_dec Magic Magic); congruence.
Qed.

(** On a file that opens and holds at least as many bytes as the
    signature, [hasMagicNumber] is true exactly when the file starts with
    the signature, provided the signature holds no NUL.  With an empty
    signature it is true whatever the file, even one that cannot be
    opened. *)
Theorem hasMagicNumber_behaviour (Magic : str) (self : Path) :
  (forall bytes,
     open (c_str (path self)) = Contents bytes ->
     Str.size Magic <= Str.size bytes -> ~ In zero Magic ->
     (hasMagicNumber open junk Magic self = true
      <-> exists rest, bytes = Magic ++ rest)) /\
  hasMagicNumber open junk [] self = true.
Proof.
  split.
  - intros bytes Ho Hlen Hz.
    rewrite (hasMagicNumber_long_file Magic bytes self Ho Hlen Hz), Str_eqb_eq.
    split.
    + intros E. exists (skipn (Str.size Magic) bytes).
      rewrite <- E at 1. symmetry. apply firstn_skipn.
    + intros [rest ->]. apply firstn_size_app.
  - unfold hasMagicNumber. cbn [Str.size List.length].
    destruct (ifstream_read _ _ 0) as [f buf]. reflexivity.
Qed.

(** [isArchive] is false on a path that is not readable; on a readable
    file of at least eight bytes it is true exactly when the file starts
    with the archive signature. *)
Theorem isArchive_behaviour (self : Path) :
  (readable fs self = false -> isArchive fs open junk self = false) /\
  (forall bytes,
     readable fs self = true ->
     open (c_str (path self)) = Contents bytes -> 8 <= Str.size bytes ->
     (isArchive fs open junk self = true
      <-> exists rest, bytes = lit "!<arch>" ++ ascii_of_nat 10 :: rest)).
Proof.
  unfold isArchive. split.
  - now intros ->.
  - intros bytes -> Ho Hlen.
    rewrite (hasMagicNumber_long_file (lit "!<arch>" ++ [ascii_of_nat 10]) bytes self Ho Hlen)
      by (now apply not_In_lit).
    rewrite Str_eqb_eq. change (Str.size _) with 8. split.
    + intros E. exists (skipn 8 bytes). rewrite <- (firstn_skipn 8 bytes) at 1.
      now rewrite E.
    + intros [rest ->]. reflexivity.
Qed.

(** On a file that opens and holds at least four bytes, [isBytecodeFile]
    returns what [hasMagicNumber] answers for the two bytecode tags. *)
Theorem isBytecodeFile_agrees_with_hasMagicNumber
    (u1 u2 u3 : ascii) (bytes : str) (self : Path) :
  open (c_str (path self)) = Contents bytes ->
  4 <= Str.size bytes ->
  isBytecodeFile open u1 u2 u3 self =
  Returns (hasMagicNumber open junk (lit "llvc") self
           || hasMagicNumber open junk (lit "llvm") self).
Proof.
  intros Ho Hlen.
  rewrite !(hasMagicNumber_long_file _ bytes self Ho) by (auto; now apply not_In_lit).
  unfold isBytecodeFile. rewrite Ho.
  destruct bytes as [|a [|b [|c [|d r]]]]; cbn in Hlen; try lia.
  reflexivity.
Qed.

(** [exists], [readable] and [executable] are one and the same probe;
    [writable] holds exactly when the file exists and the read-only bit,
    the lowest bit of its attributes, is clear, so a writable path is
    readable. *)
Theorem probes_agree (self : Path) :
  exists_ fs self = readable fs self /\
  executable fs self = readable fs self /\
  (forall attr, fs (c_str (path self)) = Some attr ->
     readable fs self = true /\ writable fs self = Nat.even attr) /\
  (fs (c_str (path self)) = None ->
     readable fs self = false /\ writable fs self = false) /\
  (writable fs self = true -> readable fs self = true).
Proof.
  unfold exists_, executable, readable, writable.
  split; [reflexivity|]. split; [reflexivity|]. split; [|split].
  - intros attr ->. split; [reflexivity|].
    rewrite negb_involutive. unfold FILE_ATTRIBUTE_READONLY.
    change 1 with (Nat.ones 1). rewrite Nat.land_ones.
    change (2 ^ 1) with 2. apply mod2_even.
  - now intros ->.
  - destruct (fs (c_str (path self))); [reflexivity | discriminate].
Qed.

End ProbeFacts.

Lemma hasMagicNumber_behaviour_witness :
  hasMagicNumber (fun _ => Contents (lit "!<arch>.rest")) (fun _ => "x"%char)
    (lit "!<arch>") (mkPath (lit "/a/lib.a")) = true.
Proof.
  apply (proj1 (hasMagicNumber_behaviour (fun _ => Contents (lit "!<arch>.rest"))
                  (fun _ => "x"%char) (lit "!<arch>") (mkPath (lit "/a/lib.a")))
           (lit "!<arch>.rest") eq_refl).
  - cbv. lia.
  - now apply not_In_lit.
  - now exists (lit ".rest").
Defined.

Lemma isArchive_behaviour_witness :
  isArchive (fun _ => None) (fun _ => Contents (lit "!<arch>.rest")) (fun _ => "x"%char)
    (mkPath (lit "/a/lib.a")) = false /\
  isArchive (fun _ => Some 0) (fun _ => Contents (lit "!<arch.rest"))
    (fun _ => "x"%char) (mkPath (lit "/a/lib.a")) = false.
Proof.
  split.
  - exact (proj1 (isArchive_behaviour (fun _ => None)
             (fun _ => Contents (lit "!<arch>.rest")) (fun _ => "x"%char)
             (mkPath (lit "/a/lib.a"))) eq_refl).
  - destruct (isArchive (fun _ => Some 0) (fun _ => Contents (lit "!<arch.rest"))
                (fun _ => "x"%char) (mkPath (lit "/a/lib.a"))) eqn:E; [|reflexivity].
    apply (proj2 (isArchive_behaviour (fun _ => Some 0)
             (fun _ => Contents (lit "!<arch.rest")) (fun _ => "x"%char)
             (mkPath (lit "/a/lib.a"))) (lit "!<arch.rest") eq_refl eq_refl) in E.
    + destruct E as [rest E]. discriminate E.
    + cbv. lia.
Defined.

Lemma isBytecodeFile_agrees_with_hasMagicNumber_witness :
  isBytecodeFile (fun _ => Contents (lit "llvc1234")) zero zero zero (mkPath (lit "/a/f.bc"))
  = Returns (hasMagicNumber (fun _ => Contents (lit "llvc1234")) (fun _ => zero)
               (lit "llvc") (mkPath (lit "/a/f.bc"))
             || hasMagicNumber (fun _ => Contents (lit "llvc1234")) (fun _ => zero)
               (lit "llvm") (mkPath (lit "/a/f.bc"))).
Proof.
  apply (isBytecodeFile_agrees_with_hasMagicNumber
           (fun _ => Contents (lit "llvc1234")) (fun _ => zero) zero zero zero
           (lit "llvc1234") (mkPath (lit "/a/f.bc")) eq_refl).
  cbv. lia.
Defined.

Lemma probes_agree_witness :
  writable (fun _ => Some 33) (mkPath (lit "/a/f")) = false /\
  writable (fun _ => Some 32) (mkPath (lit "/a/f")) = true /\
  readable (fun _ => Some 32) (mkPath (lit "/a/f")) = true.
Proof.
  split; [|split].
  - exact (proj2 (proj1 (proj2 (proj2 (probes_agree (fun _ => Some 33)
             (mkPath (lit "/a/f"))))) 33 eq_refl)).
  - exact (proj2 (proj1 (proj2 (proj2 (probes_agree (fun _ => Some 32)
             (mkPath (lit "/a/f"))))) 32 eq_refl)).
  - exact (proj2 (proj2 (proj2 (proj2 (probes_agree (fun _ => Some 32)
             (mkPath (lit "/a/f")))))) eq_refl).
Defined.

(* ================================================================= *)
(** ** What the library search returns *)

Section SearchFacts.

Variable fs : str -> option nat.

Lemma andM_query_true (m : M bool) (f : Path -> bool) (p r : Path) :
  (m &&& query f) p = (true, r) -> m p = (true, r) /\ f r = true.
Proof.
  unfold andM. rewrite bind_run. destruct (m p) as [[|] p']; cbn [fst snd].
  - unfold query. intros E. injection E as E1 E2. subst. auto.
  - discriminate.
Qed.

Lemma andM_true (a b : M bool) (p r : Path) :
  (a &&& b) p = (true, r) -> exists p', a p = (true, p') /\ b p' = (true, r).
Proof.
  unfold andM. rewrite bind_run. destruct (a p) as [[|] p']; cbn [fst snd].
  - intros E. now exists p'.
  - discriminate.
Qed.

Lemma ifM_true (c e : M bool) (p r : Path) :
  ifM c (ret true) e p = (true, r) ->
  c p = (true, r) \/ exists p', e p' = (true, r).
Proof.
  unfold ifM. rewrite bind_run. destruct (c p) as [[|] p']; cbn [fst snd].
  - unfold ret. intros E. injection E as <-. now left.
  - intros E. right. now exists p'.
Qed.

(** A probe that answers true has just committed a suffix and found the
    result readable. *)
Lemma suffix_probe_true (m : M bool) (x : str) (p r : Path) :
  ((m &&& appendSuffix x) &&& query (readable fs)) p = (true, r) ->
  (exists p', appendSuffix x p' = (true, r)) /\ readable fs r = true.
Proof.
  intros H. apply andM_query_true in H as [H Hr]. split; [|exact Hr].
  apply andM_true in H as (p' & _ & H). now exists p'.
Qed.

Lemma try_suffixes_true (p r : Path) :
  try_suffixes fs p = (true, r) ->
  (exists x p', In x [GetDLLSuffix; lit "a"; lit "o"; lit "bc"] /\
                appendSuffix x p' = (true, r)) /\
  readable fs r = true.
Proof.
  unfold try_suffixes. intros H.
  apply ifM_true in H as [H|[p1 H]].
  { apply andM_query_true in H as [H Hr]. split; [|exact Hr].
    exists GetDLLSuffix, p. split; [cbn; tauto | exact H]. }
  apply ifM_true in H as [H|[p2 H]].
  { apply suffix_probe_true in H as [[p' H] Hr]. split; [|exact Hr].
    exists (lit "a"), p'. split; [cbn; tauto | exact H]. }
  apply ifM_true in H as [H|[p3 H]].
  { apply suffix_probe_true in H as [[p' H] Hr]. split; [|exact Hr].
    exists (lit "o"), p'. split; [cbn; tauto | exact H]. }
  apply ifM_true in H as [H|[p4 H]].
  { apply suffix_probe_true in H as [[p' H] Hr]. split; [|exact Hr].
    exists (lit "bc"), p'. split; [cbn; tauto | exact H]. }
  discriminate H.
Qed.

Lemma try_suffixes_found (p r : Path) :
  try_suffixes fs p = (true, r) -> library_found fs r.
Proof.
  intros H. apply try_suffixes_true in H as [(x & p' & Hx & Ha) Hr].
  assert (Hs : ~ In ch_slash x).
  { cbn in Hx. destruct Hx as [<-|[<-|[<-|[<-|[]]]]]; now apply not_In_lit. }
  pose proof (appendSuffix_leaves_file x p' r Ha Hs) as Hf.
  split; [|split; [exact Hf|exact Hr]].
  unfold isFile in Hf. now apply andb_true_iff in Hf as [Hv _].
Qed.

Lemma IsLibrary_outcome (basename : str) (p r : Path) (ok : bool) :
  IsLibrary fs basename p = (ok, r) ->
  (ok = true /\ library_found fs r) \/ (ok = false /\ r = mkPath []).
Proof.
  unfold IsLibrary. rewrite bind_run.
  destruct (ifM (appendFile (lit "lib" ++ basename)) (try_suffixes fs)
              (ifM (elideFile &&& appendFile basename) (try_suffixes fs) (ret false)) p)
    as [[|] r'] eqn:E; cbn [fst snd].
  - unfold ret. intros H. injection H as <- <-. left. split; [reflexivity|].
    unfold ifM in E. rewrite bind_run in E.
    destruct (fst (appendFile (lit "lib" ++ basename) p)).
    + now apply try_suffixes_found in E.
    + rewrite bind_run in E. destruct (fst ((elideFile &&& appendFile basename) _)).
      * now apply try_suffixes_found in E.
      * discriminate E.
  - unfold clear, set_path, ret, bind. intros H. injection H as <- <-. now right.
Qed.

Variable basename : str.

Lemma attempt_outcome (dir : str) (p : Path) :
  match probe_directory fs basename dir with
  | Some r => (setDirectory dir &&& IsLibrary fs basename) p = (true, r)
  | None => fst ((setDirectory dir &&& IsLibrary fs basename) p) = false
  end.
Proof.
  unfold probe_directory, andM. rewrite !bind_run, !setDirectory_eq.
  destruct (Str.empty dir); [reflexivity|].
  destruct (isValid (mkPath (setDirectory_candidate dir))); [|reflexivity].
  cbn [fst snd].
  destruct (IsLibrary fs basename (mkPath (setDirectory_candidate dir))) as [[|] r];
    reflexivity.
Qed.

Lemma probe_directory_found (dir : str) (r : Path) :
  probe_directory fs basename dir = Some r -> library_found fs r.
Proof.
  unfold probe_directory, andM. rewrite bind_run.
  destruct (fst (setDirectory dir Path_default)); [|discriminate].
  destruct (IsLibrary fs basename _) as [ok r'] eqn:E.
  destruct ok; [|discriminate]. intros H. injection H as <-.
  apply IsLibrary_outcome in E as [[_ H]|[H _]]; [exact H | discriminate H].
Qed.

Lemma try_LibPaths_outcome (LibPaths : list str) (p : Path) :
  match first_found (map (probe_directory fs basename) LibPaths) with
  | Some r => try_LibPaths fs basename LibPaths p = (true, r)
  | None => fst (try_LibPaths fs basename LibPaths p) = false
  end.
Proof.
  revert p. induction LibPaths as [|dir rest IH]; intros p; [reflexivity|].
  cbn [map first_found try_LibPaths]. unfold ifM. rewrite bind_run.
  pose proof (attempt_outcome dir p) as Ha.
  destruct (probe_directory fs basename dir) as [r|].
  - now rewrite Ha.
  - rewrite Ha. apply IH.
Qed.

Lemma first_found_app (a b : list (option Path)) :
  first_found (a ++ b) =
  match first_found a with Some r => Some r | None => first_found b end.
Proof.
  induction a as [|[r|] a IH]; cbn; auto.
Qed.

Lemma GetLibraryPath_eq_first_found (LibPaths : list str) :
  GetLibraryPath fs basename LibPaths =
  match first_found (map (probe_directory fs basename)
                         (LibPaths ++ [lit "/usr/lib/"; lit "/lib/"])) with
  | Some r => r
  | None => mkPath []
  end.
Proof.
  rewrite map_app, first_found_app. unfold GetLibraryPath, ifM.
  rewrite bind_run.
  pose proof (try_LibPaths_outcome LibPaths Path_default) as Ht.
  destruct (first_found (map (probe_directory fs basename) LibPaths)) as [r|].
  - now rewrite Ht.
  - rewrite Ht. cbn [map first_found]. rewrite bind_run.
    pose proof (attempt_outcome (lit "/usr/lib/")
                  (snd (try_LibPaths fs basename LibPaths Path_default))) as H1.
    destruct (probe_directory fs basename (lit "/usr/lib/")) as [r|].
    + now rewrite H1.
    + rewrite H1. rewrite bind_run.
      match goal with
      | |- context [(setDirectory (lit "/lib/") &&& _) ?q] =>
          pose proof (attempt_outcome (lit "/lib/") q) as H2
      end.
      destruct (probe_directory fs basename (lit "/lib/")) as [r|].
      * now rewrite H2.
      * now rewrite H2.
Qed.

(** [GetLibraryPath] returns what the first successful directory gives,
    taking the caller's directories in order, then [/usr/lib/], then
    [/lib/]; an attempt on one directory does not depend on the attempts
    before it; when no directory succeeds the result is the empty Path. *)
Theorem GetLibraryPath_first_directory (LibPaths : list str) :
  GetLibraryPath fs basename LibPaths =
  match first_found (map (probe_directory fs basename)
                         (LibPaths ++ [lit "/usr/lib/"; lit "/lib/"])) with
  | Some r => r
  | None => mkPath []
  end.
Proof. apply GetLibraryPath_eq_first_found. Qed.

(** Whatever the file system, the name and the directories,
    [GetLibraryPath] returns the empty Path or a valid file-mode path that
    the file system reports readable. *)
Theorem GetLibraryPath_sound (LibPaths : list str) :
  GetLibraryPath fs basename LibPaths = mkPath [] \/
  library_found fs (GetLibraryPath fs basename LibPaths).
Proof.
  rewrite GetLibraryPath_eq_first_found.
  set (attempts := map _ _).
  assert (H : forall r, first_found attempts = Some r ->
                        exists dir, probe_directory fs basename dir = Some r).
  { unfold attempts. generalize (LibPaths ++ [lit "/usr/lib/"; lit "/lib/"]).
    intros l. induction l as [|d l IH]; cbn; [discriminate|].
    intros r. destruct (probe_directory fs basename d) as [r'|] eqn:E.
    - intros E'. injection E' as <-. now exists d.
    - apply IH. }
  destruct (first_found attempts) as [r|]; [|now left].
  right. destruct (H r eq_refl) as [dir Hd].
  now apply probe_directory_found with dir.
Qed.

End SearchFacts.

(* ================================================================= *)
(** ** The order of the probes *)

Lemma valid_string_app (f t' : str) (y : ascii) :
  valid_string f ->
  (forall c, In c (t' ++ [y]) -> illegal c = false /\ c <> ch_colon) ->
  y <> ch_dot -> y <> ch_space -> y <> ch_slash ->
  valid_string (f ++ t' ++ [y]).
Proof.
  intros (Hne & Hcol & Hill & _) Ht Hy1 Hy2 Hy3.
  assert (Hend : forall q z, f ++ t' ++ [y] = q ++ [z] -> z = y).
  { intros q z E. rewrite app_assoc in E. now apply app_inj_tail in E as [_ ->]. }
  split; [|split; [|split; [|split; [|split; [|split]]]]].
  - destruct f; [congruence | discriminate].
  - intros i Hi.
    destruct (Nat.lt_ge_cases i (List.length f)) as [Hlt|Hge].
    + rewrite nth_error_app1 in Hi by assumption.
      destruct (Hcol i Hi) as (-> & Ha & Hl). split; [reflexivity|].
      split.
      * rewrite at_app_l; [exact Ha | unfold Str.size; lia].
      * unfold Str.size in *. rewrite length_app. lia.
    + rewrite nth_error_app2 in Hi by assumption.
      apply nth_error_In in Hi. now destruct (Ht _ Hi) as [_ Hc].
  - intros c Hc. apply in_app_or in Hc as [Hc|Hc]; [now apply Hill|].
    now destruct (Ht _ Hc).
  - intros q E. apply Hend in E. congruence.
  - intros q E. change (q ++ [ch_dot; ch_slash]) with (q ++ [ch_dot] ++ [ch_slash]) in E.
    rewrite (app_assoc q) in E. apply Hend in E. congruence.
  - intros q E. apply Hend in E. congruence.
  - intros q E. change (q ++ [ch_space; ch_slash]) with (q ++ [ch_space] ++ [ch_slash]) in E.
    rewrite (app_assoc q) in E. apply Hend in E. congruence.
Qed.

(** The four suffixes of the search are made of letters. *)
Lemma search_suffix_plain (x : str) :
  In x [GetDLLSuffix; lit "a"; lit "o"; lit "bc"] ->
  (exists x' y, x = x' ++ [y] /\ y <> ch_dot /\ y <> ch_space /\ y <> ch_slash) /\
  (forall c, In c (ch_dot :: x) -> illegal c = false /\ c <> ch_colon) /\
  ~ In ch_slash x /\ ~ In ch_dot x.
Proof.
  intros Hx. cbn in Hx.
  assert (Hc : forall l : str,
             forallb (fun c => negb (illegal c) && negb (Ascii.eqb c ch_colon)) l = true ->
             forall c, In c l -> illegal c = false /\ c <> ch_colon).
  { intros l Hl c Hin. rewrite forallb_forall in Hl. specialize (Hl c Hin).
    apply andb_true_iff in Hl as [H1 H2].
    apply negb_true_iff in H1. apply negb_true_iff in H2.
    split; [exact H1 | now apply Ascii.eqb_neq]. }
  destruct Hx as [<-|[<-|[<-|[<-|[]]]]].
  - split; [exists (lit "dl"), "l"%char; repeat split; discriminate|].
    split; [now apply Hc|]. split; now apply not_In_lit.
  - split; [exists [], "a"%char; repeat split; discriminate|].
    split; [now apply Hc|]. split; now apply not_In_lit.
  - split; [exists [], "o"%char; repeat split; discriminate|].
    split; [now apply Hc|]. split; now apply not_In_lit.
  - split; [exists (lit "b"), "c"%char; repeat split; discriminate|].
    split; [now apply Hc|]. split; now apply not_In_lit.
Qed.

Section ProbeOrder.

Variable fs : str -> option nat.

(** [f] is a file-mode path that holds a separator, as every path built
    under a directory does. *)
Variable f : Path.
Hypothesis f_file : isFile f = true.
Hypothesis f_slash : In ch_slash (path f).

Lemma probe_append (x : str) :
  In x [GetDLLSuffix; lit "a"; lit "o"; lit "bc"] ->
  appendSuffix x f = (true, mkPath (path f ++ ch_dot :: x)).
Proof.
  intros Hx. destruct (search_suffix_plain x Hx) as ((x' & y & -> & Hy1 & Hy2 & Hy3) & Hc & _).
  rewrite appendSuffix_eq, (isFile_not_isDirectory f f_file).
  assert (Hv : isValid (mkPath (path f ++ ch_dot :: x' ++ [y])) = true).
  { apply isValid_valid_string. cbn [path].
    change (ch_dot :: x' ++ [y]) with ((ch_dot :: x') ++ [y]).
    apply valid_string_app; auto.
    apply isValid_valid_string. unfold isFile in f_file.
    now apply andb_true_iff in f_file as [Hv _]. }
  now rewrite Hv.
Qed.

Lemma probe_elide (x : str) :
  In x [GetDLLSuffix; lit "a"; lit "o"; lit "bc"] ->
  elideSuffix (mkPath (path f ++ ch_dot :: x)) = (true, f).
Proof.
  intros Hx. destruct (search_suffix_plain x Hx) as (_ & _ & Hs & Hd).
  destruct (Str.last_index ch_slash (path f)) as [i|] eqn:Ei.
  2:{ apply last_index_None in Ei. contradiction. }
  destruct (last_index_split _ _ _ Ei) as [Es Hn].
  set (pre := firstn i (path f)) in *. set (mid := skipn (S i) (path f)) in *.
  rewrite <- (Path_eta f) at 2. rewrite Es at 2.
  apply elideSuffix_on_split with (suf := x).
  - apply not_isDirectory_tail with (a := path f) (t := ch_dot :: x);
      [reflexivity | discriminate |].
    intros [H|H]; [discriminate H | tauto].
  - unfold suffix_split. cbn [path]. rewrite Es at 1. rewrite <- app_assoc.
    cbn [app]. tauto.
Qed.

Lemma try_suffixes_priority :
  try_suffixes fs f =
  match find (readable fs)
             (map (fun x => mkPath (path f ++ ch_dot :: x))
                  [GetDLLSuffix; lit "a"; lit "o"; lit "bc"]) with
  | Some c => (true, c)
  | None => (false, mkPath (path f ++ ch_dot :: lit "bc"))
  end.
Proof.
  assert (A : forall x, In x [GetDLLSuffix; lit "a"; lit "o"; lit "bc"] ->
                        appendSuffix x f = (true, mkPath (path f ++ ch_dot :: x)))
    by apply probe_append.
  assert (B : forall x, In x [GetDLLSuffix; lit "a"; lit "o"; lit "bc"] ->
                        elideSuffix (mkPath (path f ++ ch_dot :: x)) = (true, f))
    by apply probe_elide.
  unfold try_suffixes, ifM, andM, query, ret. cbn [map find].
  rewrite !bind_run, (A GetDLLSuffix) by (cbn; tauto). cbn [fst snd].
  destruct (readable fs (mkPath (path f ++ ch_dot :: GetDLLSuffix))); [reflexivity|].
  cbn [fst snd].
  rewrite !bind_run, (B GetDLLSuffix) by (cbn; tauto). cbn [fst snd].
  rewrite (A (lit "a")) by (cbn; tauto). cbn [fst snd].
  destruct (readable fs (mkPath (path f ++ ch_dot :: lit "a"))); [reflexivity|].
  cbn [fst snd].
  rewrite !bind_run, (B (lit "a")) by (cbn; tauto). cbn [fst snd].
  rewrite (A (lit "o")) by (cbn; tauto). cbn [fst snd].
  destruct (readable fs (mkPath (path f ++ ch_dot :: lit "o"))); [reflexivity|].
  cbn [fst snd].
  rewrite !bind_run, (B (lit "o")) by (cbn; tauto). cbn [fst snd].
  rewrite (A (lit "bc")) by (cbn; tauto). cbn [fst snd].
  destruct (readable fs (mkPath (path f ++ ch_dot :: lit "bc"))); reflexivity.
Qed.

End ProbeOrder.

Section SearchOrder.

Variable fs : str -> option nat.
Variable basename : str.

Lemma library_candidates_eq (d : Path) :
  library_candidates (path d) basename =
  map (fun x => mkPath (path (mkPath (path d ++ lit "lib" ++ basename)) ++ ch_dot :: x))
      [GetDLLSuffix; lit "a"; lit "o"; lit "bc"].
Proof.
  unfold library_candidates. apply map_ext. intros x. cbn [path].
  now rewrite <- !app_assoc.
Qed.

Lemma IsLibrary_first_readable (d : Path) :
  isDirectory d = true ->
  isFile (mkPath (path d ++ lit "lib" ++ basename)) = true ->
  IsLibrary fs basename d =
  match find (readable fs) (library_candidates (path d) basename) with
  | Some c => (true, c)
  | None => (false, mkPath [])
  end.
Proof.
  intros Hd Hf. unfold IsLibrary, ifM. rewrite !bind_run, appendFile_eq, Hd.
  assert (Hv : isValid (mkPath (path d ++ lit "lib" ++ basename)) = true).
  { unfold isFile in Hf. now apply andb_true_iff in Hf as [Hv _]. }
  rewrite Hv. cbn [fst snd].
  assert (Hs : In ch_slash (path (mkPath (path d ++ lit "lib" ++ basename)))).
  { apply isDirectory_inv in Hd as [_ [q Hq]]. cbn [path]. rewrite Hq.
    apply in_or_app. left. apply in_or_app. right. now left. }
  rewrite (try_suffixes_priority fs _ Hf Hs), library_candidates_eq.
  now destruct (find _ _).
Qed.

Lemma probe_directory_plain (dir : str) :
  plain_directory dir ->
  isFile (mkPath (dir ++ lit "lib" ++ basename)) = true ->
  probe_directory fs basename dir =
  find (readable fs) (library_candidates dir basename).
Proof.
  intros [Hset Hd] Hf. unfold probe_directory, andM.
  rewrite bind_run, Hset. cbn [fst snd].
  rewrite (IsLibrary_first_readable (mkPath dir) Hd Hf). cbn [path].
  now destruct (find _ _).
Qed.

Lemma find_app (g : Path -> bool) (a b : list Path) :
  find g (a ++ b) = match find g a with Some x => Some x | None => find g b end.
Proof.
  induction a as [|x a IH]; [reflexivity|]. cbn. now destruct (g x).
Qed.

Lemma first_found_flat_map (dirs : list str) :
  (forall dir, In dir dirs ->
     plain_directory dir /\ isFile (mkPath (dir ++ lit "lib" ++ basename)) = true) ->
  first_found (map (probe_directory fs basename) dirs) =
  find (readable fs) (flat_map (fun dir => library_candidates dir basename) dirs).
Proof.
  induction dirs as [|dir rest IH]; intros H; [reflexivity|].
  cbn [map first_found flat_map]. rewrite find_app.
  destruct (H dir (or_introl eq_refl)) as [Hp Hf].
  rewrite (probe_directory_plain dir Hp Hf).
  destruct (find _ (library_candidates dir basename)); [reflexivity|].
  apply IH. intros d Hin. apply H. now right.
Qed.

(** In a directory-mode path [d] under which [lib<basename>] is a valid
    file name, [IsLibrary] answers with the first readable one of
    [d/lib<basename>.dll], [.a], [.o], [.bc], in this order; when none is
    readable it reports failure and leaves the Path empty. *)
Theorem IsLibrary_priority (d : Path) :
  isDirectory d = true ->
  isFile (mkPath (path d ++ lit "lib" ++ basename)) = true ->
  IsLibrary fs basename d =
  match find (readable fs) (library_candidates (path d) basename) with
  | Some c => (true, c)
  | None => (false, mkPath [])
  end.
Proof. apply IsLibrary_first_readable. Qed.

(** When every directory searched (the caller's, then [/usr/lib/] and
    [/lib/]) is a plain directory string under which [lib<basename>] is a
    valid file name, [GetLibraryPath] returns the first readable candidate,
    going through the directories in order and, within each, through the
    suffixes [dll], [a], [o], [bc]; it returns the empty Path when no
    candidate is readable. *)
Theorem GetLibraryPath_priority (LibPaths : list str) :
  (forall dir, In dir (LibPaths ++ [lit "/usr/lib/"; lit "/lib/"]) ->
     plain_directory dir /\ isFile (mkPath (dir ++ lit "lib" ++ basename)) = true) ->
  GetLibraryPath fs basename LibPaths =
  match find (readable fs)
             (flat_map (fun dir => library_candidates dir basename)
                       (LibPaths ++ [lit "/usr/lib/"; lit "/lib/"])) with
  | Some c => c
  | None => mkPath []
  end.
Proof.
  intros H. rewrite GetLibraryPath_eq_first_found.
  now rewrite (first_found_flat_map _ H).
Qed.

End SearchOrder.

Lemma IsLibrary_priority_witness :
  isDirectory (mkPath (lit "/x/")) = true /\
  IsLibrary (only_file (lit "/x/libfoo.o")) (lit "foo") (mkPath (lit "/x/"))
    = (true, mkPath (lit "/x/libfoo.o")).
Proof.
  split; [reflexivity|].
  exact (IsLibrary_priority (only_file (lit "/x/libfoo.o")) (lit "foo")
           (mkPath (lit "/x/")) eq_refl eq_refl).
Defined.

Lemma GetLibraryPath_priority_witness :
  GetLibraryPath (only_file (lit "/usr/lib/libfoo.a")) (lit "foo") [lit "/x/"]
    = mkPath (lit "/usr/lib/libfoo.a").
Proof.
  apply (GetLibraryPath_priority (only_file (lit "/usr/lib/libfoo.a")) (lit "foo")
           [lit "/x/"]).
  intros dir Hin. cbn in Hin.
  destruct Hin as [<-|[<-|[<-|[]]]]; split; try reflexivity; split; reflexivity.
Defined.

(* ================================================================= *)
(** ** Well-known locations *)

(** [GetUserHomeDirectory] always returns a valid path.  When [HOME] is set
    and [setDirectory] accepts it on a fresh path, the result is the path
    set from it, and not the root; when [HOME] is not set, is empty, or is
    refused by [setDirectory], the result is the root directory [/] of
    [GetRootDirectory]. *)
Theorem GetUserHomeDirectory_valid (home : option str) :
  isValid (GetUserHomeDirectory home) = true /\
  (forall h r, home = Some h -> setDirectory h Path_default = (true, r) ->
     GetUserHomeDirectory home = r) /\
  (forall h, home = Some h -> fst (setDirectory h Path_default) = false ->
     GetUserHomeDirectory home = mkPath [ch_slash]) /\
  GetUserHomeDirectory None = mkPath [ch_slash] /\
  GetUserHomeDirectory (Some []) = mkPath [ch_slash] /\
  isDirectory (GetUserHomeDirectory None) = true.
Proof.
  assert (Hroot : GetRootDirectory = mkPath [ch_slash]) by reflexivity.
  split; [|split; [|split; [|repeat split]]].
  - destruct home as [h|]; [|reflexivity]. unfold GetUserHomeDirectory.
    rewrite setDirectory_eq. destruct (Str.empty h); [reflexivity|].
    destruct (isValid (mkPath (setDirectory_candidate h))) eqn:Hv;
      [exact Hv | reflexivity].
  - intros h r -> E. unfold GetUserHomeDirectory. now rewrite E.
  - intros h -> E. unfold GetUserHomeDirectory.
    destruct (setDirectory h Path_default) as [ok r]. cbn [fst] in E.
    subst ok. exact Hroot.
Qed.

Lemma GetUserHomeDirectory_valid_witness :
  GetUserHomeDirectory (Some (lit "C:\Users\me")) = mkPath (lit "C:/Users/me/") /\
  GetUserHomeDirectory (Some (lit "C:\Users\<me>")) = mkPath (lit "/").
Proof.
  split.
  - exact (proj1 (proj2 (GetUserHomeDirectory_valid (Some (lit "C:\Users\me"))))
             (lit "C:\Users\me") (mkPath (lit "C:/Users/me/")) eq_refl eq_refl).
  - exact (proj1 (proj2 (proj2 (GetUserHomeDirectory_valid (Some (lit "C:\Users\<me>")))))
             (lit "C:\Users\<me>") eq_refl eq_refl).
Defined.

(* ================================================================= *)
(** ** Creating directories *)

Lemma strchr_found (b1 r : str) (c : ascii) :
  ~ In zero b1 -> ~ In c b1 -> strchr (b1 ++ c :: r) c = Some (Str.size b1).
Proof.
  induction b1 as [|x b IH]; intros Hz Hc; cbn [app strchr].
  - now rewrite Ascii.eqb_refl.
  - assert (Hx : Ascii.eqb x c = false).
    { apply Ascii.eqb_neq. intros ->. apply Hc. now left. }
    assert (Hx0 : Ascii.eqb x zero = false).
    { apply Ascii.eqb_neq. intros ->. apply Hz. now left. }
    rewrite Hx, Hx0, IH; [reflexivity | |];
      intros H; [apply Hz | apply Hc]; now right.
Qed.

Lemma strchr_bound (s : str) (c : ascii) (k : nat) :
  strchr s c = Some k -> k < Str.size s /\ Str.at_ s k = c.
Proof.
  unfold Str.size, Str.at_. revert k. induction s as [|x r IH]; intros k; [discriminate|].
  cbn [strchr]. destruct (Ascii.eqb_spec x c) as [->|_].
  - intros E. injection E as <-. cbn. split; [lia | reflexivity].
  - destruct (Ascii.eqb x zero); [discriminate|].
    destruct (strchr r c) as [j|]; [|discriminate].
    intros E. injection E as <-. destruct (IH j eq_refl) as [H1 H2].
    cbn. split; [lia | exact H2].
Qed.

Lemma first_occurrence (c : ascii) (b : str) :
  In c b -> exists b1 b2, b = b1 ++ c :: b2 /\ ~ In c b1.
Proof.
  induction b as [|x r IH]; [intros []|]. intros Hin.
  destruct (Ascii.eqb_spec x c) as [->|Hne].
  - exists [], r. split; [reflexivity | intros []].
  - destruct Hin as [E|Hin]; [congruence|].
    destruct (IH Hin) as (b1 & b2 & -> & Hn).
    exists (x :: b1), b2. split; [reflexivity|].
    intros [E|H]; [congruence | tauto].
Qed.

Lemma c_str_nulfree (a r : str) : ~ In zero a -> c_str (a ++ zero :: r) = a.
Proof.
  induction a as [|x a IH]; intros Hz; cbn [app c_str].
  - now rewrite Ascii.eqb_refl.
  - assert (Hx : Ascii.eqb x zero = false).
    { apply Ascii.eqb_neq. intros ->. apply Hz. now left. }
    rewrite Hx, IH; [reflexivity|]. intros H. apply Hz. now right.
Qed.

Lemma poke_at (a r : str) (x v : ascii) :
  poke (a ++ x :: r) (Str.size a) v = a ++ v :: r.
Proof.
  unfold poke. rewrite firstn_size_app.
  change (a ++ x :: r) with (a ++ [x] ++ r). rewrite app_assoc.
  replace (S (Str.size a)) with (Str.size (a ++ [x]))
    by (unfold Str.size; rewrite length_app; simpl; lia).
  now rewrite skipn_size_app.
Qed.

Lemma slash_positions_first (b1 b2 : str) (i : nat) :
  ~ In ch_slash b1 ->
  slash_positions (b1 ++ ch_slash :: b2) i =
  (i + Str.size b1) :: slash_positions b2 (i + Str.size b1 + 1).
Proof.
  revert i. induction b1 as [|x b IH]; intros i Hn; cbn [app slash_positions].
  - rewrite Ascii.eqb_refl. cbn. now rewrite Nat.add_0_r, Nat.add_1_r.
  - assert (Hx : Ascii.eqb x ch_slash = false).
    { apply Ascii.eqb_neq. intros ->. apply Hn. now left. }
    rewrite Hx, IH by (intros H; apply Hn; now right).
    unfold Str.size. cbn [List.length]. f_equal; [lia | f_equal; lia].
Qed.

Section CreateFacts.

Variable World : Type.
Variable CreateDirectory : str -> World -> bool * World.

(** [s] is the path string: it holds no NUL. *)
Variable s : str.
Hypothesis s_nulfree : ~ In zero s.

Lemma create_parents_loop_walk (fuel : nat) (a b : str) (w : World) :
  s = a ++ b ->
  Str.size b < fuel ->
  (b = [] \/ exists b', b = b' ++ [ch_slash]) ->
  create_parents_loop CreateDirectory fuel (s ++ [zero]) (Str.size a) w =
  create_each CreateDirectory
    (map (fun j => firstn j s) (slash_positions b (Str.size a))) w.
Proof.
  revert a b w. induction fuel as [|fuel IH]; intros a b w Hs Hf Hb; [lia|].
  cbn [create_parents_loop].
  destruct b as [|x0 b0].
  - rewrite app_nil_r in Hs. subst a.
    replace (Str.at_ (s ++ [zero]) (Str.size s)) with zero.
    + reflexivity.
    + replace (Str.size s) with (Str.size s + 0) by lia. now rewrite at_app_r.
  - destruct Hb as [Hb|[b' Hb]]; [discriminate|].
    assert (Hin : In ch_slash (x0 :: b0)).
    { rewrite Hb. apply in_or_app. right. now left. }
    destruct (first_occurrence ch_slash _ Hin) as (b1 & b2 & Eb & Hn1).
    rewrite Eb in *. clear Hin.
    assert (Hz1 : ~ In zero b1).
    { intros H. apply s_nulfree. rewrite Hs. apply in_or_app. right.
      apply in_or_app. now left. }
    assert (Hza : ~ In zero (a ++ b1)).
    { intros H. apply s_nulfree. rewrite Hs. apply in_app_or in H as [H|H].
      - apply in_or_app. now left.
      - apply in_or_app. right. apply in_or_app. now left. }
    assert (Hhead : Ascii.eqb (Str.at_ (s ++ [zero]) (Str.size a)) zero = false).
    { rewrite Hs, <- app_assoc.
      replace (Str.size a) with (Str.size a + 0) by lia. rewrite at_app_r.
      apply Ascii.eqb_neq. intros E. apply s_nulfree. rewrite Hs.
      apply in_or_app. right.
      destruct b1 as [|y b1']; cbn in E; [discriminate E|]. left. exact E. }
    rewrite Hhead.
    assert (Hbuf : s ++ [zero] = (a ++ b1) ++ ch_slash :: (b2 ++ [zero])).
    { rewrite Hs, <- !app_assoc. reflexivity. }
    assert (Hchr : strchr_at (s ++ [zero]) (Str.size a) ch_slash
                   = Some (Str.size (a ++ b1))).
    { unfold strchr_at. rewrite Hs, <- app_assoc, skipn_size_app.
      rewrite <- app_assoc. cbn [app].
      rewrite strchr_found by assumption.
      unfold Str.size. now rewrite length_app. }
    rewrite Hchr, Hbuf, poke_at.
    rewrite c_str_nulfree by assumption.
    rewrite slash_positions_first by assumption.
    cbn [map create_each].
    assert (Hname : firstn (Str.size a + Str.size b1) s = a ++ b1).
    { rewrite Hs. rewrite app_assoc.
      replace (Str.size a + Str.size b1) with (Str.size (a ++ b1))
        by (unfold Str.size; now rewrite length_app).
      apply firstn_size_app. }
    rewrite Hname.
    destruct (CreateDirectory (a ++ b1) w) as [[|] w']; cbn [negb]; [|reflexivity].
    rewrite poke_at, <- Hbuf.
    replace (Str.size (a ++ b1) + 1) with (Str.size ((a ++ b1) ++ [ch_slash]))
      by (unfold Str.size; rewrite !length_app; simpl; lia).
    replace (Str.size a + Str.size b1 + 1) with (Str.size ((a ++ b1) ++ [ch_slash]))
      by (unfold Str.size; rewrite !length_app; simpl; lia).
    apply IH.
    + rewrite Hs, <- !app_assoc. reflexivity.
    + unfold Str.size in *. rewrite length_app in Hf. cbn in Hf. lia.
    + destruct b2 as [|y b2'] using rev_ind; [now left|]. right.
      exists b2'.
      change (b1 ++ ch_slash :: b2' ++ [y]) with (b1 ++ (ch_slash :: b2') ++ [y]) in Hb.
      rewrite (app_assoc b1) in Hb. apply app_inj_tail in Hb as [_ ->]. reflexivity.
Qed.

End CreateFacts.

Lemma at_skipn (buf : str) (from k : nat) :
  Str.at_ (skipn from buf) k = Str.at_ buf (from + k).
Proof.
  unfold Str.at_. revert buf. induction from as [|f IH]; intros buf; [reflexivity|].
  destruct buf as [|x r]; [now destruct k|]. cbn. apply IH.
Qed.

Lemma strchr_at_bound (buf : str) (from j : nat) (c : ascii) :
  strchr_at buf from c = Some j ->
  from <= j /\ j < Str.size buf /\ Str.at_ buf j = c.
Proof.
  unfold strchr_at. destruct (strchr (skipn from buf) c) as [k|] eqn:E; [|discriminate].
  intros H. injection H as <-. apply strchr_bound in E as [Hk Hc].
  rewrite at_skipn in Hc. unfold Str.size in *. rewrite length_skipn in Hk.
  split; [lia|]. split; [lia | exact Hc].
Qed.

Lemma skip_root_bound (s : str) (n : nat) :
  ~ In zero s ->
  skip_root (s ++ [zero]) = Finished n -> n <= Str.size s.
Proof.
  intros Hz. unfold skip_root.
  destruct (_ && _).
  - destruct (strchr_at (s ++ [zero]) 2 ch_slash) as [j1|]; [|discriminate].
    destruct (strchr_at (s ++ [zero]) (j1 + 1) ch_slash) as [j2|] eqn:E2; [|discriminate].
    destruct (Ascii.eqb _ zero); [discriminate|].
    intros H. injection H as <-.
    apply strchr_at_bound in E2 as (_ & Hlt & Hc).
    unfold Str.size in *. rewrite length_app in Hlt. cbn in Hlt.
    destruct (Nat.eq_dec j2 (List.length s)) as [->|Hne]; [|lia].
    exfalso. change (List.length s) with (Str.size s) in Hc.
    replace (Str.size s) with (Str.size s + 0) in Hc by lia.
    rewrite at_app_r in Hc. discriminate Hc.
  - intros H. injection H as <-. unfold Str.at_, Str.size.
    destruct s as [|x [|y [|z r]]]; cbn.
    + lia.
    + destruct (Ascii.eqb x ch_slash); cbn; lia.
    + destruct (Ascii.eqb y ch_colon); cbn; [lia|].
      destruct (Ascii.eqb x ch_slash); cbn; lia.
    + destruct (Ascii.eqb y ch_colon); cbn.
      * destruct (Ascii.eqb z ch_slash); cbn; lia.
      * destruct (Ascii.eqb x ch_slash); cbn; lia.
Qed.

Lemma skip_root_local (s : str) :
  (forall q, s <> ch_slash :: ch_slash :: q) ->
  exists n0, skip_root (s ++ [zero]) = Finished n0 /\ n0 <= 3.
Proof.
  intros Hq. unfold skip_root.
  assert (Hc : Ascii.eqb (Str.at_ (s ++ [zero]) 0) ch_slash
               && Ascii.eqb (Str.at_ (s ++ [zero]) 1) ch_slash = false).
  { apply andb_false_iff.
    destruct s as [|x [|y r]] eqn:E; cbn.
    - now left.
    - now right.
    - destruct (Ascii.eqb_spec x ch_slash) as [->|]; [|now left].
      destruct (Ascii.eqb_spec y ch_slash) as [->|]; [|now right].
      exfalso. apply (Hq r). reflexivity. }
  rewrite Hc. eexists. split; [reflexivity|].
  destruct (Ascii.eqb (Str.at_ (s ++ [zero]) 1) ch_colon);
    match goal with |- context [Ascii.eqb ?x ch_slash] =>
      destruct (Ascii.eqb x ch_slash) end; cbn; lia.
Qed.

Lemma c_str_id (a : str) : ~ In zero a -> c_str a = a.
Proof.
  induction a as [|x a IH]; intros Hn; [reflexivity|]. cbn [c_str].
  assert (Hx : Ascii.eqb x zero = false).
  { apply Ascii.eqb_neq. intros ->. apply Hn. now left. }
  rewrite Hx, IH; [reflexivity|]. intros H. apply Hn. now right.
Qed.

Lemma at_0_app_nul (rest : str) (c : ascii) :
  c <> zero -> Str.at_ rest 0 <> c -> Str.at_ (rest ++ [zero]) 0 <> c.
Proof. destruct rest as [|y r]; cbn; congruence. Qed.

(** The code's search for the starting point finds the start of the walk. *)
Lemma skip_root_walk_start (s : str) (n0 : nat) :
  ~ In zero s -> walk_start s n0 -> skip_root (s ++ [zero]) = Finished n0.
Proof.
  intros Hz Hw. destruct Hw as [c rest Hc Hr | rest Hs Hr | c rest Hs | c rest
                               | host share rest Hh Hsh Hne].
  - unfold skip_root. unfold Str.at_ at 1 3. cbn [app nth].
    apply Ascii.eqb_neq in Hc. rewrite Hc. cbn [andb].
    change (Str.at_ (c :: rest ++ [zero]) 1) with (Str.at_ (rest ++ [zero]) 0).
    assert (H1 : Str.at_ (rest ++ [zero]) 0 <> ch_colon)
      by (apply at_0_app_nul; [discriminate | exact Hr]).
    apply Ascii.eqb_neq in H1. rewrite H1. cbn [Str.at_ nth]. now rewrite Hc.
  - unfold skip_root.
    change (Str.at_ ((ch_slash :: rest) ++ [zero]) 1)
      with (Str.at_ (rest ++ [zero]) 0).
    assert (H1 : Str.at_ (rest ++ [zero]) 0 <> ch_colon)
      by (apply at_0_app_nul; [discriminate | exact Hr]).
    assert (H2 : Str.at_ (rest ++ [zero]) 0 <> ch_slash)
      by (apply at_0_app_nul; [discriminate | exact Hs]).
    apply Ascii.eqb_neq in H1, H2. rewrite H1, H2.
    rewrite andb_false_r. reflexivity.
  - unfold skip_root.
    change (Str.at_ ((c :: ch_colon :: rest) ++ [zero]) 1) with ch_colon.
    change (Ascii.eqb ch_colon ch_slash) with false.
    change (Ascii.eqb ch_colon ch_colon) with true.
    rewrite andb_false_r. cbv beta iota zeta.
    change (Str.at_ ((c :: ch_colon :: rest) ++ [zero]) (0 + 2))
      with (Str.at_ (rest ++ [zero]) 0).
    assert (H2 : Str.at_ (rest ++ [zero]) 0 <> ch_slash)
      by (apply at_0_app_nul; [discriminate | exact Hs]).
    apply Ascii.eqb_neq in H2. now rewrite H2.
  - unfold skip_root.
    change (Str.at_ ((c :: ch_colon :: ch_slash :: rest) ++ [zero]) 1) with ch_colon.
    change (Ascii.eqb ch_colon ch_slash) with false.
    change (Ascii.eqb ch_colon ch_colon) with true.
    rewrite andb_false_r. reflexivity.
  - assert (Hzh : ~ In zero host).
    { intros H. apply Hz. right. right. apply in_or_app. now left. }
    assert (Hzs : ~ In zero share).
    { intros H. apply Hz. right. right. apply in_or_app. right. right.
      apply in_or_app. now left. }
    assert (Hzr : ~ In zero rest).
    { intros H. apply Hz. right. right. apply in_or_app. right. right.
      apply in_or_app. right. now right. }
    set (tail2 := share ++ ch_slash :: rest ++ [zero]).
    assert (Eb : (ch_slash :: ch_slash :: host ++ ch_slash :: share ++ ch_slash :: rest)
                 ++ [zero]
                 = ch_slash :: ch_slash :: host ++ ch_slash :: tail2).
    { unfold tail2. cbn [app]. rewrite <- !app_assoc. cbn [app].
      rewrite <- !app_assoc. reflexivity. }
    rewrite Eb. unfold skip_root.
    change (Str.at_ (ch_slash :: ch_slash :: host ++ ch_slash :: tail2) 0) with ch_slash.
    change (Str.at_ (ch_slash :: ch_slash :: host ++ ch_slash :: tail2) 1) with ch_slash.
    change (Ascii.eqb ch_slash ch_slash && Ascii.eqb ch_slash ch_slash) with true.
    cbv beta iota.
    assert (E1 : strchr_at (ch_slash :: ch_slash :: host ++ ch_slash :: tail2) 2 ch_slash
                 = Some (2 + Str.size host)).
    { unfold strchr_at.
      change (skipn 2 (ch_slash :: ch_slash :: host ++ ch_slash :: tail2))
        with (host ++ ch_slash :: tail2).
      now rewrite strchr_found. }
    rewrite E1.
    assert (E2 : strchr_at (ch_slash :: ch_slash :: host ++ ch_slash :: tail2)
                   (2 + Str.size host + 1) ch_slash
                 = Some (2 + Str.size host + 1 + Str.size share)).
    { unfold strchr_at.
      replace (2 + Str.size host + 1) with (S (S (Str.size (host ++ [ch_slash]))))
        by (unfold Str.size; rewrite length_app; cbn; lia).
      change (skipn (S (S (Str.size (host ++ [ch_slash]))))
                (ch_slash :: ch_slash :: host ++ ch_slash :: tail2))
        with (skipn (Str.size (host ++ [ch_slash])) (host ++ ch_slash :: tail2)).
      replace (host ++ ch_slash :: tail2) with ((host ++ [ch_slash]) ++ tail2)
        by (now rewrite <- app_assoc).
      rewrite skipn_size_app. unfold tail2. now rewrite strchr_found. }
    rewrite E2.
    assert (E3 : Str.at_ (ch_slash :: ch_slash :: host ++ ch_slash :: tail2)
                   (2 + Str.size host + 1 + Str.size share + 1)
                 = Str.at_ rest 0).
    { replace (ch_slash :: ch_slash :: host ++ ch_slash :: tail2)
        with ((ch_slash :: ch_slash :: host ++ ch_slash :: share ++ [ch_slash])
              ++ rest ++ [zero]).
      2:{ unfold tail2. cbn [app]. rewrite <- !app_assoc. cbn [app].
          rewrite <- !app_assoc. reflexivity. }
      replace (2 + Str.size host + 1 + Str.size share + 1)
        with (Str.size (ch_slash :: ch_slash :: host ++ ch_slash :: share ++ [ch_slash]) + 0).
      2:{ unfold Str.size. cbn [List.length]. rewrite !length_app. cbn [List.length].
          rewrite length_app. cbn. lia. }
      rewrite at_app_r. destruct rest as [|y r]; [congruence | reflexivity]. }
    rewrite E3.
    assert (H0 : Str.at_ rest 0 <> zero).
    { destruct rest as [|y r]; [congruence|]. cbn. intros ->. apply Hzr. now left. }
    apply Ascii.eqb_neq in H0. rewrite H0. f_equal. lia.
Qed.

Lemma strchr_at_host (host tail : str) :
  ~ In zero host -> ~ In ch_slash host ->
  strchr_at (ch_slash :: ch_slash :: host ++ ch_slash :: tail) 2 ch_slash
  = Some (2 + Str.size host).
Proof.
  intros Hz Hs. unfold strchr_at.
  change (skipn 2 (ch_slash :: ch_slash :: host ++ ch_slash :: tail))
    with (host ++ ch_slash :: tail).
  now rewrite strchr_found.
Qed.

Lemma skipn_past_host (host tail : str) :
  skipn (2 + Str.size host + 1) (ch_slash :: ch_slash :: host ++ ch_slash :: tail)
  = tail.
Proof.
  replace (2 + Str.size host + 1) with (S (S (Str.size (host ++ [ch_slash]))))
    by (unfold Str.size; rewrite length_app; cbn; lia).
  change (skipn (S (S (Str.size (host ++ [ch_slash]))))
            (ch_slash :: ch_slash :: host ++ ch_slash :: tail))
    with (skipn (Str.size (host ++ [ch_slash])) (host ++ ch_slash :: tail)).
  replace (host ++ ch_slash :: tail) with ((host ++ [ch_slash]) ++ tail)
    by (now rewrite <- app_assoc).
  apply skipn_size_app.
Qed.

(** On a remote path with nothing after the share the search gives up. *)
Lemma skip_root_badly_formed (s : str) :
  ~ In zero s -> badly_formed_remote s ->
  skip_root (s ++ [zero]) = Threw (s ++ lit ": badly formed remote directory").
Proof.
  intros Hz [-> | [(host & Hh & ->) | (host & share & Hh & Hsh & ->)]].
  - reflexivity.
  - assert (Hzh : ~ In zero host).
    { intros H. apply Hz. right. right. apply in_or_app. now left. }
    assert (Ec : c_str ((ch_slash :: ch_slash :: host ++ [ch_slash]) ++ [zero])
                 = ch_slash :: ch_slash :: host ++ [ch_slash])
      by (now apply c_str_nulfree).
    revert Ec.
    replace ((ch_slash :: ch_slash :: host ++ [ch_slash]) ++ [zero])
      with (ch_slash :: ch_slash :: host ++ ch_slash :: [zero])
      by (cbn [app]; now rewrite <- app_assoc).
    intros Ec. unfold skip_root.
    change (Str.at_ (ch_slash :: ch_slash :: host ++ ch_slash :: [zero]) 0) with ch_slash.
    change (Str.at_ (ch_slash :: ch_slash :: host ++ ch_slash :: [zero]) 1) with ch_slash.
    change (Ascii.eqb ch_slash ch_slash && Ascii.eqb ch_slash ch_slash) with true.
    cbv beta iota.
    rewrite (strchr_at_host host [zero] Hzh Hh).
    unfold strchr_at at 1. rewrite skipn_past_host. cbn [strchr].
    change (Ascii.eqb zero ch_slash) with false.
    change (Ascii.eqb zero zero) with true. cbv iota.
    now rewrite Ec.
  - assert (Hzh : ~ In zero host).
    { intros H. apply Hz. right. right. apply in_or_app. now left. }
    assert (Hzs : ~ In zero share).
    { intros H. apply Hz. right. right. apply in_or_app. right. right.
      apply in_or_app. now left. }
    assert (Ec : c_str ((ch_slash :: ch_slash :: host ++ ch_slash :: share ++ [ch_slash])
                        ++ [zero])
                 = ch_slash :: ch_slash :: host ++ ch_slash :: share ++ [ch_slash])
      by (now apply c_str_nulfree).
    revert Ec.
    set (tail2 := share ++ ch_slash :: [zero]).
    replace ((ch_slash :: ch_slash :: host ++ ch_slash :: share ++ [ch_slash]) ++ [zero])
      with (ch_slash :: ch_slash :: host ++ ch_slash :: tail2).
    2:{ unfold tail2. cbn [app]. rewrite <- !app_assoc. cbn [app].
        rewrite <- !app_assoc. reflexivity. }
    intros Ec. unfold skip_root.
    change (Str.at_ (ch_slash :: ch_slash :: host ++ ch_slash :: tail2) 0) with ch_slash.
    change (Str.at_ (ch_slash :: ch_slash :: host ++ ch_slash :: tail2) 1) with ch_slash.
    change (Ascii.eqb ch_slash ch_slash && Ascii.eqb ch_slash ch_slash) with true.
    cbv beta iota.
    rewrite (strchr_at_host host tail2 Hzh Hh).
    unfold strchr_at at 1. rewrite skipn_past_host. unfold tail2 at 1.
    rewrite strchr_found by assumption.
    assert (E3 : Str.at_ (ch_slash :: ch_slash :: host ++ ch_slash :: tail2)
                   (2 + Str.size host + 1 + Str.size share + 1) = zero).
    { replace (2 + Str.size host + 1 + Str.size share + 1)
        with ((2 + Str.size host + 1) + (Str.size share + 1)) by lia.
      rewrite <- at_skipn, skipn_past_host. unfold tail2.
      replace (share ++ ch_slash :: [zero]) with ((share ++ [ch_slash]) ++ [zero])
        by (now rewrite <- app_assoc).
      replace (Str.size share + 1) with (Str.size (share ++ [ch_slash]) + 0)
        by (unfold Str.size; rewrite length_app; cbn; lia).
      now rewrite at_app_r. }
    rewrite E3. change (Ascii.eqb zero zero) with true. cbv iota.
    now rewrite Ec.
Qed.

(** Every path that does not start with two separators has a start. *)
Lemma walk_start_local (s q : str) :
  s = q ++ [ch_slash] ->
  (forall q', s <> ch_slash :: ch_slash :: q') ->
  exists n0, walk_start s n0 /\ n0 <= 3.
Proof.
  intros Hs Hq. destruct s as [|c rest]; [destruct q; discriminate|].
  destruct rest as [|y r].
  - destruct (Ascii.eqb_spec c ch_slash) as [->|Hc].
    + exists 1. split; [apply walk_rooted; discriminate | lia].
    + exists 0. split; [apply walk_relative; [exact Hc | discriminate] | lia].
  - destruct (Ascii.eqb_spec y ch_colon) as [->|Hy].
    + destruct r as [|z r'].
      * exists 2. split; [apply walk_drive; discriminate | lia].
      * destruct (Ascii.eqb_spec z ch_slash) as [->|Hz].
        { exists 3. split; [apply walk_drive_rooted | lia]. }
        exists 2. split; [apply walk_drive; exact Hz | lia].
    + destruct (Ascii.eqb_spec c ch_slash) as [->|Hc].
      * destruct (Ascii.eqb_spec y ch_slash) as [->|Hy'].
        { exfalso. now apply (Hq r). }
        exists 1. split; [apply walk_rooted; assumption | lia].
      * exists 0. split; [apply walk_relative; assumption | lia].
Qed.

(** Every path ending in a separator has a start or is a remote path with
    nothing after the share. *)
Lemma walk_start_total (s q : str) :
  s = q ++ [ch_slash] ->
  (exists n0, walk_start s n0) \/ badly_formed_remote s.
Proof.
  intros Hs.
  assert (Hlast : forall a t y, s = a ++ t ++ [y] -> y = ch_slash).
  { intros a t y E. rewrite E, app_assoc in Hs.
    now apply app_inj_tail in Hs as [_ ->]. }
  destruct s as [|c [|y t]] eqn:Es.
  - destruct q; discriminate.
  - left. destruct (walk_start_local [c] q Hs) as (n0 & H & _); [|now exists n0].
    intros q'. discriminate.
  - destruct (Ascii.eqb_spec c ch_slash) as [->|Hc].
    2:{ left. destruct (walk_start_local (c :: y :: t) q Hs) as (n0 & H & _);
          [|now exists n0].
        intros q' E. injection E as E _ _. contradiction. }
    destruct (Ascii.eqb_spec y ch_slash) as [->|Hy].
    2:{ left. destruct (walk_start_local (ch_slash :: y :: t) q Hs) as (n0 & H & _);
          [|now exists n0].
        intros q' E. injection E as E _. contradiction. }
    destruct (list_eq_dec ascii_dec t []) as [->|Ht]; [right; now left|].
    destruct (exists_last Ht) as (t' & y1 & ->).
    assert (y1 = ch_slash) by (apply (Hlast [ch_slash; ch_slash] t' y1); reflexivity).
    subst y1.
    assert (Hin : In ch_slash (t' ++ [ch_slash]))
      by (apply in_or_app; right; now left).
    destruct (first_occurrence _ _ Hin) as (host & t2 & E & Hh).
    rewrite E in *. clear E Hin Ht t'.
    destruct (list_eq_dec ascii_dec t2 []) as [->|Ht2].
    { right. right. left. now exists host. }
    destruct (exists_last Ht2) as (t2' & y2 & ->).
    assert (y2 = ch_slash).
    { apply (Hlast (ch_slash :: ch_slash :: host ++ [ch_slash]) t2' y2).
      cbn [app]. now rewrite <- app_assoc. }
    subst y2.
    assert (Hin : In ch_slash (t2' ++ [ch_slash]))
      by (apply in_or_app; right; now left).
    destruct (first_occurrence _ _ Hin) as (share & rest & E & Hsh).
    rewrite E in *. clear E Hin Ht2 t2'.
    destruct (list_eq_dec ascii_dec rest []) as [->|Hr].
    + right. right. right. now exists host, share.
    + left. exists (Str.size host + Str.size share + 4). now apply walk_remote.
Qed.

Section CreateDirectoryFacts.

Variable World : Type.
Variable CreateDirectory : str -> World -> bool * World.

Lemma createDirectory_walk (p : Path) (n0 : nat) (w : World) :
  isDirectory p = true ->
  ~ In zero (path p) ->
  skip_root (path p ++ [zero]) = Finished n0 ->
  createDirectory CreateDirectory true p w =
    create_each CreateDirectory (ancestors (path p) n0) w /\
  createDirectory CreateDirectory false p w =
    create_each CreateDirectory [removelast (path p)] w.
Proof.
  intros Hd Hz Hn. unfold createDirectory. rewrite Hd, Hn. cbn [negb].
  pose proof (skip_root_bound _ _ Hz Hn) as Hle.
  apply isDirectory_inv in Hd as [_ [q Hq]]. split.
  - unfold ancestors.
    assert (Hs : path p = firstn n0 (path p) ++ skipn n0 (path p))
      by (symmetry; apply firstn_skipn).
    assert (Ha : Str.size (firstn n0 (path p)) = n0).
    { unfold Str.size in *. rewrite length_firstn. lia. }
    rewrite <- Ha at 1 3.
    apply create_parents_loop_walk; [assumption | exact Hs | |].
    + unfold Str.size. rewrite length_skipn, length_app. cbn. lia.
    + remember (skipn n0 (path p)) as b eqn:Eb.
      destruct b as [|x0 b0]; [now left|]. right.
      assert (Hne : x0 :: b0 <> []) by discriminate.
      destruct (exists_last Hne) as [b' [y Ey]]. exists b'.
      rewrite Ey in *. rewrite Hq in Hs.
      rewrite app_assoc in Hs. now apply app_inj_tail in Hs as [_ <-].
  - rewrite Hq in *. unfold Str.size. rewrite length_app. cbn [List.length].
    replace (List.length q + 1 - 1) with (Str.size q) by (unfold Str.size; lia).
    rewrite <- app_assoc. cbn [app]. rewrite poke_at.
    rewrite c_str_nulfree
      by (intros H; apply Hz; apply in_or_app; now left).
    rewrite removelast_last. cbn [create_each].
    destruct (CreateDirectory q w) as [[|] w']; reflexivity.
Qed.

(** For a directory-mode path without NUL bytes.  The walk starts after the
    root of the path: after nothing for a relative path, after the leading
    separator, after the drive and its separator, or after host and share
    of a remote path.  With [create_parents], [createDirectory] calls the
    platform on the text before each separator from there on, the shortest
    name first, and stops with an error at the first one the platform
    refuses; without [create_parents] it makes one call, on the path
    without its trailing separator.  A remote path with nothing after the
    share ([//], [//host/], [//host/share/]) makes it throw before any
    platform call, whatever [create_parents] is.  Every directory-mode
    path is of one of these kinds, and a path that does not start with two
    separators is never refused. *)
Theorem createDirectory_behaviour (p : Path) (w : World) :
  isDirectory p = true ->
  ~ In zero (path p) ->
  (forall n0,
     walk_start (path p) n0 ->
     createDirectory CreateDirectory true p w =
       create_each CreateDirectory (ancestors (path p) n0) w /\
     createDirectory CreateDirectory false p w =
       create_each CreateDirectory [removelast (path p)] w) /\
  (forall create_parents,
     badly_formed_remote (path p) ->
     createDirectory CreateDirectory create_parents p w =
       (Threw (path p ++ lit ": badly formed remote directory"), w)) /\
  ((exists n0, walk_start (path p) n0) \/ badly_formed_remote (path p)) /\
  ((forall q, path p <> ch_slash :: ch_slash :: q) ->
     exists n0, walk_start (path p) n0 /\ n0 <= 3).
Proof.
  intros Hd Hz. split; [|split; [|split]].
  - intros n0 Hn. apply createDirectory_walk; auto.
    now apply skip_root_walk_start.
  - intros cp Hb. unfold createDirectory.
    rewrite Hd, (skip_root_badly_formed _ Hz Hb). reflexivity.
  - apply isDirectory_inv in Hd as [_ [q Hq]]. now apply (walk_start_total _ q).
  - intros Hq. apply isDirectory_inv in Hd as [_ [q Hq']].
    now apply (walk_start_local _ q).
Qed.

End CreateDirectoryFacts.

Lemma createDirectory_behaviour_witness :
  ancestors (lit "/a/b/") 1 = [lit "/a"; lit "/a/b"] /\
  createDirectory logging_CreateDirectory true (mkPath (lit "/a/b/")) []
    = (Finished true, [lit "/a"; lit "/a/b"]) /\
  createDirectory logging_CreateDirectory true (mkPath (lit "C:/a/b/")) []
    = (Finished true, [lit "C:/a"; lit "C:/a/b"]) /\
  createDirectory logging_CreateDirectory false (mkPath (lit "C:/a/b/")) []
    = (Finished true, [lit "C:/a/b"]) /\
  createDirectory logging_CreateDirectory true (mkPath (lit "//host/share/a/b/")) []
    = (Finished true, [lit "//host/share/a"; lit "//host/share/a/b"]) /\
  createDirectory logging_CreateDirectory true (mkPath (lit "//host/share/")) []
    = (Threw (lit "//host/share/: badly formed remote directory"), []).
Proof.
  assert (Hz0 : ~ In zero (lit "/a/b/")) by now apply not_In_lit.
  assert (Hz1 : ~ In zero (lit "C:/a/b/")) by now apply not_In_lit.
  assert (Hz2 : ~ In zero (lit "//host/share/")) by now apply not_In_lit.
  assert (Hz3 : ~ In zero (lit "//host/share/a/b/")) by now apply not_In_lit.
  split; [reflexivity|]. split; [|split; [|split; [|split]]].
  - refine (proj1 (proj1 (createDirectory_behaviour (list str) logging_CreateDirectory
              (mkPath (lit "/a/b/")) [] eq_refl Hz0) 1 _)).
    apply (walk_rooted (lit "a/b/")); discriminate.
  - exact (proj1 (proj1 (createDirectory_behaviour (list str) logging_CreateDirectory
              (mkPath (lit "C:/a/b/")) [] eq_refl Hz1) 3
              (walk_drive_rooted "C"%char (lit "a/b/")))).
  - exact (proj2 (proj1 (createDirectory_behaviour (list str) logging_CreateDirectory
              (mkPath (lit "C:/a/b/")) [] eq_refl Hz1) 3
              (walk_drive_rooted "C"%char (lit "a/b/")))).
  - refine (proj1 (proj1 (createDirectory_behaviour (list str) logging_CreateDirectory
              (mkPath (lit "//host/share/a/b/")) [] eq_refl Hz3) 13 _)).
    apply (walk_remote (lit "host") (lit "share") (lit "a/b/"));
      [now apply not_In_lit | now apply not_In_lit | discriminate].
  - refine (proj1 (proj2 (createDirectory_behaviour (list str) logging_CreateDirectory
              (mkPath (lit "//host/share/")) [] eq_refl Hz2)) true _).
    right. right. exists (lit "host"), (lit "share").
    split; [now apply not_In_lit|]. split; [now apply not_In_lit | reflexivity].
Defined.

(* ================================================================= *)
(** ** Destroying, and refusing *)

Lemma at_size_app (a r : str) (x : ascii) :
  Str.at_ (a ++ x :: r) (Str.size a) = x.
Proof.
  replace (Str.size a) with (Str.size a + 0) by lia. now rewrite at_app_r.
Qed.

Lemma readonly_bit_even (attr : nat) :
  (Nat.land attr FILE_ATTRIBUTE_READONLY =? 0) = Nat.even attr.
Proof.
  unfold FILE_ATTRIBUTE_READONLY. change 1 with (Nat.ones 1).
  rewrite Nat.land_ones. change (2 ^ Nat.ones 1) with 2. apply mod2_even.
Qed.

Lemma ldiff_readonly (attr : nat) :
  Nat.odd attr = true -> Nat.ldiff attr FILE_ATTRIBUTE_READONLY = attr - 1.
Proof.
  intros Ho. unfold FILE_ATTRIBUTE_READONLY. change 1 with (Nat.ones 1) at 1.
  rewrite Nat.ldiff_ones_r, Nat.shiftr_div_pow2, Nat.shiftl_mul_pow2.
  change (2 ^ 1) with 2. apply Nat.odd_spec in Ho as [k ->].
  replace (2 * k + 1) with (1 + k * 2) by lia.
  rewrite Nat.div_add by lia. cbn. lia.
Qed.

Section ActionFacts.

Variable World : Type.
Variable GetFileAttributes : World -> str -> option nat.
Variable SetFileAttributes : str -> nat -> World -> bool * World.
Variable CreateDirectory : str -> World -> bool * World.
Variable RemoveDirectory : str -> World -> bool * World.
Variable CreateFile : str -> World -> bool * World.
Variable DeleteFile : str -> World -> bool * World.
Variable system : str -> World -> World.
Variable junk : nat -> ascii.

(** The four actions do nothing to the platform when there is nothing for
    them to do: on a path of the wrong mode each returns false, and the two
    destroy actions return true when the platform reports no such file. *)
Theorem actions_leave_the_platform_alone (p : Path) (w : World) (flag : bool) :
  (isDirectory p = false ->
     createDirectory CreateDirectory flag p w = (Finished false, w) /\
     destroyDirectory GetFileAttributes RemoveDirectory system junk flag p w
       = (Finished false, w)) /\
  (isFile p = false ->
     createFile CreateFile p w = (Finished false, w) /\
     destroyFile GetFileAttributes SetFileAttributes DeleteFile p w
       = (Finished false, w)) /\
  (GetFileAttributes w (c_str (path p)) = None ->
     (isDirectory p = true ->
        destroyDirectory GetFileAttributes RemoveDirectory system junk flag p w
          = (Finished true, w)) /\
     (isFile p = true ->
        destroyFile GetFileAttributes SetFileAttributes DeleteFile p w
          = (Finished true, w))).
Proof.
  unfold createDirectory, destroyDirectory, createFile, destroyFile, exists_.
  split; [|split].
  - now intros ->.
  - now intros ->.
  - intros Ha. split; intros ->; now rewrite Ha.
Qed.

(** On an existing directory without NUL bytes in its name:
    [destroyDirectory(true)] runs [rm -rf] on the path and returns true
    whatever the command does, never throwing; [destroyDirectory(false)]
    passes the path without its trailing separator to [RemoveDirectory] and
    throws when that fails. *)
Theorem destroyDirectory_behaviour (p : Path) (w : World) (attr : nat) :
  isDirectory p = true ->
  ~ In zero (path p) ->
  GetFileAttributes w (c_str (path p)) = Some attr ->
  destroyDirectory GetFileAttributes RemoveDirectory system junk true p w
    = (Finished true, system (lit "rm -rf " ++ path p) w) /\
  destroyDirectory GetFileAttributes RemoveDirectory system junk false p w
    = (let (ok, w') := RemoveDirectory (removelast (path p)) w in
       if ok then (Finished true, w')
       else (Threw (removelast (path p) ++ lit ": Can't destroy directory: "), w')).
Proof.
  intros Hd Hz Ha. unfold destroyDirectory, exists_. rewrite Hd, Ha. cbn [negb found].
  apply isDirectory_inv in Hd as [_ [q Hq]].
  assert (Hzq : ~ In zero q).
  { intros H. apply Hz. rewrite Hq. apply in_or_app. now left. }
  split.
  - f_equal. f_equal.
    rewrite <- (app_nil_r (lit "rm -rf " ++ path p)) at 2.
    rewrite <- (app_nil_r (lit "rm -rf " ++ path p)) at 1.
    assert (H0 : forall a : str, ~ In zero a -> c_str (a ++ []) = a).
    { induction a as [|x a IH]; intros Hn; [reflexivity|]. cbn [app c_str].
      assert (Hx : Ascii.eqb x zero = false).
      { apply Ascii.eqb_neq. intros ->. apply Hn. now left. }
      rewrite Hx, IH; [reflexivity|]. intros H. apply Hn. now right. }
    rewrite H0; [now rewrite app_nil_r|].
    intros H. apply in_app_or in H as [H|H]; [|contradiction].
    revert H. now apply not_In_lit.
  - rewrite Hq. rewrite removelast_last.
    replace (Str.size (q ++ [ch_slash]) - 1) with (Str.size q)
      by (unfold Str.size; rewrite length_app; simpl; lia).
    rewrite <- app_assoc. cbn [app].
    rewrite at_size_app, Ascii.eqb_refl.
    rewrite poke_at, c_str_nulfree by assumption.
    destruct (RemoveDirectory q w) as [[|] w']; reflexivity.
Qed.

(** On an existing file: [destroyFile] deletes it, throwing when
    [DeleteFile] fails; when the read-only bit is set it first asks the
    platform to store the attributes with that bit cleared, and when that
    fails it throws without calling [DeleteFile]. *)
Theorem destroyFile_behaviour (p : Path) (w : World) (attr : nat) :
  isFile p = true ->
  GetFileAttributes w (c_str (path p)) = Some attr ->
  let name := c_str (path p) in
  let delete w :=
    let (ok, w') := DeleteFile name w in
    if ok then (Finished true, w')
    else (Threw (name ++ lit ": Can't destroy file: "), w') in
  (Nat.even attr = true ->
     destroyFile GetFileAttributes SetFileAttributes DeleteFile p w = delete w) /\
  (Nat.odd attr = true ->
     destroyFile GetFileAttributes SetFileAttributes DeleteFile p w =
     let (ok, w') := SetFileAttributes name (attr - 1) w in
     if ok then delete w'
     else (Threw (name ++ lit ": Can't destroy file: "), w')).
Proof.
  intros Hf Ha name delete. unfold destroyFile. rewrite Hf, Ha. cbn [negb].
  rewrite readonly_bit_even. split.
  - intros He. rewrite He. cbn [negb]. unfold delete, name.
    destruct (DeleteFile _ w) as [[|] w']; reflexivity.
  - intros Ho. rewrite <- Nat.negb_odd, Ho. cbn [negb].
    rewrite (ldiff_readonly attr Ho). unfold delete, name.
    destruct (SetFileAttributes _ _ w) as [[|] w']; cbn [negb]; [|reflexivity].
    destruct (DeleteFile _ w') as [[|] w'']; reflexivity.
Qed.

End ActionFacts.

Lemma actions_leave_the_platform_alone_witness :
  createDirectory logging_CreateDirectory true (mkPath (lit "/a/b")) []
    = (Finished false, []) /\
  destroyFile (fun _ _ => None) (fun _ _ w => (true, w)) logging_CreateDirectory
    (mkPath (lit "/a/b")) [] = (Finished true, []).
Proof.
  split.
  - exact (proj1 (proj1 (actions_leave_the_platform_alone (list str)
             (fun _ _ => None) (fun _ _ w => (true, w)) logging_CreateDirectory
             logging_CreateDirectory logging_CreateDirectory logging_CreateDirectory
             (fun _ w => w) (fun _ => zero) (mkPath (lit "/a/b")) [] true) eq_refl)).
  - exact (proj2 (proj2 (proj2 (actions_leave_the_platform_alone (list str)
             (fun _ _ => None) (fun _ _ w => (true, w)) logging_CreateDirectory
             logging_CreateDirectory logging_CreateDirectory logging_CreateDirectory
             (fun _ w => w) (fun _ => zero) (mkPath (lit "/a/b")) [] true)) eq_refl)
             eq_refl).
Defined.

Lemma destroyDirectory_behaviour_witness :
  destroyDirectory (fun _ _ => Some 16) logging_CreateDirectory
    (fun cmd w => w ++ [cmd]) (fun _ => "x"%char) true (mkPath (lit "/tmp/d/")) []
    = (Finished true, [lit "rm -rf /tmp/d/"]) /\
  destroyDirectory (fun _ _ => Some 16) logging_CreateDirectory
    (fun cmd w => w ++ [cmd]) (fun _ => "x"%char) false (mkPath (lit "/tmp/d/")) []
    = (Finished true, [lit "/tmp/d"]).
Proof.
  assert (Hz : ~ In zero (lit "/tmp/d/")) by now apply not_In_lit.
  exact (destroyDirectory_behaviour (list str) (fun _ _ => Some 16)
           logging_CreateDirectory (fun cmd w => w ++ [cmd]) (fun _ => "x"%char)
           (mkPath (lit "/tmp/d/")) [] 16 eq_refl Hz eq_refl).
Defined.

Lemma destroyFile_behaviour_witness :
  destroyFile (fun _ _ => Some 33)
    (fun name attr w => (true, w ++ [lit "attrib " ++ name ++ lit " " ++ decimal attr]))
    (fun name w => (true, w ++ [lit "del " ++ name])) (mkPath (lit "/tmp/f")) []
    = (Finished true, [lit "attrib /tmp/f 32"; lit "del /tmp/f"]).
Proof.
  exact (proj2 (destroyFile_behaviour (list str) (fun _ _ => Some 33)
           (fun name attr w => (true, w ++ [lit "attrib " ++ name ++ lit " " ++ decimal attr]))
           (fun name w => (true, w ++ [lit "del " ++ name]))
           (mkPath (lit "/tmp/f")) [] 33 eq_refl eq_refl) eq_refl).
Defined.

(* ================================================================= *)
(** ** The temporary directory *)

Section TemporaryDirectoryFacts.

Variable World : Type.
Variable GetFileAttributes : World -> str -> option nat.
Variable CreateDirectory : str -> World -> bool * World.
Variable RemoveDirectory : str -> World -> bool * World.
Variable system : str -> World -> World.
Variable GetTempPath : World -> option str.
Variable GetCurrentProcessId : World -> nat.
Variable junk : nat -> ascii.

(** [GetTemporaryDirectory] computes its answer once: a call that returns
    [r] leaves [r] cached, and every call made while [r] is cached returns
    [r] and touches nothing.  When the platform gives no temporary path
    the call throws and changes nothing, and a call that ends in an error
    caches nothing. *)
Theorem GetTemporaryDirectory_caches (st st' : World * option Path) :
  (forall r,
     GetTemporaryDirectory GetFileAttributes CreateDirectory RemoveDirectory
       system GetTempPath GetCurrentProcessId junk st = (Finished r, st') ->
     snd st' = Some r /\
     GetTemporaryDirectory GetFileAttributes CreateDirectory RemoveDirectory
       system GetTempPath GetCurrentProcessId junk st' = (Finished r, st')) /\
  (forall w r,
     GetTemporaryDirectory GetFileAttributes CreateDirectory RemoveDirectory
       system GetTempPath GetCurrentProcessId junk (w, Some r)
     = (Finished r, (w, Some r))) /\
  (forall w, GetTempPath w = None ->
     GetTemporaryDirectory GetFileAttributes CreateDirectory RemoveDirectory
       system GetTempPath GetCurrentProcessId junk (w, None)
     = (Threw (lit "Can't determine temporary directory"), (w, None))) /\
  (forall what, snd st = None ->
     GetTemporaryDirectory GetFileAttributes CreateDirectory RemoveDirectory
       system GetTempPath GetCurrentProcessId junk st = (Threw what, st') ->
     snd st' = None).
Proof.
  unfold GetTemporaryDirectory. split; [|split; [|split]].
  - intros r. destruct st as [w [c|]].
    + intros E. injection E as <- <-. split; reflexivity.
    + destruct (GetTempPath w); [|discriminate].
      destruct (destroyDirectory _ _ _ _ _ _ _) as [[b| | |] w1]; try discriminate.
      destruct (createDirectory _ _ _ _) as [[b'| | |] w2]; try discriminate.
      intros E. injection E as <- <-. split; reflexivity.
  - reflexivity.
  - now intros w ->.
  - intros what. destruct st as [w [c|]]; [discriminate|]. intros _.
    destruct (GetTempPath w).
    + destruct (destroyDirectory _ _ _ _ _ _ _) as [[b| | |] w1];
        try discriminate.
      * destruct (createDirectory _ _ _ _) as [[b'| | |] w2]; try discriminate.
        intros E. now injection E as _ <-.
      * intros E. now injection E as _ <-.
    + intros E. now injection E as _ <-.
Qed.

End TemporaryDirectoryFacts.

Lemma decimal_digits (n : nat) (c : ascii) :
  In c (decimal n) -> In c (lit "0123456789").
Proof.
  unfold decimal. generalize (Nat.to_uint n). intros d.
  induction d; cbn [NilEmpty.string_of_uint list_ascii_of_string];
    try (intros [<-|H]; [cbn; tauto | now apply IHd]).
  intros [].
Qed.

Lemma digit_plain (c : ascii) :
  In c (lit "0123456789") ->
  illegal c = false /\ c <> ch_colon /\ c <> zero /\ c <> ch_dot /\ c <> ch_space.
Proof.
  cbn. intros H.
  repeat (destruct H as [<-|H]; [repeat split; discriminate|]). destruct H.
Qed.

(** Appending a name that ends in two characters other than a dot or a
    space, and holds no colon or illegal character, keeps a string valid. *)
Lemma valid_string_app2 (f t : str) (z y : ascii) :
  f = [] \/ valid_string f ->
  (forall c, In c (t ++ [z; y]) -> illegal c = false /\ c <> ch_colon) ->
  z <> ch_dot -> z <> ch_space -> y <> ch_dot -> y <> ch_space ->
  valid_string (f ++ t ++ [z; y]).
Proof.
  intros Hf Ht Hz1 Hz2 Hy1 Hy2.
  assert (Hend : forall q a b, f ++ t ++ [z; y] = q ++ [a; b] -> a = z /\ b = y).
  { intros q a b E.
    change (q ++ [a; b]) with (q ++ [a] ++ [b]) in E.
    change (f ++ t ++ [z; y]) with (f ++ t ++ [z] ++ [y]) in E.
    rewrite !app_assoc in E. apply app_inj_tail in E as [E ->].
    apply app_inj_tail in E as [_ ->]. auto. }
  assert (Hend1 : forall q b, f ++ t ++ [z; y] = q ++ [b] -> b = y).
  { intros q b E. change (f ++ t ++ [z; y]) with (f ++ t ++ [z] ++ [y]) in E.
    rewrite !app_assoc in E. now apply app_inj_tail in E as [_ ->]. }
  split; [|split; [|split; [|split; [|split; [|split]]]]].
  - intros E. apply app_eq_nil in E as [_ E]. apply app_eq_nil in E as [_ E].
    discriminate E.
  - intros i Hi.
    destruct (Nat.lt_ge_cases i (List.length f)) as [Hlt|Hge].
    + rewrite nth_error_app1 in Hi by assumption.
      destruct Hf as [->|(Hne & Hcol & _)]; [cbn in Hlt; lia|].
      destruct (Hcol i Hi) as (-> & Ha & Hl). split; [reflexivity|].
      split.
      * rewrite at_app_l; [exact Ha | unfold Str.size; lia].
      * unfold Str.size in *. rewrite length_app. lia.
    + rewrite nth_error_app2 in Hi by assumption.
      apply nth_error_In in Hi. now destruct (Ht _ Hi) as [_ Hc].
  - intros c Hc. apply in_app_or in Hc as [Hc|Hc].
    + destruct Hf as [->|(_ & _ & Hill & _)]; [destruct Hc | now apply Hill].
    + now destruct (Ht _ Hc).
  - intros q E. apply Hend1 in E. congruence.
  - intros q E. apply Hend in E as [E _]. congruence.
  - intros q E. apply Hend1 in E. congruence.
  - intros q E. apply Hend in E as [E _]. congruence.
Qed.

Lemma temp_name_plain (n : nat) (c : ascii) :
  In c (lit "LLVM_" ++ decimal n) ->
  illegal c = false /\ c <> ch_colon /\ c <> zero /\ c <> ch_dot /\ c <> ch_space.
Proof.
  intros H. apply in_app_or in H as [H|H].
  - cbn in H. repeat (destruct H as [<-|H]; [repeat split; discriminate|]).
    destruct H.
  - apply decimal_digits in H. now apply digit_plain.
Qed.

Lemma temp_name_valid (t : str) (n : nat) :
  t = [] \/ valid_string t ->
  valid_string (t ++ (lit "LLVM_" ++ decimal n) ++ [ch_slash]).
Proof.
  intros Ht.
  assert (Hne : lit "LLVM_" ++ decimal n <> []) by discriminate.
  destruct (exists_last Hne) as [nm [z Ez]].
  assert (Hz : In z (lit "LLVM_" ++ decimal n)).
  { rewrite Ez. apply in_or_app. right. now left. }
  destruct (temp_name_plain n z Hz) as (_ & _ & _ & Hz1 & Hz2).
  rewrite Ez, <- app_assoc. cbn [app].
  apply valid_string_app2; auto; try discriminate.
  intros c Hc.
  assert (Hc' : In c (lit "LLVM_" ++ decimal n) \/ c = ch_slash).
  { rewrite Ez. apply in_app_or in Hc as [Hc|Hc].
    - left. apply in_or_app. now left.
    - destruct Hc as [<-|[<-|[]]]; [left; apply in_or_app; right; now left | now right]. }
  destruct Hc' as [H | ->].
  - now destruct (temp_name_plain n c H) as (? & ? & _).
  - split; [reflexivity | discriminate].
Qed.

Section TemporaryDirectoryFresh.

Variable World : Type.
Variable GetFileAttributes : World -> str -> option nat.
Variable CreateDirectory : str -> World -> bool * World.
Variable RemoveDirectory : str -> World -> bool * World.
Variable system : str -> World -> World.
Variable GetTempPath : World -> option str.
Variable GetCurrentProcessId : World -> nat.
Variable junk : nat -> ascii.

Lemma GetTemporaryDirectory_first_call (w : World) (t : str) (d : Path) :
  GetTempPath w = Some t ->
  setDirectory t Path_default = (true, d) ->
  isDirectory d = true ->
  ~ In zero (path d) ->
  (forall q, path d <> ch_slash :: ch_slash :: q) ->
  let name := path d ++ lit "LLVM_" ++ decimal (GetCurrentProcessId w) in
  let r := mkPath (name ++ [ch_slash]) in
  let w1 := if found (GetFileAttributes w (path r))
            then system (lit "rm -rf " ++ path r) w else w in
  GetTemporaryDirectory GetFileAttributes CreateDirectory RemoveDirectory system
    GetTempPath GetCurrentProcessId junk (w, None) =
  (let (ok, w2) := CreateDirectory name w1 in
   if ok then (Finished r, (w2, Some r))
   else (Threw (name ++ lit ": Can't create directory: "), (w2, None))).
Proof.
  intros Ht Hset Hdir Hz Hlocal name r w1.
  set (pid := GetCurrentProcessId w) in *.
  assert (Hvt : valid_string (path d)).
  { apply (isValid_valid_string d).
    unfold isDirectory in Hdir. now apply andb_true_iff in Hdir as [Hv _]. }
  assert (Epath : path r = path d ++ (lit "LLVM_" ++ decimal pid) ++ [ch_slash]).
  { unfold r, name. cbn [path]. now rewrite <- !app_assoc. }
  assert (Hvr : isValid r = true).
  { apply isValid_valid_string. rewrite Epath. apply temp_name_valid. now right. }
  assert (Hdr : isDirectory r = true).
  { apply isDirectory_intro with name; [exact Hvr | reflexivity]. }
  assert (Hzr : ~ In zero (path r)).
  { rewrite Epath. intros H. apply in_app_or in H as [H|H]; [contradiction|].
    apply in_app_or in H as [H|H].
    - now destruct (temp_name_plain pid zero H) as (_ & _ & Hn & _).
    - destruct H as [H|[]]. discriminate H. }
  assert (Happ : appendDirectory (lit "LLVM_" ++ decimal pid) d = (true, r)).
  { rewrite appendDirectory_eq, (isDirectory_not_isFile _ Hdir).
    rewrite <- Epath, Path_eta. now rewrite Hvr. }
  assert (Hdestroy :
    destroyDirectory GetFileAttributes RemoveDirectory system junk true r w
    = (Finished true, w1)).
  { unfold destroyDirectory, exists_. rewrite Hdr. cbn [negb].
    rewrite (c_str_id _ Hzr). unfold w1.
    destruct (GetFileAttributes w (path r)); cbn [found negb]; [|reflexivity].
    rewrite c_str_id; [reflexivity|].
    intros H. apply in_app_or in H as [H|H]; [|contradiction].
    revert H. now apply not_In_lit. }
  assert (Hroot : forall q, path r <> ch_slash :: ch_slash :: q).
  { intros q E. rewrite Epath in E.
    destruct (path d) as [|x [|y t']] eqn:Ed.
    - apply isDirectory_inv in Hdir as [Hv _]. apply isValid_nonempty in Hv.
      contradiction.
    - cbn in E. discriminate E.
    - cbn in E. injection E as -> -> _. now apply (Hlocal t'). }
  destruct (skip_root_local (path r) Hroot) as (n0 & Hn0 & _).
  assert (Hcreate :
    createDirectory CreateDirectory false r w1
    = create_each CreateDirectory [name] w1).
  { rewrite (proj2 (createDirectory_walk World CreateDirectory r n0 w1 Hdr Hzr Hn0)).
    unfold r. cbn [path]. now rewrite removelast_last. }
  unfold GetTemporaryDirectory. rewrite Ht, Hset. cbn [snd].
  fold pid. rewrite Happ. cbn [snd]. rewrite Hdestroy, Hcreate.
  cbn [create_each].
  destruct (CreateDirectory name w1) as [[|] w2]; reflexivity.
Qed.

(** The first call of [GetTemporaryDirectory], when [setDirectory] turns
    the platform's temporary path into a local directory-mode path [d]
    without NUL bytes: the directory is [d] followed by [LLVM_], the
    process id in decimal and a separator; whatever exists under that name
    is removed with [rm -rf]; the directory is created by one call on the
    name without the trailing separator; the Path is cached when that call
    succeeds, and otherwise the error is thrown and nothing is cached.  A
    temporary path that ends in a backslash, as [C:\Temp\], gives a
    doubled separator: [C:/Temp//LLVM_4711/]. *)
Theorem GetTemporaryDirectory_fresh (w : World) (t : str) (d : Path) :
  GetTempPath w = Some t ->
  setDirectory t Path_default = (true, d) ->
  isDirectory d = true ->
  ~ In zero (path d) ->
  (forall q, path d <> ch_slash :: ch_slash :: q) ->
  let name := path d ++ lit "LLVM_" ++ decimal (GetCurrentProcessId w) in
  let r := mkPath (name ++ [ch_slash]) in
  let w1 := if found (GetFileAttributes w (path r))
            then system (lit "rm -rf " ++ path r) w else w in
  GetTemporaryDirectory GetFileAttributes CreateDirectory RemoveDirectory system
    GetTempPath GetCurrentProcessId junk (w, None) =
  (let (ok, w2) := CreateDirectory name w1 in
   if ok then (Finished r, (w2, Some r))
   else (Threw (name ++ lit ": Can't create directory: "), (w2, None))).
Proof. apply GetTemporaryDirectory_first_call. Qed.

End TemporaryDirectoryFresh.

Lemma GetTemporaryDirectory_fresh_witness :
  GetTemporaryDirectory (fun _ _ => Some 16) logging_CreateDirectory
    logging_CreateDirectory (fun cmd w => w ++ [cmd])
    (fun _ => Some (lit "C:\Temp\")) (fun _ => 4711) (fun _ => zero) ([], None)
  = (Finished (mkPath (lit "C:/Temp//LLVM_4711/")),
     ([lit "rm -rf C:/Temp//LLVM_4711/"; lit "C:/Temp//LLVM_4711"],
      Some (mkPath (lit "C:/Temp//LLVM_4711/")))).
Proof.
  apply (GetTemporaryDirectory_fresh (list str) (fun _ _ => Some 16)
           logging_CreateDirectory logging_CreateDirectory (fun cmd w => w ++ [cmd])
           (fun _ => Some (lit "C:\Temp\")) (fun _ => 4711) (fun _ => zero)
           [] (lit "C:\Temp\") (mkPath (lit "C:/Temp//")) eq_refl eq_refl eq_refl).
  - now apply not_In_lit.
  - intros q H. discriminate H.
Defined.

Lemma GetTemporaryDirectory_caches_witness :
  GetTemporaryDirectory (fun _ _ => Some 16) logging_CreateDirectory
    logging_CreateDirectory (fun cmd w => w ++ [cmd])
    (fun _ => Some (lit "C:/Temp/")) (fun _ => 4711) (fun _ => zero)
    ([lit "rm -rf C:/Temp/LLVM_4711/"; lit "C:/Temp/LLVM_4711"],
     Some (mkPath (lit "C:/Temp/LLVM_4711/")))
  = (Finished (mkPath (lit "C:/Temp/LLVM_4711/")),
     ([lit "rm -rf C:/Temp/LLVM_4711/"; lit "C:/Temp/LLVM_4711"],
      Some (mkPath (lit "C:/Temp/LLVM_4711/")))).
Proof.
  exact (proj2 (proj1 (GetTemporaryDirectory_caches (list str) (fun _ _ => Some 16)
           logging_CreateDirectory logging_CreateDirectory (fun cmd w => w ++ [cmd])
           (fun _ => Some (lit "C:/Temp/")) (fun _ => 4711) (fun _ => zero)
           ([], None)
           ([lit "rm -rf C:/Temp/LLVM_4711/"; lit "C:/Temp/LLVM_4711"],
            Some (mkPath (lit "C:/Temp/LLVM_4711/"))))
           (mkPath (lit "C:/Temp/LLVM_4711/")) eq_refl)).
Defined.

(* ================================================================= *)
(** ** Setting again, and starting from the empty Path *)

Lemma setDirectory_candidate_fixed (s : str) :
  s <> [] -> ~ In ch_backslash s ->
  ((exists q, s = q ++ [ch_slash]) \/ (exists x, s = [x])) ->
  setDirectory_candidate s = s.
Proof.
  intros Hne Hb Hs. unfold setDirectory_candidate.
  rewrite (FlipBackSlashes_fixed s Hb).
  destruct Hs as [[q ->]|[x ->]].
  - rewrite last_last, Ascii.eqb_refl, andb_false_r. apply app_nil_r.
  - change (1 <? Str.size [x]) with false. apply app_nil_r.
Qed.

(** A path that [setDirectory] has committed is accepted by [setDirectory]
    unchanged, and so is a file-mode path that [setFile] has committed by
    [setFile]: setting a Path from its own string gives the same Path. *)
Theorem setters_idempotent (s : str) (p p' r : Path) :
  (setDirectory s p = (true, r) -> setDirectory (path r) p' = (true, r)) /\
  (setFile s p = (true, r) -> isFile r = true -> setFile (path r) p' = (true, r)).
Proof.
  split.
  - rewrite !setDirectory_eq. destruct s as [|a t]; [discriminate|].
    cbn [Str.empty].
    destruct (isValid (mkPath (setDirectory_candidate (a :: t)))) eqn:Hv;
      [|discriminate].
    intros E. assert (Er : r = mkPath (setDirectory_candidate (a :: t)))
      by (injection E; congruence). subst r. clear E. cbn [path].
    assert (Hne : a :: t <> []) by discriminate.
    assert (Hb : ~ In ch_backslash (setDirectory_candidate (a :: t))).
    { unfold setDirectory_candidate. rewrite in_app_iff.
      intros [H|H]; [now apply FlipBackSlashes_clean in H|].
      destruct (_ && _); cbn in H; [|tauto]. destruct H as [H|[]]. discriminate H. }
    assert (Hfix : setDirectory_candidate (setDirectory_candidate (a :: t))
                   = setDirectory_candidate (a :: t)).
    { apply setDirectory_candidate_fixed; [|exact Hb|].
      - apply isValid_nonempty in Hv. exact Hv.
      - destruct (setDirectory_candidate_tail (a :: t) Hne) as [H|[x [H _]]];
          [now left | right; now exists x]. }
    rewrite Hfix, Hv.
    destruct (Str.empty (setDirectory_candidate (a :: t))) eqn:He; [|reflexivity].
    apply isValid_nonempty in Hv. cbn [path] in Hv.
    destruct (setDirectory_candidate (a :: t)); [congruence | discriminate He].
  - rewrite !setFile_eq. destruct s as [|a t]; [discriminate|].
    cbn [Str.empty]. cbv zeta.
    set (c := firstn _ (FlipBackSlashes (a :: t))).
    destruct (isValid (mkPath c)) eqn:Hv; [|discriminate].
    intros E Hf. assert (Er : r = mkPath c) by (injection E; congruence).
    subst r. clear E. cbn [path].
    assert (Hb : ~ In ch_backslash c).
    { intros H. apply (FlipBackSlashes_clean (a :: t)).
      rewrite <- (firstn_skipn (strip_slashes (a :: t) (Str.size (a :: t) - 1) + 1)
                    (FlipBackSlashes (a :: t))).
      apply in_or_app. now left. }
    assert (Hne : c <> []) by (now apply isValid_nonempty in Hv).
    destruct (exists_last Hne) as [q [x Ec]].
    assert (Hx : x <> ch_slash).
    { intros ->. unfold isFile in Hf. rewrite Hv in Hf. cbn [andb path] in Hf.
      rewrite Ec, at_last in Hf. discriminate Hf. }
    assert (Hstrip : strip_slashes c (Str.size c - 1) = Str.size q).
    { rewrite Ec.
      replace (Str.size (q ++ [x]) - 1) with (Str.size q + 0)
        by (unfold Str.size; rewrite length_app; simpl; lia).
      change (q ++ [x]) with (q ++ x :: repeat ch_slash 0).
      apply strip_slashes_stops; [exact Hx | lia]. }
    rewrite Hstrip, (FlipBackSlashes_fixed c Hb).
    replace (firstn (Str.size q + 1) c) with c.
    + rewrite Hv. destruct (Str.empty c) eqn:He; [|reflexivity].
      destruct c; [congruence | discriminate He].
    + rewrite Ec at 2.
      replace (Str.size q + 1) with (Str.size (q ++ [x]))
        by (unfold Str.size; now rewrite length_app).
      rewrite <- (app_nil_r (q ++ [x])) at 2. now rewrite firstn_size_app.
Qed.

Lemma setters_idempotent_witness :
  setDirectory (lit "C:\a\b") Path_default = (true, mkPath (lit "C:/a/b/")) /\
  setDirectory (lit "C:/a/b/") (mkPath (lit "/x")) = (true, mkPath (lit "C:/a/b/")) /\
  setFile (lit "C:/a/b") (mkPath (lit "/x")) = (true, mkPath (lit "C:/a/b")).
Proof.
  split; [reflexivity|]. split.
  - exact (proj1 (setters_idempotent (lit "C:\a\b") Path_default (mkPath (lit "/x"))
             (mkPath (lit "C:/a/b/"))) eq_refl).
  - exact (proj2 (setters_idempotent (lit "C:\a\b//") Path_default (mkPath (lit "/x"))
             (mkPath (lit "C:/a/b"))) eq_refl eq_refl).
Defined.

(** Starting from the empty Path: [appendDirectory(n)] commits [n/] and
    [appendSuffix(x)] commits [.x] whenever these strings are valid, while
    [appendFile] and the three elide operations report failure and leave
    the Path empty. *)
Theorem mutators_on_empty_path (n : str) :
  (isValid (mkPath (n ++ [ch_slash])) = true ->
     appendDirectory n Path_default = (true, mkPath (n ++ [ch_slash]))) /\
  (isValid (mkPath (ch_dot :: n)) = true ->
     appendSuffix n Path_default = (true, mkPath (ch_dot :: n))) /\
  appendFile n Path_default = (false, Path_default) /\
  elideDirectory Path_default = (false, Path_default) /\
  elideFile Path_default = (false, Path_default) /\
  elideSuffix Path_default = (false, Path_default).
Proof.
  rewrite appendDirectory_eq, appendSuffix_eq.
  split; [|split; [|repeat split]].
  - cbn [isFile isValid Path_default path Str.empty andb app]. now intros ->.
  - cbn [isDirectory isValid Path_default path Str.empty andb app]. now intros ->.
Qed.

Lemma mutators_on_empty_path_witness :
  appendDirectory (lit "build") Path_default = (true, mkPath (lit "build/")) /\
  appendSuffix (lit "cfg") Path_default = (true, mkPath (lit ".cfg")).
Proof.
  split.
  - exact (proj1 (mutators_on_empty_path (lit "build")) eq_refl).
  - exact (proj1 (proj2 (mutators_on_empty_path (lit "cfg"))) eq_refl).
Defined.
